(* ===== verification/_CoqProject ===== *)
-Q . S2P
Prelude.v
JsValue.v
Promise.v
Lodash.v
Games.v
Users.v
Friends.v
Purchases.v
Prefill.v
Handlers.v
Orchestrator.v
Wire.v
Timing.v
Loops.v
Routes.v
Store.v
