(* ===== verification/Prelude.v ===== *)
(** * galaxy-api: a verified model of the database prefill script and
      of the two route handlers

    The program.  [src/scripts/db-prefill.js] populates a running
    galaxy-api server with synthetic data.  It is one Node.js script
    built from promises over HTTP calls (the [request] library):
    - [createUsers] fans out, for each index [i < USER_COUNT], a call to
      the assertion generator ([createUser]) chained with a login call
      ([login]), and joins them with [Promise.all];
    - [createGames] submits every entry of [FAKE_GAMES], merged with
      default parameters by lodash's [_.defaults], and parses each reply
      in a [.then(JSON.parse)];
    - [createFriends] lets each user sample [min(3, USER_COUNT)] peers,
      send a friend request to each ([sendRequest], where the error codes
      [already_friends] and [already_requested] are benign) and accept
      every request that went through, as the recipient ([acceptRequest]);
    - [purchaseGames] lets each user sample two game slugs and records a
      purchase for each ([newPurchase]);
    - [run] joins users and games with [utils.promiseMap] (stage 1),
      then friends and purchases (stage 2), and prints a summary, or
      prints the error and calls [process.exit(1)]; the script first
      flushes the redis store when [FLUSH_DB_ON_PREFILL] is set.
    The route handlers [src/views/user/purchase.js] (POST
    /user/purchase) and [src/views/game/detail.js] (GET
    /game/:slug/detail) are restify callbacks over a redis client; the
    script's purchases are answered by the first one.

    The model.  Every file requires [Prelude] and the files it builds on,
    in the order of [_CoqProject].
    - [Prelude] (this file): scope [galaxy_scope], the hint databases
      [galaxy] and [galaxy_rw], and the lemmas on optional instants,
      strings and lists the components share.
    - [JsValue]: JavaScript values as [JSON.parse] produces them, JS
      truthiness, property access (a TypeError on [undefined] and [null]
      is [None]), [String()] conversion, and the wire types [Req] and
      [resp] of the HTTP calls.
    - [Promise]: a timed, logged model of ES6 promises over a remote
      side given as the class [Server] (a reply and a latency per
      request).  A computation [P A] maps a start instant to an [exec]:
      its outcome ([Resolved], [Rejected], or [Pending] when a callback
      threw before settling it), its settle instant, the log of the
      requests it issued with their instants, and the instant of the
      first uncaught exception thrown in an I/O callback (which kills
      the Node process).  [request_post], [then_], [all]
      ([Promise.all]) and [promiseMap2] ([utils.promiseMap], whose
      source is not under [src/]) are the combinators; [all] runs every
      branch to the end (nothing is cancelled) and rejects with the
      earliest rejection.  The class [PInv] packs the laws by which an
      invariant of computations is preserved by the combinators; its
      instances are [timely] and [settles], and each component proves
      its invariants once for every [PInv].  [ok_server] and
      [faulty_server] are the test servers of the witnesses.
    - [Lodash]: the interface [Sampler] the script relies on for
      [_.sample] (a class with its laws: a prefix of a permutation, of
      length [min n |l|]), the lodash 2.4 instance (inside-out
      Fisher-Yates shuffle, then truncation), and [_.defaults] on
      ordered objects.
    - [Users], [Games], [Friends], [Purchases]: one file per stage
      function of the script, each callback translated branch by branch.
    - [Prefill]: the configuration, [stage2], [run], [main] (the flush),
      and how the process ends: [exit_of] (summary, [process.exit(1)],
      crash, or hang) and [issued] (the requests sent before it ends).
    - [Handlers]: the two route handlers in a state monad [H] of their
      own over the redis store (a [gmap] of [gset]s), the responses sent
      and the redis clients opened and closed; [auth.confirmSSA], the
      outcome of [SADD] and [gamelib.getGameFromSlug] are Section
      parameters.
    - [Orchestrator]: the specification's state machine [ostep]
      ([Init], [Flush], [Stage1], [Stage2], [Done], [Aborted]) and the
      trace [main_trace] of the states a run of [main] passes through.
    - [Wire]: the wire table of the specification (its section 6) as data,
      [wire_ok] on a request, and the relation [built] (in [Prefill]) of
      the requests each call site of the script builds.
    - [Timing]: [within d p], the graded invariant that [p] is over
      (settled, exceptions thrown, replies arrived) [d] time units after
      it starts, its laws for each combinator, and the bound of each
      stage.
    - [Loops]: the loops of the script as written, with the [promises]
      array they push into: the [for] loop of [createUsers] ([for_loop],
      by well-founded recursion with Equations, and its step relation),
      lodash's [_.each] for the other stages, and the loop of
      [createGames] over a heap of objects in which [_.defaults] merges
      into the catalog entries in place ([games_loop_heap]).
    - [Routes]: the route each view registers ([purchase_route] with its
      [validation], [detail_route]), restify's matching of [:name]
      patterns, the validation plugin and the dispatch of a request to a
      handler ([dispatch]), and [serve], the API on a sequence of
      requests; the prefill script's calls become requests by
      [of_script].
    - [Store]: the abstract specification of the API ([spec_step] on a
      set of purchases and the answers sent), the relation
      [store_refines] between a redis store and the purchases, and the
      requests a client builds from abstract operations.

    Theorems.  The claims of the development, by group:
    - ordering and failure of the orchestration ([Prefill]): no stage-2
      request before every stage-1 reply arrived; a stage-1 rejection or
      a failed purchase aborts the run with [process.exit(1)] unless an
      uncaught exception crashed the process first; on a
      server where every call succeeds the script terminates with the
      summary and status 0, for every random draw (a liveness theorem,
      not a partial-correctness one); on any server the script never
      hangs; the flush comes first; the summary
      equals the counts really created; every purchase uses a token and a
      slug that stage 1 returned (runs on concrete servers, among them
      one where [process.exit(1)] stops calls still to be made, are kept
      as examples);
    - refinement ([Orchestrator]): every run is a path of the
      specification's machine and every request is sent in the state of
      its kind, while that state lasts;
    - the stages: exactly [n] users with the e-mails [test0..test(n-1)]
      (hence distinct), one generate per index issued at once, and
      fail-fast on a failed generate or login ([Users]); defaults never
      overwrite a field of the catalog, one parsed record per entry, and
      rejection (not a crash) on a reply that is not JSON ([Games]);
      accept only after a successful request, as the recipient, no
      accept after a benign conflict, abort on a fatal code, edges
      either empty or fully populated, the exact result and the number
      of requests of the stage ([Friends]);
      [min(2, |slugs|)] distinct slugs per user ([Purchases]);
    - the handlers: a valid purchase sends one response and records the
      game; an invalid user does not stop the purchase handler, which
      records under a key built from the missing e-mail and answers
      twice; the script's form is never recorded under the buyer; a
      failed [SADD] leaks the client; [SADD] is idempotent; the detail
      handler answers exactly once and always releases its client;
    - the interfaces ([Wire], [Routes]): every request of a run meets the
      wire table (a typing theorem over all servers and draws); the route
      table is exactly [POST /user/purchase] and
      [GET /game/<slug>/detail], every other request matching no route;
      every purchase of the script is refused by the validation
      of its route, and, the validation enforced or not, the script's
      purchases served in any number never reach a buyer's set: they
      write [gamesPurchased:undefined] alone (the composition of the
      script with the API); serving any sequence of requests keeps the store a
      set of non-empty [gamesPurchased:<email>] entries (an invariant);
    - time ([Timing]): with every latency at most [L], a run is over
      within four round trips, plus one for the flush, whatever the
      number of users and games (a bound, reached on the test server);
    - the API contract ([Store]): [serve] refines the abstract
      specification on valid operations, for any sequence of them;
    - the loops ([Loops]): the in-place merge of [_.defaults] submits the
      same forms whatever the aliasing of the catalog, since merging
      twice is merging once, and changes exactly the entries visited;
      lemmas of the file relate each literal loop to the stage's
      definition and count the iterations of the [for] loop.
    [Promise] proves the laws of the combinators and two invariants
    every component satisfies: [timely] (nothing before the start; a
    resolved computation has seen the reply of every request it issued
    and never crashed), which the ordering proofs use, and [settles] (a
    computation that never settles has crashed), which gives
    termination.

    Bounds and choices.  Time is [nat]: a reply to a request issued at
    [t] arrives at [t + S (latency rq)], so a callback runs strictly
    after its request; instants are exact, no bound is needed.  Ties
    between rejections at the same instant go to the branch listed
    first, as [Promise.all] registers them.  Randomness ([Math.random]
    under [_.sample]) is an explicit list of draws threaded through the
    synchronous code in the order the script consumes it (purchases
    before friends); the theorems hold for every list, and a draw
    missing from the list counts as 0.  JSON numbers are integers.  The
    server is a deterministic function of the request, so identical
    requests get identical replies; the requests of one run are pairwise
    distinct as soon as the server hands out distinct assertions, tokens
    and slugs (the e-mails and game names are distinct by construction),
    and then this restricts no server behaviour.  There is no fuel: every
    definition is structurally recursive except [for_loop], which
    Equations defines by well-founded recursion on [n - i]; [run_succeeds]
    states termination outright.  Heap locations
    are [nat]; a location the heap lacks reads as the empty object.

    Not modelled: console output other than the summary (the
    [console.log] lines of [db-prefill.js] print progress and change
    neither the requests nor the state); the form
    encoding of the [request] library; the identity-assertion service
    and the galaxy-api server behind the HTTP calls (the [Server]
    oracle); the redis client of the script (its flush is one logged
    call whose reply is ignored); restify and its validation plugin
    beyond what [Routes] states of them (swagger, content negotiation,
    the exact error body of a failed validation, which is a parameter;
    the character class of a [:name] segment: [match_path] accepts any
    segment without ['/'], the empty one included, and the theorems about
    the detail route assume a non-empty slug);
    [db] (with [db.redisView]), [settings], [lib/auth] and [lib/game],
    which are not under [src/], and the application that loads the two
    views (the order of [api_routes] is immaterial: the routes differ in
    method).
*)

From stdpp Require Export base list strings pretty.

Declare Scope galaxy_scope.
Delimit Scope galaxy_scope with galaxy.

Create HintDb galaxy.
Create Rewrite HintDb galaxy_rw.

(** ** Optional instants *)

(** The earliest of two optional instants; [None] is "never". *)
Definition omin (a b : option nat) : option nat :=
  match a, b with
  | Some x, Some y => Some (x `min` y)
  | Some x, None | None, Some x => Some x
  | None, None => None
  end.

Definition omin_list (l : list (option nat)) : option nat := foldr omin None l.

Lemma omin_None a b : omin a b = None <-> a = None /\ b = None.
Proof. destruct a, b; naive_solver. Qed.

Lemma omin_list_None l : omin_list l = None <-> Forall (eq None) l.
Proof.
  induction l as [|a l IH]; simpl; [split; auto|].
  rewrite omin_None, Forall_cons, IH. naive_solver.
Qed.

Lemma omin_lower a b c : omin a b = Some c -> (a = Some c \/ b = Some c).
Proof. destruct a as [x|], b as [y|]; simpl; intros; simplify_eq; [|auto..].
  destruct (Nat.min_spec x y) as [[_ ->]|[_ ->]]; auto. Qed.

Lemma omin_Some_l a b : is_Some a -> is_Some (omin a b).
Proof. destruct a, b; naive_solver. Qed.

Lemma omin_Some_r a b : is_Some b -> is_Some (omin a b).
Proof. destruct a, b; naive_solver. Qed.

Lemma omin_list_Some l x : x ∈ l -> is_Some x -> is_Some (omin_list l).
Proof.
  intros Hx Hs. destruct (omin_list l) eqn:Hl; [done|].
  apply omin_list_None in Hl. eapply Forall_forall in Hl; [|exact Hx].
  subst x. by destruct Hs.
Qed.

(** The earliest of a list of instants is one of them. *)
Lemma omin_list_elem l c : omin_list l = Some c -> Some c ∈ l.
Proof.
  induction l as [|a l IH]; simpl; [done|]. intros [->|Hl]%omin_lower; [left|].
  right. by apply IH.
Qed.

(** ** Strings *)

Lemma list_ascii_of_string_app s1 s2 :
  String.list_ascii_of_string (s1 +:+ s2) =
  String.list_ascii_of_string s1 ++ String.list_ascii_of_string s2.
Proof. induction s1 as [|c s1 IH]; simpl; [done | by rewrite IH]. Qed.

(** [+:+] does not simplify; these are its equations. *)
Lemma string_app_nil_l s : "" +:+ s = s.
Proof. done. Qed.

Lemma string_app_cons c s t : String c s +:+ t = String c (s +:+ t).
Proof. done. Qed.

Lemma string_app_nil_r s : s +:+ "" = s.
Proof. induction s as [|c s IH]; [done|]. by rewrite string_app_cons, IH. Qed.

(** Appending a fixed suffix is injective. *)
#[export] Instance string_app_r_inj (s : string) : Inj eq eq (fun x => x +:+ s).
Proof.
  intros x y Hxy. apply (f_equal String.list_ascii_of_string) in Hxy.
  rewrite !list_ascii_of_string_app in Hxy. apply app_inv_tail in Hxy.
  rewrite <- (String.string_of_list_ascii_of_string x), Hxy.
  apply String.string_of_list_ascii_of_string.
Qed.

(** ** Lists *)

Lemma Forall_concat {A} (P : A -> Prop) (ls : list (list A)) :
  Forall P (concat ls) <-> Forall (Forall P) ls.
Proof. induction ls; simpl; rewrite ?Forall_app, ?Forall_cons; naive_solver. Qed.

Lemma list_max_upper (l : list nat) x : x ∈ l -> x <= list_max l.
Proof.
  induction l as [|y l IH]; simpl; [by rewrite elem_of_nil|].
  rewrite elem_of_cons. intros [->|H]; [lia|]. specialize (IH H). lia.
Qed.

Lemma filter_all_false {A} (f : A -> bool) (l : list A) :
  Forall (fun x => f x = false) l -> List.filter f l = [].
Proof. induction 1 as [|x l Hx _ IH]; simpl; [done|]. by rewrite Hx. Qed.
