(* ===== verification/JsValue.v ===== *)
(** * JavaScript values, JSON and the wire types of the HTTP calls

    The script reads every reply with [JSON.parse(body)] and then with
    property accesses such as [json_resp.error] or
    [json_resp.public.username].  This file gives the values [JSON.parse]
    can return ([jsval], with [JUndef] for the result of reading a
    missing property), JavaScript truthiness (the tests [if
    (json_resp.error)] of [src/scripts/db-prefill.js]), property access
    that throws a TypeError on [undefined] and [null], the conversion
    [String(v)] used by string concatenation, and the requests and
    replies exchanged with the servers. *)

From S2P Require Import Prelude.
From Stdlib Require Import ZArith.
From stdpp Require Import countable.
#[local] Set Warnings "-register-all".

(** ** Values *)

Inductive jsval : Type :=
| JUndef
| JNull
| JBool (b : bool)
| JNum (z : Z)
| JStr (s : string)
| JArr (l : list jsval)
| JObj (fields : list (string * jsval)).

(** A plain object built by the script (an object literal). *)
Abbreviation jsobj := (list (string * jsval)).

(** The value of field [k] of an object; a missing field is [undefined].
    Objects have pairwise distinct keys ([JSON.parse] keeps the last of
    duplicate keys, and object literals of the script have none), so the
    first binding is the only one. *)
Definition field (k : string) (fs : jsobj) : jsval :=
  match list_find (fun kv => kv.1 = k) fs with
  | Some (_, (_, v)) => v
  | None => JUndef
  end.

(** [o[k] = v]: an existing key keeps its position, a new key goes last. *)
Fixpoint obj_set (k : string) (v : jsval) (o : jsobj) : jsobj :=
  match o with
  | [] => [(k, v)]
  | (k', v') :: o' => if String.eqb k' k then (k, v) :: o' else (k', v') :: obj_set k v o'
  end.

(** [typeof v == 'undefined']. *)
Definition is_undef (v : jsval) : bool :=
  match v with JUndef => true | _ => false end.

(** [v.k]: [None] is the TypeError thrown when [v] is [undefined] or
    [null]; a primitive or an array has none of the fields the script
    reads, so reading one gives [undefined]. *)
Definition getp (v : jsval) (k : string) : option jsval :=
  match v with
  | JUndef | JNull => None
  | JObj fs => Some (field k fs)
  | _ => Some JUndef
  end.

(** JavaScript truthiness: [undefined], [null], [false], [0] and [""]
    are falsy, every object and array is truthy. *)
Definition truthy (v : jsval) : bool :=
  match v with
  | JUndef | JNull => false
  | JBool b => b
  | JNum z => negb (Z.eqb z 0)
  | JStr s => negb (String.eqb s "")
  | JArr _ | JObj _ => true
  end.

(** [v === "s"] against a string literal. *)
Definition js_eq_str (v : jsval) (s : string) : bool :=
  match v with
  | JStr s' => String.eqb s' s
  | _ => false
  end.

(** [String(v)], as used by ["..." + v].  Array elements that are
    [undefined] or [null] print as the empty string. *)
Fixpoint js_to_string (v : jsval) : string :=
  match v with
  | JUndef => "undefined"
  | JNull => "null"
  | JBool true => "true"
  | JBool false => "false"
  | JNum z => pretty z
  | JStr s => s
  | JArr l =>
      (fix go (l : list jsval) : string :=
         let elem v := match v with JUndef | JNull => "" | _ => js_to_string v end in
         match l with
         | [] => ""
         | [x] => elem x
         | x :: l' => elem x +:+ "," +:+ go l'
         end) l
  | JObj _ => "[object Object]"
  end.

(** ** Requests and replies *)

(** A reply body: JSON text, or text that makes [JSON.parse] throw a
    SyntaxError. *)
Inductive body : Type :=
| Json (v : jsval)
| NotJson (text : string).

Definition JSON_parse (b : body) : option jsval :=
  match b with
  | Json v => Some v
  | NotJson _ => None
  end.

(** What the [request] library hands to a callback: an error object
    ([err] is set), or the body. *)
Inductive resp : Type :=
| TransportError
| Body (b : body).

(** The requests the script issues: a form-encoded HTTP POST, or the
    redis [FLUSHDB] command. *)
Inductive Req : Type :=
| HttpPost (url : string) (form : list (string * jsval))
| FlushDb.

Definition req_url (rq : Req) : option string :=
  match rq with
  | HttpPost u _ => Some u
  | FlushDb => None
  end.

(** ** The script's endpoints *)

Definition API_ENDPOINT : string := "http://localhost:5000".
Definition PERSONA_ENDPOINT : string := "http://localhost:9001".

(** ** Encoding into stdpp's generic trees

    The encoding gives [jsval] its decidable equality and countability
    (an injection into [gen_tree], whose instances stdpp provides). *)

Fixpoint jsval_to_tree (v : jsval) : gen_tree (bool + Z + string) :=
  match v with
  | JUndef => GenNode 0 []
  | JNull => GenNode 1 []
  | JBool b => GenNode 2 [GenLeaf (inl (inl b))]
  | JNum z => GenNode 3 [GenLeaf (inl (inr z))]
  | JStr s => GenNode 4 [GenLeaf (inr s)]
  | JArr l => GenNode 5 (jsval_to_tree <$> l)
  | JObj fs => GenNode 6 ((fun kv => GenNode 7 [GenLeaf (inr kv.1); jsval_to_tree kv.2]) <$> fs)
  end.

Fixpoint jsval_of_tree (t : gen_tree (bool + Z + string)) : jsval :=
  match t with
  | GenNode 0 [] => JUndef
  | GenNode 1 [] => JNull
  | GenNode 2 [GenLeaf (inl (inl b))] => JBool b
  | GenNode 3 [GenLeaf (inl (inr z))] => JNum z
  | GenNode 4 [GenLeaf (inr s)] => JStr s
  | GenNode 5 ts => JArr (jsval_of_tree <$> ts)
  | GenNode 6 ts =>
      JObj ((fun t => match t with
                      | GenNode 7 [GenLeaf (inr k); t'] => (k, jsval_of_tree t')
                      | _ => ("", JUndef)
                      end) <$> ts)
  | _ => JUndef
  end.

(** ** Lemmas *)

Lemma getp_obj fs k : getp (JObj fs) k = Some (field k fs).
Proof. done. Qed.

Lemma field_nil k : field k [] = JUndef.
Proof. done. Qed.

Lemma field_cons k k' v fs : field k ((k', v) :: fs) = if String.eqb k' k then v else field k fs.
Proof.
  unfold field. simpl. destruct (String.eqb_spec k' k); case_decide; try done.
  by destruct (list_find _ fs) as [[i [? ?]]|].
Qed.

(** An absent key reads as [undefined]. *)
Lemma field_notin k o : k ∉ o.*1 -> field k o = JUndef.
Proof.
  induction o as [|[k0 v0] o IH]; simpl; [done|]. rewrite elem_of_cons, field_cons.
  destruct (String.eqb_spec k0 k); naive_solver.
Qed.

Lemma field_obj_set k k' v o :
  field k (obj_set k' v o) = if String.eqb k' k then v else field k o.
Proof.
  induction o as [|[k0 v0] o IH]; simpl; [by rewrite field_cons|].
  destruct (String.eqb_spec k0 k') as [->|Hne]; rewrite !field_cons;
    [by destruct (String.eqb k' k)|].
  rewrite IH. destruct (String.eqb_spec k' k) as [<-|]; [|done].
  destruct (String.eqb_spec k0 k'); congruence.
Qed.

Lemma obj_set_keys k v o :
  (obj_set k v o).*1 = if bool_decide (k ∈ o.*1) then o.*1 else o.*1 ++ [k].
Proof.
  induction o as [|[k0 v0] o IH]; [done|]. cbn [obj_set].
  destruct (String.eqb_spec k0 k) as [->|Hne]; rewrite !fmap_cons; simpl.
  - rewrite bool_decide_true; [done|]. left.
  - rewrite IH, (bool_decide_ext (k ∈ k0 :: o.*1) (k ∈ o.*1)); [by case_bool_decide|].
    rewrite elem_of_cons. naive_solver.
Qed.

(** Whether a property read throws depends on the value, not on the
    property. *)
Lemma getp_defined v k k' : is_Some (getp v k) -> is_Some (getp v k').
Proof. destruct v; simpl; by intros []. Qed.

Lemma js_eq_str_spec v s : js_eq_str v s = true <-> v = JStr s.
Proof.
  destruct v; simpl; try (split; [done|congruence]).
  rewrite String.eqb_eq. naive_solver.
Qed.

Lemma truthy_str s : truthy (JStr s) = true <-> s <> "".
Proof.
  simpl. destruct (String.eqb_spec s ""); simpl; naive_solver.
Qed.

#[export] Hint Resolve getp_obj : galaxy.
#[export] Hint Rewrite getp_obj field_nil field_cons field_obj_set : galaxy_rw.

(** ** Decidable equality *)

(** Induction on values, with hypotheses on every element of an array
    and every field of an object. *)
Section jsval_nested_ind.
Variable P : jsval -> Prop.
Hypothesis HUndef : P JUndef.
Hypothesis HNull : P JNull.
Hypothesis HBool : forall b, P (JBool b).
Hypothesis HNum : forall z, P (JNum z).
Hypothesis HStr : forall s, P (JStr s).
Hypothesis HArr : forall l, Forall P l -> P (JArr l).
Hypothesis HObj : forall fs, Forall (fun kv => P kv.2) fs -> P (JObj fs).

Fixpoint jsval_nested_ind (v : jsval) : P v :=
  match v with
  | JUndef => HUndef
  | JNull => HNull
  | JBool b => HBool b
  | JNum z => HNum z
  | JStr s => HStr s
  | JArr l =>
      HArr l ((fix go (l : list jsval) : Forall P l :=
                 match l with
                 | [] => Forall_nil_2 P
                 | x :: l' => Forall_cons_2 P x l' (jsval_nested_ind x) (go l')
                 end) l)
  | JObj fs =>
      HObj fs ((fix go (fs : list (string * jsval)) : Forall (fun kv => P kv.2) fs :=
                  match fs with
                  | [] => Forall_nil_2 _
                  | kv :: fs' => Forall_cons_2 _ kv fs' (jsval_nested_ind kv.2) (go fs')
                  end) fs)
  end.

End jsval_nested_ind.

Lemma jsval_of_to_tree v : jsval_of_tree (jsval_to_tree v) = v.
Proof.
  induction v as [| | | | |l IH|fs IH] using jsval_nested_ind; simpl; try done.
  - f_equal. rewrite <- list_fmap_compose. rewrite <- (list_fmap_id l) at 2.
    apply list_fmap_ext. intros i x Hx. apply (Forall_lookup_1 _ _ _ _ IH Hx).
  - f_equal. rewrite <- list_fmap_compose. rewrite <- (list_fmap_id fs) at 2.
    apply list_fmap_ext. intros i [k x] Hx. simpl. f_equal.
    apply (Forall_lookup_1 _ _ _ _ IH Hx).
Qed.

#[export] Instance jsval_to_tree_inj : Inj eq eq jsval_to_tree.
Proof. intros v w Hvw. by rewrite <- (jsval_of_to_tree v), Hvw, jsval_of_to_tree. Qed.

#[export] Instance jsval_eq_dec : EqDecision jsval := inj_eq_dec jsval_to_tree.
#[export] Instance jsval_countable : Countable jsval :=
  inj_countable' jsval_to_tree jsval_of_tree jsval_of_to_tree.
#[export] Instance body_eq_dec : EqDecision body.
Proof. solve_decision. Defined.
#[export] Instance resp_eq_dec : EqDecision resp.
Proof. solve_decision. Defined.
#[export] Instance Req_eq_dec : EqDecision Req.
Proof. solve_decision. Defined.
