(* ===== verification/Promise.v ===== *)
(** * ES6 promises over a remote server: a timed, logged model

    The script is a tree of promises whose leaves are [request.post]
    calls.  A computation [P A] maps the instant at which it starts to a
    [exec]ution: how it settles ([Resolved], [Rejected], or [Pending] for a
    promise whose callback threw before settling it), when, which
    requests it issued and when, and the first instant at which one of
    its I/O callbacks threw an uncaught exception (which terminates the
    Node process).

    The remote side is the class [Server]: a reply and a latency per
    request.  A reply to a request issued at [t] is handed to its
    callback at [t + S (latency rq)].  [then_] chains a reaction at the
    instant its promise settles; [all] is [Promise.all]: every branch
    runs to the end (nothing is cancelled), the join resolves with the
    values in order when every branch resolves, and otherwise rejects
    with the rejection that settles first.  [promiseMap2] is the same
    join on two promises of different types ([utils.promiseMap] of the
    repository, whose source is not part of [src/]).

    The invariant [timely] holds of every computation built from these
    combinators: nothing happens before the start, and a resolved
    computation has seen the reply of every request it issued. *)

From S2P Require Import Prelude JsValue.

(** ** Outcomes *)

(** What a promise rejects with. *)
Inductive reason : Type :=
| RVal (v : jsval)   (** [reject(v)] with a value of the script *)
| RTransport         (** [reject(err)] with the [request] library's error *)
| RSyntaxError       (** [JSON.parse] threw inside a reaction *)
| RTypeError.        (** a property of [undefined] or [null] was read inside a reaction *)

#[export] Instance reason_eq_dec : EqDecision reason.
Proof. solve_decision. Defined.

Inductive settle (A : Type) : Type :=
| Resolved (a : A)
| Rejected (e : reason)
| Pending.
Arguments Resolved {A} a.
Arguments Rejected {A} e.
Arguments Pending {A}.

Record exec (A : Type) : Type := Exec {
  outcome : settle A;
  stime : nat;
  calls : list (nat * Req);
  crash : option nat
}.
Arguments Exec {A} outcome stime calls crash.
Arguments outcome {A} _.
Arguments stime {A} _.
Arguments calls {A} _.
Arguments crash {A} _.

Definition P (A : Type) : Type := nat -> exec A.

(** The remote side: the reply to each request and its latency. *)
Class Server : Type := {
  respond : Req -> resp;
  latency : Req -> nat
}.

(** ** Combinators *)

Definition resolve {A} (a : A) : P A := fun t => Exec (Resolved a) t [] None.

Definition reject {A} (e : reason) : P A := fun t => Exec (Rejected e) t [] None.

(** An exception thrown by an I/O callback: nothing settles the promise
    and the process dies. *)
Definition uncaught {A} : P A := fun t => Exec Pending t [] (Some t).

(** [p.then(f)]: the reaction runs when [p] resolves; a rejection
    passes through. *)
Definition then_ {A B} (p : P A) (f : A -> P B) : P B := fun t =>
  let r := p t in
  match outcome r with
  | Resolved a =>
      let r' := f a (stime r) in
      Exec (outcome r') (stime r') (calls r ++ calls r') (omin (crash r) (crash r'))
  | Rejected e => Exec (Rejected e) (stime r) (calls r) (crash r)
  | Pending => Exec Pending (stime r) (calls r) (crash r)
  end.

(** The rejection of a list of runs that settles first (the first one
    listed among those settling at the same instant). *)
Fixpoint first_rejection {A} (rs : list (exec A)) : option (reason * nat) :=
  match rs with
  | [] => None
  | r :: rs' =>
      let later := first_rejection rs' in
      match outcome r with
      | Rejected e =>
          match later with
          | Some (e', t') => if t' <? stime r then Some (e', t') else Some (e, stime r)
          | None => Some (e, stime r)
          end
      | _ => later
      end
  end.

Fixpoint all_resolved {A} (rs : list (exec A)) : option (list A) :=
  match rs with
  | [] => Some []
  | r :: rs' =>
      match outcome r with
      | Resolved a => cons a <$> all_resolved rs'
      | _ => None
      end
  end.

Definition settle_all {A} (t : nat) (rs : list (exec A)) : exec (list A) :=
  let cs := concat (calls <$> rs) in
  let cr := omin_list (crash <$> rs) in
  match first_rejection rs with
  | Some (e, te) => Exec (Rejected e) te cs cr
  | None =>
      match all_resolved rs with
      | Some vs => Exec (Resolved vs) (list_max (t :: (stime <$> rs))) cs cr
      | None => Exec Pending (list_max (t :: (stime <$> rs))) cs cr
      end
  end.

(** [Promise.all(ps)]: every branch starts at the same instant. *)
Definition all {A} (ps : list (P A)) : P (list A) := fun t =>
  settle_all t ((fun p => p t) <$> ps).

Definition erase {A} (r : exec A) : exec unit :=
  Exec (match outcome r with
       | Resolved _ => Resolved tt
       | Rejected e => Rejected e
       | Pending => Pending
       end) (stime r) (calls r) (crash r).

(** [utils.promiseMap({a: p, b: q})]: [Promise.all] on the two values. *)
Definition promiseMap2 {A B} (p : P A) (q : P B) : P (A * B) := fun t =>
  let r1 := p t in
  let r2 := q t in
  let s := settle_all t [erase r1; erase r2] in
  Exec (match outcome r1, outcome r2 with
       | Resolved a, Resolved b => Resolved (a, b)
       | _, _ =>
           match outcome s with
           | Rejected e => Rejected e
           | _ => Pending
           end
       end) (stime s) (calls s) (crash s).

(** A value computed inside an I/O callback: an exception there is
    uncaught. *)
Definition cb_let {A B} (o : option A) (k : A -> P B) : P B :=
  match o with
  | Some a => k a
  | None => uncaught
  end.

(** A value computed inside a reaction: an exception rejects. *)
Definition then_let {A B} (o : option A) (e : reason) (k : A -> P B) : P B :=
  match o with
  | Some a => k a
  | None => reject e
  end.

Notation "'let!' x ':=' o 'in' k" := (cb_let o (fun x => k))
  (at level 10, x ident, o at level 100, k at level 200) : galaxy_scope.
Notation "'let?' x ':=' o 'or' e 'in' k" := (then_let o e (fun x => k))
  (at level 10, x ident, o at level 100, e at level 100, k at level 200) : galaxy_scope.

Section WithServer.
Context `{Server}.

(** [request.post(rq, callback)]: the callback runs when the reply
    arrives. *)
Definition request_post {A} (rq : Req) (callback : resp -> P A) : P A := fun t =>
  let r := callback (respond rq) (t + S (latency rq)) in
  Exec (outcome r) (stime r) ((t, rq) :: calls r) (crash r).

Definition arrival (c : nat * Req) : nat := c.1 + S (latency c.2).

(** The timing invariant. *)
Definition timely {A} (p : P A) : Prop :=
  forall t,
    t <= stime (p t) /\
    Forall (fun c => t <= c.1) (calls (p t)) /\
    (forall a, outcome (p t) = Resolved a ->
       crash (p t) = None /\ Forall (fun c => arrival c <= stime (p t)) (calls (p t))).

End WithServer.

(** ** The join of a list of runs *)

Section Joins.
Context {A : Type}.
Implicit Types rs : list (exec A).

Lemma first_rejection_sound rs e te :
  first_rejection rs = Some (e, te) ->
  exists r, r ∈ rs /\ outcome r = Rejected e /\ stime r = te.
Proof.
  induction rs as [|r rs IH]; simpl; [done|].
  assert (Hlater : first_rejection rs = Some (e, te) ->
            exists r', r' ∈ r :: rs /\ outcome r' = Rejected e /\ stime r' = te).
  { intros Hf. destruct (IH Hf) as (r' & ? & ?). exists r'. split; [by right|done]. }
  destruct (outcome r) as [a|e0|] eqn:Ho; [exact Hlater| |exact Hlater].
  destruct (first_rejection rs) as [[e' t']|] eqn:Hf.
  - destruct (t' <? stime r); intros Heq; injection Heq as <- <-; [by apply Hlater|].
    exists r. split; [left|done].
  - intros Heq; injection Heq as <- <-. exists r. split; [left|done].
Qed.

Lemma first_rejection_complete rs r e :
  r ∈ rs -> outcome r = Rejected e -> is_Some (first_rejection rs).
Proof.
  induction rs as [|r1 rs IH]; simpl; intros Hin Hr; [by inversion Hin|].
  apply elem_of_cons in Hin as [->|Hin]; [rewrite Hr; repeat case_match; eauto|].
  destruct (IH Hin Hr) as [x Hx]. rewrite Hx.
  destruct (outcome r1); [eauto| |eauto]. destruct x; case_match; eauto.
Qed.

Lemma first_rejection_earliest rs e te r e' :
  first_rejection rs = Some (e, te) -> r ∈ rs -> outcome r = Rejected e' -> te <= stime r.
Proof.
  revert e te. induction rs as [|r0 rs IH]; intros e te; simpl; [done|].
  rewrite elem_of_cons.
  destruct (outcome r0) as [a|e0|] eqn:Ho;
    [intros Hf [->|Hin] Hr; [congruence|eauto] | | intros Hf [->|Hin] Hr; [congruence|eauto]].
  destruct (first_rejection rs) as [[e1 t1]|] eqn:Hf.
  - specialize (IH e1 t1 eq_refl).
    destruct (Nat.ltb_spec t1 (stime r0)); intros [= <- <-] [->|Hin] Hr; try lia;
      specialize (IH Hin Hr); lia.
  - intros [= <- <-] [->|Hin] Hr; [done|].
    destruct (first_rejection_complete rs r e' Hin Hr). congruence.
Qed.

Lemma first_rejection_None rs :
  first_rejection rs = None <-> forall r e, r ∈ rs -> outcome r <> Rejected e.
Proof.
  split.
  - intros Hf r e Hin Hr. destruct (first_rejection_complete rs r e Hin Hr). congruence.
  - induction rs as [|r1 rs IH]; simpl; [done|]. intros Hno.
    destruct (outcome r1) eqn:Ho; [| exfalso; eapply Hno; [left|]; done |];
      apply IH; intros r e Hin; apply Hno; by right.
Qed.

Lemma all_resolved_Some rs vs :
  all_resolved rs = Some vs <-> Forall2 (fun r v => outcome r = Resolved v) rs vs.
Proof.
  split.
  - revert vs. induction rs as [|r rs IH]; intros vs; simpl; [intros [= <-]; constructor|].
    destruct (outcome r) eqn:Ho; [|done|done].
    destruct (all_resolved rs) as [vs'|] eqn:Hrs; simpl; [|done].
    intros [= <-]. constructor; [done|]. by apply IH.
  - induction 1 as [|r v rs vs Hr _ IH]; simpl; [done|]. by rewrite Hr, IH.
Qed.

Lemma all_resolved_no_rejection rs vs :
  all_resolved rs = Some vs -> first_rejection rs = None.
Proof.
  revert vs. induction rs as [|r rs IH]; intros vs; simpl; [done|].
  destruct (outcome r); [|done|done].
  destruct (all_resolved rs) as [vs'|] eqn:Hrs; simpl; [|done]. intros _. by eapply IH.
Qed.

Lemma all_resolved_each rs vs r :
  all_resolved rs = Some vs -> r ∈ rs -> exists a, outcome r = Resolved a.
Proof.
  rewrite all_resolved_Some. intros Hf. revert r. induction Hf as [|r0 v rs vs Hr _ IH];
    intros r Hin; [by inversion Hin|].
  apply elem_of_cons in Hin as [->|Hin]; eauto.
Qed.

End Joins.

(** ** The contract of [Promise.all] *)

Section AllContract.
Context {A : Type}.
Implicit Types ps : list (P A).

(** No cancellation: the join issues every request of every branch. *)
Lemma all_calls ps t : calls (all ps t) = concat ((fun p => calls (p t)) <$> ps).
Proof. unfold all, settle_all. rewrite <- list_fmap_compose. by repeat case_match. Qed.

Lemma all_crash ps t : crash (all ps t) = omin_list ((fun p => crash (p t)) <$> ps).
Proof. unfold all, settle_all. rewrite <- (list_fmap_compose _ crash). by repeat case_match. Qed.

(** The join resolves exactly when every branch does, with their values
    in order. *)
Lemma all_resolved_iff ps t vs :
  outcome (all ps t) = Resolved vs <->
  Forall2 (fun p v => outcome (p t) = Resolved v) ps vs.
Proof.
  assert (Hiff : Forall2 (fun p v => outcome (p t) = Resolved v) ps vs <->
    Forall2 (fun r v => outcome r = Resolved v) ((fun p => p t) <$> ps) vs)
    by (rewrite Forall2_fmap_l; done).
  rewrite Hiff, <- all_resolved_Some. unfold all, settle_all. split.
  - by repeat case_match; simpl; intros; simplify_eq.
  - intros Hres. by rewrite (all_resolved_no_rejection _ _ Hres), Hres.
Qed.

(** Fail-fast: the join rejects with the reason of a branch that
    rejected no later than any other branch, at that instant. *)
Lemma all_rejected ps t e :
  outcome (all ps t) = Rejected e ->
  exists p, p ∈ ps /\ outcome (p t) = Rejected e /\ stime (all ps t) = stime (p t) /\
    (forall (p' : P A) e', p' ∈ ps -> outcome (p' t) = Rejected e' -> stime (p t) <= stime (p' t)).
Proof.
  unfold all, settle_all. destruct (first_rejection _) as [[e0 te]|] eqn:Hf;
    [|by repeat case_match].
  simpl. intros [= <-]. destruct (first_rejection_sound _ _ _ Hf) as (r & Hin & Hr & <-).
  apply list_elem_of_fmap in Hin as (p & -> & Hp).
  exists p. split_and!; [done..|]. intros p' e' Hp' Hr'.
  eapply first_rejection_earliest; [done| |done]. by apply (list_elem_of_fmap_2 (fun p : P A => p t)).
Qed.

(** One rejected branch is enough to reject the join. *)
Lemma all_rejects ps t p e :
  p ∈ ps -> outcome (p t) = Rejected e -> exists e', outcome (all ps t) = Rejected e'.
Proof.
  intros Hp Hr. unfold all, settle_all.
  destruct (first_rejection_complete ((fun p => p t) <$> ps) (p t) e) as [[e' te] Hf];
    [by apply (list_elem_of_fmap_2 (fun p : P A => p t))|done|].
  rewrite Hf. eauto.
Qed.

(** A join over a mapped list resolves when every branch does; [g]
    observes the values. *)
Lemma all_fmap_resolved {X C} (f : X -> P A) (l : list X) t (g : A -> C) (h : X -> C) :
  (forall x, x ∈ l -> exists v, outcome (f x t) = Resolved v /\ g v = h x) ->
  exists vs, outcome (all (f <$> l) t) = Resolved vs /\ g <$> vs = h <$> l.
Proof.
  induction l as [|x l IH]; intros Hl; [by exists []|].
  destruct (Hl x ltac:(by left)) as (v & Hv & Hg).
  destruct IH as (vs & Hvs & Hgs); [intros y Hy; apply Hl; by right|].
  exists (v :: vs). rewrite !fmap_cons, Hg, Hgs. split; [|done].
  apply all_resolved_iff. constructor; [done|].
  by apply all_resolved_iff.
Qed.

Lemma all_fmap_rejects {X} (f : X -> P A) (l : list X) t x e :
  x ∈ l -> outcome (f x t) = Rejected e -> exists e', outcome (all (f <$> l) t) = Rejected e'.
Proof. intros Hx He. eapply all_rejects; [|exact He]. by apply list_elem_of_fmap_2. Qed.

(** Every rejection of a join over a mapped list is a rejection of one
    of its branches. *)
Lemma all_fmap_rejected {X} (f : X -> P A) (l : list X) t e :
  outcome (all (f <$> l) t) = Rejected e -> exists x, x ∈ l /\ outcome (f x t) = Rejected e.
Proof.
  intros He. destruct (all_rejected _ _ _ He) as (p & Hp & Hr & _).
  apply list_elem_of_fmap in Hp as (x & -> & Hx). eauto.
Qed.

Lemma all_calls_elem ps t c : c ∈ calls (all ps t) <-> exists p, p ∈ ps /\ c ∈ calls (p t).
Proof.
  rewrite all_calls, list_elem_of_In, in_concat. split.
  - intros (cs & Hcs & Hc). apply list_elem_of_In, list_elem_of_fmap in Hcs as (p & -> & Hp).
    exists p. split; [done|]. by apply list_elem_of_In.
  - intros (p & Hp & Hc). exists (calls (p t)). split; [|by apply list_elem_of_In].
    apply list_elem_of_In. by apply (list_elem_of_fmap_2 (fun p : P A => calls (p t))).
Qed.

Lemma all_fmap_resolved_elem {X} (f : X -> P A) (l : list X) t vs v :
  outcome (all (f <$> l) t) = Resolved vs -> v ∈ vs ->
  exists x, x ∈ l /\ outcome (f x t) = Resolved v.
Proof.
  rewrite all_resolved_iff, Forall2_fmap_l. intros Hf. revert v.
  induction Hf as [|x v0 l vs Hx _ IH]; intros v Hv; [by inversion Hv|].
  apply elem_of_cons in Hv as [->|Hv]; [exists x; split; [left|]; done|].
  destruct (IH v Hv) as (y & ? & ?). exists y. split; [by right|done].
Qed.

Lemma all_fmap_calls_elem {X} (f : X -> P A) (l : list X) t c :
  c ∈ calls (all (f <$> l) t) <-> exists x, x ∈ l /\ c ∈ calls (f x t).
Proof.
  rewrite all_calls_elem. split.
  - intros (p & Hp & Hc). apply list_elem_of_fmap in Hp as (x & -> & Hx). eauto.
  - intros (x & Hx & Hc). exists (f x). split; [by apply list_elem_of_fmap_2|done].
Qed.

(** A join whose branches all resolve resolves. *)
Lemma all_resolves ps t :
  Forall (fun p => exists a, outcome (p t) = Resolved a) ps ->
  exists vs, outcome (all ps t) = Resolved vs.
Proof.
  setoid_rewrite all_resolved_iff. induction 1 as [|p ps [a Ha] _ [vs Hvs]]; [by exists []|].
  exists (a :: vs). by constructor.
Qed.

End AllContract.

(** [p.then(f)] settles as the reaction when [p] resolves, and as [p]
    otherwise. *)
Lemma then_resolved {A B} (p : P A) (f : A -> P B) t a :
  outcome (p t) = Resolved a -> outcome (then_ p f t) = outcome (f a (stime (p t))).
Proof. unfold then_. by intros ->. Qed.

Lemma then_rejected {A B} (p : P A) (f : A -> P B) t e :
  outcome (p t) = Rejected e -> outcome (then_ p f t) = Rejected e.
Proof. unfold then_. by intros ->. Qed.

Lemma then_pending {A B} (p : P A) (f : A -> P B) t :
  outcome (p t) = Pending -> outcome (then_ p f t) = Pending.
Proof. unfold then_. by intros ->. Qed.

(** The instant [p.then(f)] settles: that of the reaction, or of [p]. *)
Lemma then_stime_resolved {A B} (p : P A) (f : A -> P B) t a :
  outcome (p t) = Resolved a -> stime (then_ p f t) = stime (f a (stime (p t))).
Proof. unfold then_. by intros ->. Qed.

Lemma then_stime_rejected {A B} (p : P A) (f : A -> P B) t e :
  outcome (p t) = Rejected e -> stime (then_ p f t) = stime (p t).
Proof. unfold then_. by intros ->. Qed.

(** The calls of [p.then(f)]: those of [p], then those of the reaction
    when [p] resolves. *)
Lemma then_calls {A B} (p : P A) (f : A -> P B) t :
  calls (then_ p f t) =
  calls (p t) ++ match outcome (p t) with Resolved a => calls (f a (stime (p t))) | _ => [] end.
Proof. unfold then_. destruct (outcome (p t)); simpl; by rewrite ?app_nil_r. Qed.

(** ** The two-promise join *)

Section PromiseMap.
Context {A B : Type}.
Implicit Types (p : P A) (q : P B).

Lemma promiseMap2_resolved p q t a b :
  outcome (promiseMap2 p q t) = Resolved (a, b) <->
  outcome (p t) = Resolved a /\ outcome (q t) = Resolved b.
Proof.
  unfold promiseMap2. destruct (outcome (p t)), (outcome (q t)); simpl;
    repeat case_match; naive_solver.
Qed.

Lemma promiseMap2_rejected p q t e :
  outcome (promiseMap2 p q t) = Rejected e ->
  outcome (p t) = Rejected e \/ outcome (q t) = Rejected e.
Proof.
  unfold promiseMap2. set (s := settle_all t _).
  assert (Hs : outcome s = Rejected e -> outcome (p t) = Rejected e \/ outcome (q t) = Rejected e).
  { subst s. unfold settle_all. destruct (first_rejection _) as [[e0 te]|] eqn:Hf;
      [|by repeat case_match].
    simpl. intros [= <-]. destruct (first_rejection_sound _ _ _ Hf) as (r & Hin & Hr & _).
    repeat (apply elem_of_cons in Hin as [->|Hin]); [..|by inversion Hin];
      unfold erase in Hr; simpl in Hr; repeat case_match; simplify_eq; auto. }
  destruct (outcome (p t)), (outcome (q t)); simpl; try done; case_match; naive_solver.
Qed.

Lemma promiseMap2_rejects_l p q t e :
  outcome (p t) = Rejected e -> exists e', outcome (promiseMap2 p q t) = Rejected e'.
Proof.
  intros Hr. unfold promiseMap2, settle_all. rewrite Hr.
  destruct (first_rejection_complete [erase (p t); erase (q t)] (erase (p t)) e) as [[e' te] Hf];
    [by left|unfold erase; by rewrite Hr|].
  rewrite Hf. eauto.
Qed.

Lemma promiseMap2_rejects_r p q t e :
  outcome (q t) = Rejected e -> exists e', outcome (promiseMap2 p q t) = Rejected e'.
Proof.
  intros Hr. unfold promiseMap2, settle_all. rewrite Hr.
  destruct (first_rejection_complete [erase (p t); erase (q t)] (erase (q t)) e) as [[e' te] Hf];
    [by right; left|unfold erase; by rewrite Hr|].
  rewrite Hf. destruct (outcome (p t)); eauto.
Qed.

(** Both sides run to the end. *)
Lemma promiseMap2_calls p q t : calls (promiseMap2 p q t) = calls (p t) ++ calls (q t).
Proof. unfold promiseMap2, settle_all. simpl. rewrite app_nil_r. by repeat case_match. Qed.

End PromiseMap.

(** ** Every computation is timely *)

Section Timely.
Context `{Server}.

Lemma timely_resolve {A} (a : A) : timely (resolve a).
Proof. intros t. simpl. split_and!; [done|constructor|]. intros; split; [done|constructor]. Qed.

Lemma timely_reject {A} e : timely (@reject A e).
Proof. intros t. simpl. split_and!; [done|constructor|done]. Qed.

Lemma timely_uncaught {A} : timely (@uncaught A).
Proof. intros t. simpl. split_and!; [done|constructor|done]. Qed.

Lemma timely_request_post {A} rq (k : resp -> P A) :
  (forall r, timely (k r)) -> timely (request_post rq k).
Proof.
  intros Hk t. unfold request_post; simpl.
  destruct (Hk (respond rq) (t + S (latency rq))) as (H1 & H2 & H3).
  split_and!; [lia| |].
  - constructor; [simpl; lia|]. eapply Forall_impl; [exact H2|]. simpl; intros; lia.
  - intros a Ha. destruct (H3 a Ha) as [Hc Hf]. split; [done|].
    constructor; [unfold arrival; simpl; lia|done].
Qed.

Lemma timely_then {A B} (p : P A) (f : A -> P B) :
  timely p -> (forall a, timely (f a)) -> timely (then_ p f).
Proof.
  intros Hp Hf t. unfold then_. destruct (Hp t) as (Hp1 & Hp2 & Hp3).
  destruct (outcome (p t)) as [a|e|] eqn:Ho; simpl; [|split_and!; done..].
  destruct (Hf a (stime (p t))) as (Hf1 & Hf2 & Hf3). destruct (Hp3 a eq_refl) as [Hc Har].
  split_and!; [lia| |].
  - apply Forall_app; split; [done|]. eapply Forall_impl; [exact Hf2|]. simpl; intros; lia.
  - intros b Hb. destruct (Hf3 b Hb) as [Hc' Har']. rewrite Hc, Hc'. split; [done|].
    apply Forall_app; split; [|done]. eapply Forall_impl; [exact Har|]. simpl; intros; lia.
Qed.

Lemma timely_settle_all {A} t (rs : list (exec A)) :
  Forall (fun r => t <= stime r /\ Forall (fun c => t <= c.1) (calls r) /\
    (forall a, outcome r = Resolved a ->
       crash r = None /\ Forall (fun c => arrival c <= stime r) (calls r))) rs ->
  let s := settle_all t rs in
  t <= stime s /\ Forall (fun c => t <= c.1) (calls s) /\
  (forall a, outcome s = Resolved a ->
     crash s = None /\ Forall (fun c => arrival c <= stime s) (calls s)).
Proof.
  intros Hrs s.
  assert (Hcalls : Forall (fun c => t <= c.1) (concat (calls <$> rs))).
  { apply Forall_concat, Forall_fmap. eapply Forall_impl; [exact Hrs|]. naive_solver. }
  assert (Hmax : forall r, r ∈ rs -> stime r <= list_max (t :: (stime <$> rs))).
  { intros r Hr. apply list_max_upper, elem_of_cons. right. by apply list_elem_of_fmap_2. }
  rewrite Forall_forall in Hrs. subst s. unfold settle_all.
  destruct (first_rejection rs) as [[e te]|] eqn:Hf.
  - destruct (first_rejection_sound _ _ _ Hf) as (r & Hin & _ & <-). simpl.
    split_and!; [apply Hrs; done|done|done].
  - assert (Ht : t <= list_max (t :: (stime <$> rs))) by (apply list_max_upper; left).
    destruct (all_resolved rs) as [vs|] eqn:Hres; simpl; split_and!; [done|done| |done|done|done].
    intros _ _. split.
    + apply omin_list_None, Forall_fmap, Forall_forall. intros r Hin.
      destruct (all_resolved_each _ _ _ Hres Hin) as [a Ha].
      destruct (Hrs r Hin) as (_ & _ & Hr). symmetry. apply (Hr a Ha).
    + apply Forall_concat, Forall_fmap, Forall_forall. intros r Hin.
      destruct (all_resolved_each _ _ _ Hres Hin) as [a Ha].
      destruct (Hrs r Hin) as (_ & _ & Hr). destruct (Hr a Ha) as [_ Har].
      eapply Forall_impl; [exact Har|]. specialize (Hmax r Hin). simpl in *; intros; lia.
Qed.

Lemma timely_all {A} (ps : list (P A)) : Forall timely ps -> timely (all ps).
Proof.
  intros Hps t. apply timely_settle_all, Forall_fmap.
  eapply Forall_impl; [exact Hps|]. intros p Hp. apply Hp.
Qed.

Lemma timely_all_fmap {A B} (f : A -> P B) (l : list A) :
  (forall x, timely (f x)) -> timely (all (f <$> l)).
Proof. intros Hf. apply timely_all, Forall_fmap, Forall_forall. intros; apply Hf. Qed.

Lemma timely_promiseMap2 {A B} (p : P A) (q : P B) :
  timely p -> timely q -> timely (promiseMap2 p q).
Proof.
  intros Hp Hq t. unfold promiseMap2.
  destruct (timely_settle_all t [erase (p t); erase (q t)]) as (H1 & H2 & H3).
  { destruct (Hp t) as (Hp1 & Hp2 & Hp3), (Hq t) as (Hq1 & Hq2 & Hq3).
    repeat apply Forall_cons_2; [..|apply Forall_nil_2]; unfold erase; simpl;
      split_and!; try done; intros [] Ho; repeat case_match; simplify_eq; eauto. }
  simpl. split_and!; [done|done|]. intros [a b] Hab.
  apply H3 with (a := [tt; tt]).
  destruct (outcome (p t)) eqn:Ep, (outcome (q t)) eqn:Eq; simpl in Hab;
    try (repeat case_match; discriminate).
  unfold settle_all, erase; simpl. by rewrite Ep, Eq.
Qed.

Lemma timely_cb_let {A B} (o : option A) (k : A -> P B) :
  (forall a, timely (k a)) -> timely (cb_let o k).
Proof. intros Hk. destruct o; [apply Hk|apply timely_uncaught]. Qed.

Lemma timely_then_let {A B} (o : option A) e (k : A -> P B) :
  (forall a, timely (k a)) -> timely (then_let o e k).
Proof. intros Hk. destruct o; [apply Hk|apply timely_reject]. Qed.

End Timely.

#[export] Hint Resolve timely_resolve timely_reject timely_uncaught timely_request_post
  timely_then timely_all_fmap timely_promiseMap2 timely_cb_let timely_then_let : galaxy.

(** ** Settling

    A computation that never settles has crashed: the only way to leave
    a promise pending is an uncaught exception in its callback.  This
    is [settles], which every combinator preserves. *)

Definition settles {A} (p : P A) : Prop :=
  forall t, outcome (p t) = Pending -> is_Some (crash (p t)).

(** A join that neither rejects nor resolves has a pending branch. *)
Lemma all_pending {A} (rs : list (exec A)) :
  first_rejection rs = None -> all_resolved rs = None -> exists r, r ∈ rs /\ outcome r = Pending.
Proof.
  induction rs as [|r rs IH]; simpl; [done|].
  destruct (outcome r) eqn:Ho; intros Hf Hres.
  - destruct IH as (r' & ? & ?); [done|by destruct (all_resolved rs)|].
    exists r'. split; [by right|done].
  - revert Hf. by repeat case_match.
  - exists r. split; [by left|done].
Qed.

Lemma settle_all_crash {A} t (rs : list (exec A)) : crash (settle_all t rs) = omin_list (crash <$> rs).
Proof. unfold settle_all. by repeat case_match. Qed.

Section Settles.
Context `{Server}.

Lemma settles_resolve {A} (a : A) : settles (resolve a).
Proof. by intros t. Qed.

Lemma settles_reject {A} e : settles (@reject A e).
Proof. by intros t. Qed.

Lemma settles_uncaught {A} : settles (@uncaught A).
Proof. intros t _. by eexists. Qed.

Lemma settles_request_post {A} rq (k : resp -> P A) :
  (forall r, settles (k r)) -> settles (request_post rq k).
Proof. intros Hk t. apply Hk. Qed.

Lemma settles_then {A B} (p : P A) (f : A -> P B) :
  settles p -> (forall a, settles (f a)) -> settles (then_ p f).
Proof.
  intros Hp Hf t. unfold then_. destruct (outcome (p t)) as [a|e|] eqn:Ho; simpl; [|done|].
  - intros Hr. by apply omin_Some_r, Hf.
  - intros _. by apply Hp.
Qed.

Lemma settles_settle_all {A} t (rs : list (exec A)) :
  Forall (fun r => outcome r = Pending -> is_Some (crash r)) rs ->
  outcome (settle_all t rs) = Pending -> is_Some (crash (settle_all t rs)).
Proof.
  intros Hrs. rewrite settle_all_crash. unfold settle_all.
  destruct (first_rejection rs) as [[]|] eqn:Hf; [done|].
  destruct (all_resolved rs) eqn:Hres; [done|]. intros _.
  destruct (all_pending rs Hf Hres) as (r & Hr & Hp).
  apply (omin_list_Some _ (crash r)); [by apply list_elem_of_fmap_2|].
  by eapply Forall_forall in Hrs; [apply Hrs|].
Qed.

Lemma settles_all {A} (ps : list (P A)) : Forall settles ps -> settles (all ps).
Proof.
  intros Hps t. apply settles_settle_all, Forall_fmap.
  eapply Forall_impl; [exact Hps|]. intros p Hp. exact (Hp t).
Qed.

Lemma settles_all_fmap {A B} (f : A -> P B) (l : list A) :
  (forall x, settles (f x)) -> settles (all (f <$> l)).
Proof. intros Hf. apply settles_all, Forall_fmap, Forall_forall. intros; apply Hf. Qed.

Lemma settles_promiseMap2 {A B} (p : P A) (q : P B) :
  settles p -> settles q -> settles (promiseMap2 p q).
Proof.
  intros Hp Hq t. unfold promiseMap2. simpl. rewrite settle_all_crash. simpl.
  specialize (Hp t). specialize (Hq t).
  destruct (outcome (p t)) eqn:Ep, (outcome (q t)) eqn:Eq;
    unfold settle_all, erase; simpl; rewrite ?Ep, ?Eq; simpl; repeat case_match; intros; simplify_eq;
    first [apply omin_Some_l; by apply Hp | apply omin_Some_r, omin_Some_l; by apply Hq].
Qed.

Lemma settles_cb_let {A B} (o : option A) (k : A -> P B) :
  (forall a, settles (k a)) -> settles (cb_let o k).
Proof. intros Hk. destruct o; [apply Hk|apply settles_uncaught]. Qed.

Lemma settles_then_let {A B} (o : option A) e (k : A -> P B) :
  (forall a, settles (k a)) -> settles (then_let o e k).
Proof. intros Hk. destruct o; [apply Hk|apply settles_reject]. Qed.

End Settles.

#[export] Hint Resolve settles_resolve settles_reject settles_uncaught settles_request_post
  settles_then settles_all_fmap settles_promiseMap2 settles_cb_let settles_then_let : galaxy.

(** ** Invariants of computations

    [PInv I] packs the laws by which an invariant [I] of computations is
    preserved by the combinators.  [timely] and [settles] are instances:
    each component proves its invariant once, for every [I]. *)

Class PInv {H : Server} (I : forall A, P A -> Prop) : Prop := {
  inv_resolve {A} (a : A) : I A (resolve a);
  inv_reject {A} (e : reason) : I A (reject e);
  inv_uncaught {A} : I A uncaught;
  inv_request_post {A} rq (k : resp -> P A) : (forall r, I A (k r)) -> I A (request_post rq k);
  inv_then {A B} (p : P A) (f : A -> P B) : I A p -> (forall a, I B (f a)) -> I B (then_ p f);
  inv_all {A} (ps : list (P A)) : Forall (I A) ps -> I (list A) (all ps);
  inv_promiseMap2 {A B} (p : P A) (q : P B) : I A p -> I B q -> I (A * B)%type (promiseMap2 p q)
}.

#[export] Instance timely_pinv `{Server} : PInv (@timely _).
Proof.
  split; intros; eauto using timely_resolve, timely_reject, timely_uncaught, timely_request_post,
    timely_then, timely_all, timely_promiseMap2.
Qed.

#[export] Instance settles_pinv `{Server} : PInv (@settles).
Proof.
  split; intros; eauto using settles_resolve, settles_reject, settles_uncaught, settles_request_post,
    settles_then, settles_all, settles_promiseMap2.
Qed.

Section InvFacts.
Context `{Server} {I : forall A, P A -> Prop} `{!PInv I}.

Lemma inv_all_fmap {A B} (f : A -> P B) (l : list A) :
  (forall x, I B (f x)) -> I (list B) (all (f <$> l)).
Proof. intros Hf. apply inv_all, Forall_fmap, Forall_forall. intros; apply Hf. Qed.

Lemma inv_cb_let {A B} (o : option A) (k : A -> P B) :
  (forall a, I B (k a)) -> I B (cb_let o k).
Proof. intros Hk. destruct o; [apply Hk|apply inv_uncaught]. Qed.

Lemma inv_then_let {A B} (o : option A) e (k : A -> P B) :
  (forall a, I B (k a)) -> I B (then_let o e k).
Proof. intros Hk. destruct o; [apply Hk|apply inv_reject]. Qed.

End InvFacts.

#[export] Hint Resolve timely_pinv settles_pinv : galaxy.

(** [solve_inv] proves an invariant [I c] of a computation [c] built
    from the combinators, for an [I] with [PInv I], splitting on the
    tests of the component definitions it meets. *)
Ltac solve_inv :=
  repeat match goal with
  | |- forall _, _ => intros
  | |- _ _ (request_post _ _) => apply inv_request_post
  | |- _ _ (then_ _ _) => apply inv_then
  | |- _ _ (all (_ <$> _)) => apply inv_all_fmap
  | |- _ _ (promiseMap2 _ _) => apply inv_promiseMap2
  | |- _ _ (cb_let _ _) => apply inv_cb_let
  | |- _ _ (then_let _ _ _) => apply inv_then_let
  | |- _ _ (resolve _) => apply inv_resolve
  | |- _ _ (reject _) => apply inv_reject
  | |- _ _ uncaught => apply inv_uncaught
  | |- _ _ (if ?b then _ else _) => destruct b
  | |- _ _ (match ?x with _ => _ end) => destruct x
  | |- _ => solve [eauto with galaxy]
  end.

(** [case_reply] splits on every reply, JSON value and test of a call's
    callback once its definition is unfolded, and discards the
    contradictory branches. *)
Ltac case_reply :=
  repeat (case_match; simpl in * ); simplify_eq;
  try match goal with
      | H : ?b = true, H' : negb ?b = true |- _ => rewrite H in H'; discriminate
      end; try done.

(** ** A test server on which every call succeeds *)

Definition ok_reply (rq : Req) : resp :=
  match rq with
  | HttpPost url form =>
      if String.eqb url (PERSONA_ENDPOINT +:+ "/generate") then
        Body (Json (JObj [("assertion", JStr ("assert:" +:+ js_to_string (field "email" form)))]))
      else if String.eqb url (API_ENDPOINT +:+ "/user/login") then
        Body (Json (JObj [("token", JStr ("tok:" +:+ js_to_string (field "assertion" form)));
                          ("public", JObj [("id", JStr (js_to_string (field "assertion" form)));
                                           ("username", JStr "user")])]))
      else if String.eqb url (API_ENDPOINT +:+ "/game/submit") then
        Body (Json (JObj [("slug", JStr ("slug:" +:+ js_to_string (field "name" form)))]))
      else Body (Json (JObj [("success", JBool true)]))
  | FlushDb => Body (Json (JStr "OK"))
  end.

Definition ok_server : Server := {| respond := ok_reply; latency := fun _ => 1 |}.

(** The same server, except that the requests [bad] selects fail with
    [r]. *)
Definition faulty_server (bad : Req -> bool) (r : resp) : Server :=
  {| respond := fun rq => if bad rq then r else ok_reply rq; latency := fun _ => 1 |}.
