(* ===== verification/Lodash.v ===== *)
(** * lodash: [_.sample] behind an interface, and [_.defaults]

    The script calls [_.sample(users, Math.min(3, USER_COUNT))] and
    [_.sample(gameSlugs, 2)].  What it relies on is stated by the class
    [Sampler]: [sample l n] returns [min n (length l)] elements of [l]
    taken at distinct positions.  The client theorems ([Friends],
    [Purchases]) are proved against the class; the lodash 2.4 code
    ([shuffle], an inside-out Fisher-Yates shuffle, truncated to [n])
    is an instance of it.  [Math.random()] is a stream of draws.

    [_.defaults(game, default_params)] fills the keys of the defaults
    that the game leaves undefined; [defaults_field] is its law. *)

From S2P Require Import Prelude JsValue.

(** ** The interface *)

(** The draws of [Math.random()], consumed in order.  A draw is a
    natural number reduced modulo the width of the requested range, so
    every value [Math.random()] can give is represented; an exhausted
    stream draws 0. *)
Abbreviation rng := (list nat).

Class Sampler : Type := {
  sample : forall {A : Type}, list A -> nat -> rng -> list A * rng;
  sample_length : forall A (l : list A) n r, length (sample l n r).1 = n `min` length l;
  sample_sub : forall A (l : list A) n r, exists rest, (sample l n r).1 ++ rest ≡ₚ l
}.

(** ** lodash 2.4 *)

Module Lodash24.

(** [baseRandom(lower, upper)]. *)
Definition baseRandom (lower upper : nat) (r : rng) : nat * rng :=
  match r with
  | [] => (lower, [])
  | d :: r' => (lower + d mod S (upper - lower), r')
  end.

(** The loop of [shuffle]: [rand = baseRandom(0, ++index);
    result[index] = result[rand]; result[rand] = value;] where [index]
    is the length of the prefix [result] built so far.  When [rand] is
    [index], the first assignment writes the empty slot back to itself. *)
Fixpoint shuffle_go {A} (result : list A) (l : list A) (r : rng) : list A * rng :=
  match l with
  | [] => (result, r)
  | value :: l' =>
      let '(rand, r1) := baseRandom 0 (length result) r in
      let result' :=
        match result !! rand with
        | Some moved => <[rand := value]> (result ++ [moved])
        | None => result ++ [value]
        end in
      shuffle_go result' l' r1
  end.

Definition shuffle {A} (l : list A) (r : rng) : list A * rng := shuffle_go [] l r.

(** [sample(collection, n)]: [result = shuffle(collection);
    result.length = min(max(0, n), result.length)]. *)
Definition sample {A} (l : list A) (n : nat) (r : rng) : list A * rng :=
  let '(result, r') := shuffle l r in (take n result, r').

End Lodash24.

(** ** [_.defaults] *)

(** [_.defaults(object, source)] (lodash 2.4): for each own key of
    [source] in order, [if (typeof result[key] == 'undefined')
    result[key] = source[key]]; the object is updated in place. *)
Fixpoint defaults (object source : jsobj) : jsobj :=
  match source with
  | [] => object
  | (k, v) :: source' =>
      defaults (if is_undef (field k object) then obj_set k v object else object) source'
  end.

(** ** The lodash 2.4 sampler meets the interface *)

Module Lodash24Facts.
Import Lodash24.

Lemma swap_in_perm {A} (result : list A) i moved value :
  result !! i = Some moved -> <[i := value]> (result ++ [moved]) ≡ₚ value :: result.
Proof.
  intros Hi. pose proof (lookup_lt_Some _ _ _ Hi) as Hlt.
  rewrite insert_app_l, insert_take_drop by done.
  trans (value :: (take i result ++ moved :: drop (S i) result));
    [|by rewrite take_drop_middle].
  rewrite <- app_assoc. etrans; [apply Permutation_sym, Permutation_middle|]. constructor.
  apply Permutation_app_head. symmetry. apply Permutation_cons_append.
Qed.

Lemma shuffle_go_perm {A} (result l : list A) r : (shuffle_go result l r).1 ≡ₚ result ++ l.
Proof.
  revert result r. induction l as [|value l IH]; intros result r; simpl.
  - by rewrite app_nil_r.
  - destruct (baseRandom 0 (length result) r) as [rand r1]. rewrite IH.
    destruct (result !! rand) as [moved|] eqn:Hm.
    + rewrite swap_in_perm by done. solve_Permutation.
    + by rewrite <- app_assoc.
Qed.

Lemma sample_perm {A} (l : list A) n r :
  exists rest, (Lodash24.sample l n r).1 ++ rest ≡ₚ l.
Proof.
  unfold Lodash24.sample, shuffle. pose proof (shuffle_go_perm [] l r) as Hp.
  destruct (shuffle_go [] l r) as [result r']. simpl in *.
  exists (drop n result). by rewrite take_drop.
Qed.

Lemma sample_length {A} (l : list A) n r : length (Lodash24.sample l n r).1 = n `min` length l.
Proof.
  unfold Lodash24.sample, shuffle. pose proof (shuffle_go_perm [] l r) as Hp.
  destruct (shuffle_go [] l r) as [result r']. simpl in *.
  by rewrite length_take, Hp.
Qed.

End Lodash24Facts.

#[export] Instance lodash24_sampler : Sampler := {|
  sample := @Lodash24.sample;
  sample_length := @Lodash24Facts.sample_length;
  sample_sub := @Lodash24Facts.sample_perm
|}.

(** ** Consequences of the interface *)

Section SamplerFacts.
Context `{Sampler}.

Lemma sample_NoDup {A} (l : list A) n r : NoDup l -> NoDup (sample l n r).1.
Proof.
  intros Hl. destruct (sample_sub A l n r) as [rest Hp].
  rewrite <- Hp in Hl. by apply NoDup_app in Hl as [? _].
Qed.

Lemma sample_elem {A} (l : list A) n r x : x ∈ (sample l n r).1 -> x ∈ l.
Proof.
  intros Hx. destruct (sample_sub A l n r) as [rest Hp].
  rewrite <- Hp. apply elem_of_app. by left.
Qed.

End SamplerFacts.

(** ** The law of [_.defaults] *)

Lemma defaults_notin k o src : k ∉ src.*1 -> field k (defaults o src) = field k o.
Proof.
  revert o. induction src as [|[k' v] src IH]; intros o Hk; simpl; [done|].
  rewrite fmap_cons, elem_of_cons in Hk. rewrite IH by naive_solver.
  case_match; [|done]. autorewrite with galaxy_rw.
  destruct (String.eqb_spec k' k); naive_solver.
Qed.

(** A field the object defines is kept; a field it leaves undefined
    takes the value of the defaults. *)
Lemma defaults_field k o src :
  NoDup src.*1 ->
  field k (defaults o src) = if is_undef (field k o) then field k src else field k o.
Proof.
  revert o. induction src as [|[k' v] src IH]; intros o Hnd; simpl.
  - by destruct (is_undef (field k o)) eqn:Hu; [destruct (field k o)|].
  - rewrite fmap_cons in Hnd. apply NoDup_cons in Hnd as [Hk' Hnd].
    rewrite field_cons. destruct (String.eqb_spec k' k) as [<-|Hne].
    + rewrite defaults_notin by done.
      destruct (is_undef (field k' o)) eqn:Hu; [|done].
      autorewrite with galaxy_rw. by rewrite String.eqb_refl.
    + rewrite IH by done. destruct (is_undef (field k' o)); [|done].
      autorewrite with galaxy_rw. destruct (String.eqb_spec k' k); [congruence|done].
Qed.

(** ** The keys of [_.defaults] *)

Lemma obj_set_keys_elem k v o k' : k' ∈ (obj_set k v o).*1 <-> k' = k \/ k' ∈ o.*1.
Proof.
  induction o as [|[k0 v0] o IH]; simpl;
    [rewrite list_elem_of_singleton, elem_of_nil; naive_solver|].
  destruct (String.eqb_spec k0 k) as [->|]; simpl; rewrite ?fmap_cons, ?elem_of_cons, ?IH;
    naive_solver.
Qed.

Lemma obj_set_NoDup k v o : NoDup o.*1 -> NoDup (obj_set k v o).*1.
Proof.
  induction o as [|[k0 v0] o IH]; simpl; intros Hnd; [apply NoDup_singleton|].
  apply NoDup_cons in Hnd as [Hk0 Hnd].
  destruct (String.eqb_spec k0 k) as [->|Hne]; simpl; constructor; auto.
  rewrite obj_set_keys_elem. naive_solver.
Qed.

(** The merged object has the keys of both objects, each once. *)
Lemma defaults_keys o src k : k ∈ (defaults o src).*1 <-> k ∈ o.*1 \/ k ∈ src.*1.
Proof.
  revert o. induction src as [|[k' v] src IH]; intros o; simpl; [rewrite elem_of_nil; naive_solver|].
  rewrite IH, elem_of_cons. case_match; [rewrite obj_set_keys_elem; naive_solver|].
  split; [naive_solver|]. intros [?|[->|?]]; auto. left.
  destruct (decide (k' ∈ o.*1)) as [|Hn]; [done|]. by rewrite field_notin in *.
Qed.

Lemma defaults_NoDup o src : NoDup o.*1 -> NoDup (defaults o src).*1.
Proof.
  revert o. induction src as [|[k' v] src IH]; intros o Hnd; simpl; [done|].
  apply IH. case_match; [by apply obj_set_NoDup|done].
Qed.

(** Writing back the value a key already has changes nothing. *)
Lemma obj_set_field_same k o : k ∈ o.*1 -> obj_set k (field k o) o = o.
Proof.
  induction o as [|[k0 v0] o IH]; simpl; [by rewrite elem_of_nil|].
  rewrite elem_of_cons, field_cons. destruct (String.eqb_spec k0 k) as [->|Hne]; [done|].
  intros [->|Hk]; [done|]. by rewrite IH.
Qed.

(** Merging the same defaults twice is merging them once: the object
    [_.defaults] mutates in place can be merged again without effect. *)
Lemma defaults_idem o src : NoDup src.*1 -> defaults (defaults o src) src = defaults o src.
Proof.
  revert o. induction src as [|[k v] src IH]; intros o Hnd; simpl; [done|].
  apply NoDup_cons in Hnd as [Hk Hnd].
  set (o' := if is_undef (field k o) then obj_set k v o else o).
  transitivity (defaults (defaults o' src) src); [f_equal|by apply IH].
  assert (Hf : field k (defaults o' src) = field k o') by (by apply defaults_notin).
  destruct (is_undef (field k (defaults o' src))) eqn:Hu; [|done].
  rewrite Hf in Hu. unfold o' in Hu, Hf |- *. destruct (is_undef (field k o)) eqn:Ho.
  - rewrite field_obj_set, String.eqb_refl in Hu. destruct v; try done.
    etransitivity; [|apply obj_set_field_same; rewrite defaults_keys, obj_set_keys_elem; auto].
    f_equal. by rewrite Hf, field_obj_set, String.eqb_refl.
  - by rewrite Hu in Ho.
Qed.
