(* ===== verification/Games.v ===== *)
(** * Stage 1b: the game catalog ([createGames] of db-prefill.js)

    Every entry of [FAKE_GAMES] is merged with [default_params] by
    [_.defaults] and submitted; each reply body is parsed by
    [.then(JSON.parse)]; the submissions are joined.

    The theorems: the form submitted for an entry keeps every field the
    entry defines and takes the default only for the others (icons 128,
    screenshots yes); all entries are submitted at once; every reply
    parsed gives one record per entry, in order; a reply that is not
    JSON rejects the stage (here the parse runs in a reaction, unlike
    the parses of [Users] and [Friends]). *)

From S2P Require Import Prelude JsValue Promise Lodash.
Local Open Scope galaxy_scope.

(** The catalog of the script. *)
Definition FAKE_GAMES : list jsobj :=
  [ [("name", JStr "Mario Broskis"); ("app_url", JStr "http://mario.broskis")];
    [("name", JStr "Halo 718"); ("app_url", JStr "http://halo.com")];
    [("name", JStr "Left 5 Dead"); ("app_url", JStr "http://dead.left")] ].

Definition default_params : jsobj := [("icons", JStr "128"); ("screenshots", JStr "yes")].

Section Games.
Context `{Server}.

Definition game_submit_req (form : jsobj) : Req :=
  HttpPost (API_ENDPOINT +:+ "/game/submit") form.

(** The promise pushed for one game, posting [form]:
    [new Promise(... request.post({form: form}, ...)).then(JSON.parse)] *)
Definition submitForm (form : jsobj) : P jsval :=
  then_
    (request_post (game_submit_req form) (fun r =>
       match r with
       | TransportError => reject RTransport
       | Body body => resolve body
       end))
    (fun body => let? json := JSON_parse body or RSyntaxError in resolve json).

(** The form is [_.defaults(game, default_params)]. *)
Definition submitGame (game : jsobj) : P jsval :=
  submitForm (defaults game default_params).

Definition createGames (games : list jsobj) : P (list jsval) :=
  all (submitGame <$> games).

End Games.

Definition is_submit (rq : Req) : bool :=
  bool_decide (req_url rq = Some (API_ENDPOINT +:+ "/game/submit")).

(** ** Facts *)

Section GameFacts.
Context `{Server}.

Lemma submitGame_calls g t :
  calls (submitGame g t) = [(t, game_submit_req (defaults g default_params))].
Proof. unfold submitGame, submitForm, then_, request_post, then_let. by repeat case_match; simpl. Qed.

(** A submission answered with JSON resolves with the parsed reply. *)
Lemma submitGame_json g t v :
  respond (game_submit_req (defaults g default_params)) = Body (Json v) ->
  outcome (submitGame g t) = Resolved v.
Proof. unfold submitGame, submitForm, then_, request_post. by intros ->. Qed.


(** [createGames] issues submissions only. *)
(** Every request of the stage submits an entry of the catalog, merged
    with the defaults. *)
Lemma createGames_calls_built games t :
  Forall (fun c => exists g, g ∈ games /\ c.2 = game_submit_req (defaults g default_params))
    (calls (createGames games t)).
Proof.
  apply Forall_forall. intros c Hc. apply all_fmap_calls_elem in Hc as (g & Hg & Hc).
  rewrite submitGame_calls, list_elem_of_singleton in Hc. subst c. eauto.
Qed.

Lemma createGames_calls_kind games t :
  Forall (fun c => is_submit c.2 = true) (calls (createGames games t)).
Proof. eapply Forall_impl; [apply createGames_calls_built|]. by intros c (? & _ & ->). Qed.

End GameFacts.

Section GameInv.
Context `{Server} {I : forall A, P A -> Prop} `{!PInv I}.

Lemma createGames_inv games : I _ (createGames games).
Proof. unfold createGames, submitGame, submitForm. solve_inv. Qed.

End GameInv.

#[export] Hint Extern 2 => simple apply createGames_inv : galaxy.

Section GameTheorems.
Context `{Server}.

(** C19: [createGames] submits every catalog
    entry, at the instant it starts, with a form in which a field the
    entry defines keeps the entry's value and a field it leaves
    undefined takes the default ([icons] 128, [screenshots] yes). *)
Theorem createGames_defaults games g t k :
  g ∈ games ->
  (t, game_submit_req (defaults g default_params)) ∈ calls (createGames games t) /\
  field k (defaults g default_params) =
    if is_undef (field k g) then field k default_params else field k g.
Proof.
  intros Hg. split.
  - apply all_fmap_calls_elem. exists g. split; [done|]. rewrite submitGame_calls. by left.
  - apply defaults_field. repeat constructor; rewrite ?elem_of_cons, ?elem_of_nil; naive_solver.
Qed.

(** C29: When every submission is answered with
    JSON, [createGames] resolves with the parsed replies, one per entry,
    in catalog order. *)
Theorem createGames_resolves games t :
  (forall form, exists v, respond (game_submit_req form) = Body (Json v)) ->
  outcome (createGames games t) =
    Resolved ((fun g => match respond (game_submit_req (defaults g default_params)) with
                        | Body (Json v) => v
                        | _ => JUndef
                        end) <$> games).
Proof.
  intros Hok.
  destruct (all_fmap_resolved submitGame games t Datatypes.id
              (fun g => match respond (game_submit_req (defaults g default_params)) with
                        | Body (Json v) => v
                        | _ => JUndef
                        end)) as (vs & Hvs & Heq).
  { intros g _. destruct (Hok (defaults g default_params)) as [v Hv].
    exists v. rewrite (submitGame_json _ _ _ Hv), Hv. done. }
  rewrite list_fmap_id in Heq. by subst vs.
Qed.

(** C30: A submission answered with a
    body that is not JSON makes [createGames] reject with a
    SyntaxError, once every earlier rejection is accounted for: the
    stage rejects, and never crashes, since [JSON.parse] runs inside
    [.then]. *)
Theorem createGames_not_json_rejects games g t text :
  g ∈ games -> respond (game_submit_req (defaults g default_params)) = Body (NotJson text) ->
  exists e, outcome (createGames games t) = Rejected e /\ crash (createGames games t) = None.
Proof.
  intros Hg Hr.
  assert (Hrej : outcome (submitGame g t) = Rejected RSyntaxError).
  { unfold submitGame, submitForm, then_, request_post. rewrite Hr. done. }
  destruct (all_fmap_rejects _ _ _ _ _ Hg Hrej) as [e He]. exists e. split; [done|].
  unfold createGames. rewrite all_crash. apply omin_list_None, Forall_fmap, Forall_forall.
  intros p Hp. apply list_elem_of_fmap in Hp as (g' & -> & _).
  unfold compose, submitGame, submitForm, then_, request_post, then_let. repeat (case_match; simpl in * ); done.
Qed.

End GameTheorems.

(** The example of the specification: an entry that sets [icons] to 64. *)
Definition icon64_game : jsobj :=
  [("name", JStr "Tiny"); ("app_url", JStr "http://tiny.game"); ("icons", JStr "64")].

Lemma createGames_defaults_witness :
  ((0, game_submit_req (defaults icon64_game default_params)) ∈
     calls (@createGames ok_server [icon64_game] 0) /\
   field "icons" (defaults icon64_game default_params) =
     if is_undef (field "icons" icon64_game) then field "icons" default_params
     else field "icons" icon64_game) /\
  field "icons" (defaults icon64_game default_params) = JStr "64" /\
  field "screenshots" (defaults icon64_game default_params) = JStr "yes".
Proof.
  split; [|split; reflexivity].
  apply (@createGames_defaults ok_server [icon64_game] icon64_game 0 "icons").
  apply list_elem_of_lookup_2 with 0. reflexivity.
Defined.

Lemma createGames_resolves_witness :
  outcome (@createGames ok_server FAKE_GAMES 0) =
    Resolved ((fun g => match ok_reply (game_submit_req (defaults g default_params)) with
                        | Body (Json v) => v
                        | _ => JUndef
                        end) <$> FAKE_GAMES).
Proof. apply (@createGames_resolves ok_server FAKE_GAMES 0). intros form. eexists. reflexivity. Defined.

Lemma createGames_not_json_rejects_witness :
  let srv := faulty_server is_submit (Body (NotJson "<html>")) in
  exists e, outcome (@createGames srv FAKE_GAMES 0) = Rejected e /\ crash (@createGames srv FAKE_GAMES 0) = None.
Proof.
  intros srv. apply (@createGames_not_json_rejects srv FAKE_GAMES
                       [("name", JStr "Mario Broskis"); ("app_url", JStr "http://mario.broskis")] 0 "<html>").
  - apply list_elem_of_lookup_2 with 0. reflexivity.
  - reflexivity.
Defined.
