(* ===== verification/Users.v ===== *)
(** * Stage 1a: synthetic users ([createUsers] of db-prefill.js)

    [createUser(email)] asks the assertion generator for an assertion,
    [login] exchanges it for a galaxy session, and [createUsers] chains
    the two for every index below [USER_COUNT] and joins them all.

    The theorems: when every reply is well formed, [createUsers n]
    resolves with [n] users whose e-mails are [test0@test.com] ...
    in order, hence pairwise distinct; every generate request is issued
    whatever happens to the others; one failing user rejects the whole
    batch, with one of the three messages of the code; and a reply that
    is not JSON, or a login reply without [public], is not a rejection
    but an uncaught exception in the callback, which kills the process. *)

From S2P Require Import Prelude JsValue Promise.
Local Open Scope galaxy_scope.

Record EmailAssertion : Type := {
  ea_email : string;
  ea_assertion : jsval
}.

Record User : Type := {
  email : string;
  token : jsval;
  username : jsval;
  id : jsval
}.

Section Users.
Context `{Server}.

(** ['test' + i + '@test.com'] *)
Definition test_email (i : nat) : string := ("test" +:+ pretty i) +:+ "@test.com".

Definition generate_req (email : string) : Req :=
  HttpPost (PERSONA_ENDPOINT +:+ "/generate") [("email", JStr email)].

Definition createUser (email : string) : P EmailAssertion :=
  request_post (generate_req email) (fun r =>
    match r with
    | TransportError => reject (RVal (JStr "Connection to assertion generator failed"))
    | Body body =>
        let! json_resp := JSON_parse body in
        let! assertion := getp json_resp "assertion" in
        resolve {| ea_email := email; ea_assertion := assertion |}
    end).

Definition login_req (assertion : jsval) : Req :=
  HttpPost (API_ENDPOINT +:+ "/user/login")
    [("assertion", assertion); ("audience", JStr API_ENDPOINT)].

Definition login (emailAssertion : EmailAssertion) : P User :=
  let email := ea_email emailAssertion in
  let assertion := ea_assertion emailAssertion in
  request_post (login_req assertion) (fun r =>
    match r with
    | TransportError => reject (RVal (JStr "Galaxy login failed."))
    | Body body =>
        let! json_resp := JSON_parse body in
        let! error := getp json_resp "error" in
        if truthy error then
          reject (RVal (JStr ("Galaxy login failed: " +:+ js_to_string error)))
        else
          let! token := getp json_resp "token" in
          let! public := getp json_resp "public" in
          let! username := getp public "username" in
          let! id := getp public "id" in
          resolve {| email := email; token := token; username := username; id := id |}
    end).

(** [for (i = 0; i < USER_COUNT; i++) promises.push(createUser(...).then(login));
    return Promise.all(promises);] *)
Definition createUsers (USER_COUNT : nat) : P (list User) :=
  all ((fun i => then_ (createUser (test_email i)) login) <$> seq 0 USER_COUNT).

(** ** Well-formed replies *)

(** A generate reply the callback reads without throwing. *)
Definition generate_ok (r : resp) : bool :=
  match r with
  | Body (Json v) => bool_decide (is_Some (getp v "assertion"))
  | _ => false
  end.

(** A successful login reply: JSON, no truthy [error], and a [public]
    object. *)
Definition login_ok (r : resp) : bool :=
  match r with
  | Body (Json v) =>
      match getp v "error", getp v "public" with
      | Some err, Some pub => negb (truthy err) && bool_decide (is_Some (getp pub "username"))
      | _, _ => false
      end
  | _ => false
  end.

(** The three messages a user creation rejects with. *)
Definition user_reason (e : reason) : Prop :=
  e = RVal (JStr "Connection to assertion generator failed") \/
  e = RVal (JStr "Galaxy login failed.") \/
  exists err, e = RVal (JStr ("Galaxy login failed: " +:+ js_to_string err)).

End Users.

Definition is_generate (rq : Req) : bool :=
  bool_decide (req_url rq = Some (PERSONA_ENDPOINT +:+ "/generate")).

Definition is_login (rq : Req) : bool :=
  bool_decide (req_url rq = Some (API_ENDPOINT +:+ "/user/login")).

Definition is_generate_for (e : string) (rq : Req) : bool :=
  match rq with
  | HttpPost url form => is_generate rq && js_eq_str (field "email" form) e
  | FlushDb => false
  end.

Definition is_login_for (assertion : string) (rq : Req) : bool :=
  match rq with
  | HttpPost url form =>
      bool_decide (url = API_ENDPOINT +:+ "/user/login") && js_eq_str (field "assertion" form) assertion
  | FlushDb => false
  end.

(** ** Facts *)

(** Distinct indices give distinct e-mails. *)
#[export] Instance test_email_inj : Inj eq eq test_email.
Proof.
  intros i j Hij. unfold test_email in Hij.
  apply (inj (fun x => x +:+ "@test.com")), (inj (String.append "test")), (inj pretty) in Hij.
  done.
Qed.

Section UserFacts.
Context `{Server}.


(** One user: generate, then login. *)
Lemma user_resolves e t :
  generate_ok (respond (generate_req e)) = true ->
  (forall a, login_ok (respond (login_req a)) = true) ->
  exists u, outcome (then_ (createUser e) login t) = Resolved u /\ email u = e.
Proof.
  intros Hg Hl. unfold then_, createUser, request_post.
  destruct (respond (generate_req e)) as [|[v|]]; try done. simpl in Hg |- *.
  apply bool_decide_eq_true in Hg as [a Ha]. rewrite Ha. simpl.
  unfold login, request_post. specialize (Hl a). simpl.
  destruct (respond (login_req a)) as [|[w|]]; try done. simpl in Hl |- *.
  destruct (getp w "error") as [err|], (getp w "public") as [pub|] eqn:Hpub; try done.
  unfold cb_let. destruct (truthy err); [done|]. apply bool_decide_eq_true in Hl as [un Hun].
  destruct (getp_defined w "public" "token") as [tk ->]; [by rewrite Hpub|].
  destruct (getp_defined pub "username" "id") as [i ->]; [by rewrite Hun|].
  rewrite Hun. simpl. eauto.
Qed.

Lemma user_rejected_reason e t err :
  outcome (then_ (createUser e) login t) = Rejected err -> user_reason err.
Proof.
  unfold then_, createUser, login, request_post, cb_let, user_reason. intros Hr.
  repeat (case_match; simpl in * ); simplify_eq; eauto.
Qed.

Lemma user_calls e t :
  exists rest, calls (then_ (createUser e) login t) = (t, generate_req e) :: rest /\
    Forall (fun c => exists a, c.2 = login_req a) rest.
Proof.
  unfold then_, createUser, login, request_post, cb_let.
  repeat case_match; simpl; eexists; (split; [done|]); repeat econstructor.
Qed.

(** [createUsers] issues, for an index [i < n], the generate request of
    [test_email i], and login requests. *)
Lemma createUsers_calls_built n t :
  Forall (fun c => (exists i, i < n /\ c.2 = generate_req (test_email i)) \/
                   (exists a, c.2 = login_req a)) (calls (createUsers n t)).
Proof.
  unfold createUsers. rewrite all_calls. apply Forall_concat, Forall_fmap, Forall_forall.
  intros p Hp. apply list_elem_of_fmap in Hp as (i & -> & Hi%elem_of_seq). unfold compose.
  destruct (user_calls (test_email i) t) as (rest & -> & Hrest).
  constructor; [left; exists i; split; [lia|done]|].
  eapply Forall_impl; [exact Hrest|]. naive_solver.
Qed.

(** [createUsers] issues generate and login requests only. *)
Lemma createUsers_calls_kind n t :
  Forall (fun c => is_generate c.2 || is_login c.2 = true) (calls (createUsers n t)).
Proof.
  eapply Forall_impl; [apply createUsers_calls_built|]. by intros c [(? & _ & ->)|(? & ->)].
Qed.

End UserFacts.

Section UserTheorems.
Context `{Server}.

Lemma createUsers_rejects_if n t i e :
  i < n -> outcome (then_ (createUser (test_email i)) login t) = Rejected e ->
  exists e', outcome (createUsers n t) = Rejected e' /\ user_reason e'.
Proof.
  intros Hi He.
  destruct (all_fmap_rejects (fun i => then_ (createUser (test_email i)) login) (seq 0 n) t i e)
    as [e' He']; [apply elem_of_seq; lia|done|].
  exists e'. split; [done|].
  destruct (all_fmap_rejected _ _ _ _ He') as (j & _ & Hj). by eapply user_rejected_reason.
Qed.

(** C3: When every reply of the assertion
    generator and of the login endpoint is well formed, [createUsers n]
    resolves with exactly [n] sessions, one per index, whose e-mails are
    [test0@test.com], ..., [test(n-1)@test.com] in order, hence pairwise
    distinct. *)
Theorem createUsers_exact n t :
  (forall e, generate_ok (respond (generate_req e)) = true) ->
  (forall a, login_ok (respond (login_req a)) = true) ->
  exists us, outcome (createUsers n t) = Resolved us /\ email <$> us = test_email <$> seq 0 n /\
             length us = n /\ NoDup (email <$> us).
Proof.
  intros Hg Hl.
  destruct (all_fmap_resolved (fun i => then_ (createUser (test_email i)) login) (seq 0 n) t email test_email)
    as (us & Hus & Hem);
    [intros i _; by apply user_resolves|].
  exists us. split_and!; [done|done| |].
  - rewrite <- (length_fmap email us), Hem, length_fmap. apply length_seq.
  - rewrite Hem. apply NoDup_fmap_2; [apply _|apply NoDup_seq].
Qed.

(** C20: Whatever the replies, [createUsers n]
    issues one generate request per index, all at the instant it starts,
    in index order: a failing user cancels none of the others. *)
Theorem createUsers_fan_out n t :
  List.filter (fun c => is_generate c.2) (calls (createUsers n t)) =
  (fun i => (t, generate_req (test_email i))) <$> seq 0 n.
Proof.
  unfold createUsers. rewrite all_calls. generalize (seq 0 n) as l.
  induction l as [|i l IH]; [done|]. rewrite !fmap_cons. simpl.
  destruct (user_calls (test_email i) t) as (rest & -> & Hrest).
  rewrite List.filter_app. simpl. replace (is_generate (generate_req (test_email i))) with true
    by (unfold is_generate; by rewrite bool_decide_true).
  rewrite (filter_all_false _ rest), IH; [done|].
  eapply Forall_impl; [exact Hrest|]. intros c [a ->]. done.
Qed.

Lemma createUsers_generate_fails n t i :
  i < n -> respond (generate_req (test_email i)) = TransportError ->
  exists e, outcome (createUsers n t) = Rejected e /\ user_reason e.
Proof.
  intros Hi Hr. eapply createUsers_rejects_if; [done|].
  unfold then_, createUser, request_post. rewrite Hr. done.
Qed.

Lemma createUsers_login_fails n t i v a :
  i < n -> respond (generate_req (test_email i)) = Body (Json v) ->
  getp v "assertion" = Some a -> respond (login_req a) = TransportError ->
  exists e, outcome (createUsers n t) = Rejected e /\ user_reason e.
Proof.
  intros Hi Hg Ha Hl. eapply createUsers_rejects_if; [done|].
  unfold then_, createUser, login, request_post. rewrite Hg. simpl. rewrite Ha. simpl.
  rewrite Hl. done.
Qed.

(** C21: If one user's call fails at the transport level,
    either its request to the assertion generator or, once its assertion
    arrived, its login, then [createUsers] rejects the whole batch, with
    one of the three messages of user creation. *)
Theorem createUsers_transport_fails n t i :
  i < n ->
  respond (generate_req (test_email i)) = TransportError \/
  (exists v a, respond (generate_req (test_email i)) = Body (Json v) /\
               getp v "assertion" = Some a /\ respond (login_req a) = TransportError) ->
  exists e, outcome (createUsers n t) = Rejected e /\ user_reason e.
Proof.
  intros Hi [Hg|(v & a & Hg & Ha & Hl)].
  - by apply (createUsers_generate_fails n t i).
  - by apply (createUsers_login_fails n t i v a).
Qed.

(** C31: A login reply with no [error] and no
    [public] field does not reject: reading [json_resp.public.username]
    throws inside the request callback, the promise never settles and
    the process dies when the reply arrives. *)
Theorem login_no_public_crashes ea t fs :
  respond (login_req (ea_assertion ea)) = Body (Json (JObj fs)) ->
  field "error" fs = JUndef -> field "public" fs = JUndef ->
  outcome (login ea t) = Pending /\
  crash (login ea t) = Some (t + S (latency (login_req (ea_assertion ea)))).
Proof.
  intros Hr He Hp. unfold login, request_post, cb_let. rewrite Hr. simpl.
  rewrite He, Hp. done.
Qed.

End UserTheorems.

Section UserInv.
Context `{Server} {I : forall A, P A -> Prop} `{!PInv I}.

Lemma createUsers_inv n : I _ (createUsers n).
Proof. unfold createUsers, createUser, login. solve_inv. Qed.

End UserInv.

#[export] Hint Extern 2 => simple apply createUsers_inv : galaxy.

Lemma createUsers_exact_witness :
  exists us, outcome (@createUsers ok_server 3 0) = Resolved us /\
             email <$> us = test_email <$> seq 0 3 /\ length us = 3 /\ NoDup (email <$> us).
Proof. apply (@createUsers_exact ok_server); reflexivity. Defined.

(** The end-to-end failure of the specification: the login of the 5th of
    100 users cannot reach the server. *)
Lemma createUsers_transport_fails_witness :
  exists e, outcome (@createUsers (faulty_server (is_login_for "assert:test4@test.com") TransportError) 100 0)
              = Rejected e /\ user_reason e.
Proof.
  apply (@createUsers_transport_fails (faulty_server (is_login_for "assert:test4@test.com") TransportError)
           100 0 4); [lia|]. right. do 2 eexists. split_and!; reflexivity.
Defined.

Lemma login_no_public_crashes_witness :
  let srv := faulty_server (is_login_for "a") (Body (Json (JObj [("token", JStr "t")]))) in
  outcome (@login srv {| ea_email := "e"; ea_assertion := JStr "a" |} 0) = Pending /\
  crash (@login srv {| ea_email := "e"; ea_assertion := JStr "a" |} 0) = Some 2.
Proof.
  intros srv. apply (@login_no_public_crashes srv _ 0 [("token", JStr "t")]); reflexivity.
Defined.
