(* ===== verification/Friends.v ===== *)
(** * Stage 2a: the friend graph ([createFriends] of db-prefill.js)

    Each user samples [min(3, USER_COUNT)] peers ([sendRequests]; itself
    included possibly), sends each a friend request ([sendRequest]), and
    once all its requests settled, accepts each request that went
    through, authenticated as the recipient ([acceptRequest]).  The error
    codes [already_friends] and [already_requested] of a request are
    benign: the request resolves to the empty object [{}], for which
    [acceptRequest] issues no call.  All users run concurrently and their
    results are flattened.

    The theorems: the benign conflict and the fatal error code on one
    edge, the role reversal of the accept call, the number of requests
    the stage issues, and the order of each request and its accept. *)

From S2P Require Import Prelude JsValue Promise Lodash Users.
Local Open Scope galaxy_scope.

(** A friend request as the script passes it around: [{}] (both fields
    absent) after a benign conflict, [{user, recipient}] otherwise. *)
Record FriendRequest : Type := {
  fr_user : option User;
  fr_recipient : option User
}.

Definition no_request : FriendRequest := {| fr_user := None; fr_recipient := None |}.

Section Friends.
Context `{Server} `{Sampler}.

Definition friend_request_req (user recipient : User) : Req :=
  HttpPost (API_ENDPOINT +:+ "/user/friends/request")
    [("_user", token user); ("recipient", id recipient)].

Definition sendRequest (user recipient : User) : P FriendRequest :=
  request_post (friend_request_req user recipient) (fun r =>
    match r with
    | TransportError => reject RTransport
    | Body body =>
        let! json_resp := JSON_parse body in
        let! error := getp json_resp "error" in
        if truthy error then
          if js_eq_str error "already_friends" || js_eq_str error "already_requested"
          then resolve no_request
          else reject (RVal error)
        else resolve {| fr_user := Some user; fr_recipient := Some recipient |}
    end).

(** The accept call is authenticated as the recipient and names the
    requester. *)
Definition friend_accept_req (user recipient : User) : Req :=
  HttpPost (API_ENDPOINT +:+ "/user/friends/accept")
    [("_user", token recipient); ("acceptee", id user)].

Definition acceptRequest (friendRequest : FriendRequest) : P FriendRequest :=
  let done_ := resolve {| fr_user := fr_user friendRequest;
                          fr_recipient := fr_recipient friendRequest |} in
  match fr_user friendRequest, fr_recipient friendRequest with
  | Some user, Some recipient =>
      request_post (friend_accept_req user recipient) (fun r =>
        match r with
        | TransportError => reject RTransport
        | Body body =>
            let! json_resp := JSON_parse body in
            let! error := getp json_resp "error" in
            if truthy error then
              reject (RVal (JStr ("Friend accept failed: " +:+ js_to_string error)))
            else done_
        end)
  | _, _ => done_
  end.

(** [recipients = _.sample(users, Math.min(3, USER_COUNT))], then one
    request per recipient, joined. *)
Definition sendRequests (USER_COUNT : nat) (users : list User) (user : User) (r : rng)
    : P (list FriendRequest) * rng :=
  let '(recipients, r') := sample users (3 `min` USER_COUNT) r in
  (all (sendRequest user <$> recipients), r').

(** [function(requests) { return Promise.all(requests.map(acceptRequest)); }] *)
Definition acceptRequests (requests : list FriendRequest) : P (list FriendRequest) :=
  all (acceptRequest <$> requests).

(** The loop [_.each(users, ...)]: the samples are drawn in the order of
    the users, synchronously. *)
Fixpoint friend_branches (USER_COUNT : nat) (users todo : list User) (r : rng)
    : list (P (list FriendRequest)) * rng :=
  match todo with
  | [] => ([], r)
  | user :: todo' =>
      let '(p, r1) := sendRequests USER_COUNT users user r in
      let '(ps, r2) := friend_branches USER_COUNT users todo' r1 in
      (then_ p acceptRequests :: ps, r2)
  end.

Definition createFriends (USER_COUNT : nat) (users : list User) (r : rng)
    : P (list FriendRequest) * rng :=
  let '(promises, r') := friend_branches USER_COUNT users users r in
  (then_ (all promises) (fun results => resolve (concat results)), r').

End Friends.

Definition is_friend_request (rq : Req) : bool :=
  bool_decide (req_url rq = Some (API_ENDPOINT +:+ "/user/friends/request")).

Definition is_friend_accept (rq : Req) : bool :=
  bool_decide (req_url rq = Some (API_ENDPOINT +:+ "/user/friends/accept")).

(** The benign error codes. *)
Definition benign_code (error : jsval) : Prop :=
  error = JStr "already_friends" \/ error = JStr "already_requested".

#[export] Instance benign_code_dec error : Decision (benign_code error).
Proof. unfold benign_code. apply _. Defined.

(** A reply to a friend request or accept that the script takes as
    success: JSON whose [error] is falsy. *)
Definition reply_ok (r : resp) : bool :=
  match r with
  | Body (Json v) => match getp v "error" with Some err => negb (truthy err) | None => false end
  | _ => false
  end.

Definition edge (user recipient : User) : FriendRequest :=
  {| fr_user := Some user; fr_recipient := Some recipient |}.

(** Two users for the examples. *)
Definition alice : User :=
  {| email := "test0@test.com"; token := JStr "tok0"; username := JStr "alice"; id := JNum 0 |}.
Definition bob : User :=
  {| email := "test1@test.com"; token := JStr "tok1"; username := JStr "bob"; id := JNum 1 |}.

(** ** Facts *)

Section FriendFacts.
Context `{Server} `{Sampler}.

Lemma sendRequest_calls u r t : calls (sendRequest u r t) = [(t, friend_request_req u r)].
Proof. unfold sendRequest, request_post, cb_let. by repeat case_match. Qed.

Lemma sendRequest_resolved u r t fr :
  outcome (sendRequest u r t) = Resolved fr ->
  fr = no_request \/ (fr = edge u r /\ reply_ok (respond (friend_request_req u r)) = true).
Proof.
  unfold sendRequest, request_post, cb_let, reply_ok. intros Hr.
  repeat (case_match; simpl in * ); simplify_eq; auto.
  right. split; [done|]. by destruct (truthy _).
Qed.

Lemma acceptRequest_calls fr t :
  calls (acceptRequest fr t) =
  match fr_user fr, fr_recipient fr with
  | Some u, Some r => [(t, friend_accept_req u r)]
  | _, _ => []
  end.
Proof. unfold acceptRequest, request_post, cb_let. by repeat case_match. Qed.

Lemma acceptRequest_edge u r t fr :
  outcome (acceptRequest (edge u r) t) = Resolved fr -> fr = edge u r.
Proof.
  unfold acceptRequest, request_post, cb_let. simpl. intros Hr.
  repeat (case_match; simpl in * ); by simplify_eq.
Qed.

Lemma sendRequest_timely u r : timely (sendRequest u r).
Proof. unfold sendRequest. solve_inv. Qed.

(** The test of [sendRequest] decides [benign_code]. *)
Lemma benign_code_test error :
  js_eq_str error "already_friends" || js_eq_str error "already_requested" =
  bool_decide (benign_code error).
Proof.
  destruct (decide (benign_code error)) as [Hb|Hb].
  - rewrite bool_decide_eq_true_2 by done. by destruct Hb as [-> | ->].
  - rewrite bool_decide_eq_false_2 by done. apply orb_false_iff.
    split; apply not_true_iff_false; rewrite js_eq_str_spec; intros ->; apply Hb; [left|right]; done.
Qed.

Lemma not_accept_request u r : is_friend_accept (friend_request_req u r) = false.
Proof. done. Qed.

Lemma not_request_accept u r : is_friend_request (friend_accept_req u r) = false.
Proof. done. Qed.

(** The promise pushed for each user, with the recipients it sampled. *)
Lemma friend_branches_spec N users todo r :
  Forall2 (fun user b => exists recipients,
             length recipients = 3 `min` N `min` length users /\
             Forall (fun rc => rc ∈ users) recipients /\
             b = then_ (all (sendRequest user <$> recipients)) acceptRequests)
    todo (friend_branches N users todo r).1.
Proof.
  revert r. induction todo as [|u todo IH]; intros r; simpl; [constructor|].
  unfold sendRequests. pose proof (sample_length _ users (3 `min` N) r) as Hlen.
  assert (Hin : Forall (fun rc => rc ∈ users) (sample users (3 `min` N) r).1).
  { apply Forall_forall. intros x. apply sample_elem. }
  destruct (sample users _ r) as [recipients r1].
  specialize (IH r1). destruct (friend_branches N users todo r1) as [ps r2]. simpl in *.
  constructor; [|done]. eauto.
Qed.

Lemma friend_branches_elem N users r b :
  b ∈ (friend_branches N users users r).1 ->
  exists user recipients, user ∈ users /\ Forall (fun rc => rc ∈ users) recipients /\
    b = then_ (all (sendRequest user <$> recipients)) acceptRequests.
Proof.
  intros Hb. pose proof (friend_branches_spec N users users r) as Hs.
  apply list_elem_of_lookup in Hb as [i Hi].
  destruct (Forall2_lookup_r _ _ _ _ _ Hs Hi) as (u & Hu & recipients & _ & Hin & ->).
  exists u, recipients. split_and!; [by eapply list_elem_of_lookup_2|done|done].
Qed.

Lemma createFriends_calls N users r t :
  calls ((createFriends N users r).1 t) = calls (all (friend_branches N users users r).1 t).
Proof.
  unfold createFriends. destruct (friend_branches N users users r) as [ps r'].
  simpl. rewrite then_calls. case_match; simpl; by rewrite app_nil_r.
Qed.

(** Within one user's promise, an accept call is issued after the reply
    to the matching request arrived, and only if that reply was a
    success. *)
Lemma branch_accept_follows user rcs t s rq :
  (s, rq) ∈ calls (then_ (all (sendRequest user <$> rcs)) acceptRequests t) ->
  is_friend_accept rq = true ->
  exists rc s0, rq = friend_accept_req user rc /\
    (s0, friend_request_req user rc) ∈ calls (all (sendRequest user <$> rcs) t) /\
    arrival (s0, friend_request_req user rc) <= s /\
    reply_ok (respond (friend_request_req user rc)) = true.
Proof.
  rewrite then_calls, elem_of_app. intros [Hin|Hin] Hacc.
  - apply all_fmap_calls_elem in Hin as (x & _ & Hin).
    rewrite sendRequest_calls, list_elem_of_singleton in Hin. simplify_eq.
  - destruct (outcome (all (sendRequest user <$> rcs) t)) as [reqs| |] eqn:Hres;
      [|by rewrite elem_of_nil in Hin..].
    unfold acceptRequests in Hin. apply all_fmap_calls_elem in Hin as (fr & Hfr & Hin).
    rewrite acceptRequest_calls in Hin.
    destruct (fr_user fr) as [u|] eqn:Hu, (fr_recipient fr) as [rc|] eqn:Hrc;
      try by rewrite elem_of_nil in Hin.
    rewrite list_elem_of_singleton in Hin. simplify_eq.
    destruct (all_fmap_resolved_elem _ _ _ _ _ Hres Hfr) as (x & Hx & Hsx).
    destruct (sendRequest_resolved _ _ _ _ Hsx) as [->|[-> Hok]]; [done|].
    simpl in Hu, Hrc. simplify_eq.
    assert (Hcall : (t, friend_request_req u rc) ∈ calls (all (sendRequest u <$> rcs) t)).
    { apply all_fmap_calls_elem. exists rc. split; [done|]. rewrite sendRequest_calls. by left. }
    exists rc, t. split_and!; [done|done| |done].
    destruct (timely_all_fmap _ rcs (sendRequest_timely u) t) as (_ & _ & Har).
    destruct (Har _ Hres) as [_ Har']. by eapply Forall_forall in Har'.
Qed.


(** The friend stage issues friend requests and accepts only. *)
Lemma createFriends_calls_built N users r t :
  Forall (fun c => exists u v, c.2 = friend_request_req u v \/ c.2 = friend_accept_req u v)
    (calls ((createFriends N users r).1 t)).
Proof.
  apply Forall_forall. intros [s rq] Hin.
  rewrite createFriends_calls, all_calls_elem in Hin. destruct Hin as (b & Hb & Hin).
  destruct (friend_branches_elem _ _ _ _ Hb) as (u & rcs & _ & _ & ->).
  rewrite then_calls, elem_of_app in Hin. destruct Hin as [Hin|Hin].
  - apply all_fmap_calls_elem in Hin as (x & _ & Hin).
    rewrite sendRequest_calls, list_elem_of_singleton in Hin. simplify_eq. eauto.
  - case_match; [|by rewrite elem_of_nil in Hin..].
    unfold acceptRequests in Hin. apply all_fmap_calls_elem in Hin as (fr & _ & Hin).
    rewrite acceptRequest_calls in Hin. repeat case_match; try by rewrite elem_of_nil in Hin.
    rewrite list_elem_of_singleton in Hin. simplify_eq. eauto.
Qed.

Lemma createFriends_calls_kind N users r t :
  Forall (fun c => is_friend_request c.2 || is_friend_accept c.2 = true)
    (calls ((createFriends N users r).1 t)).
Proof. eapply Forall_impl; [apply createFriends_calls_built|]. by intros c (? & ? & [-> | ->]). Qed.

Lemma branch_request_count user rcs t :
  length (List.filter (fun c => is_friend_request c.2)
    (calls (then_ (all (sendRequest user <$> rcs)) acceptRequests t))) = length rcs.
Proof.
  rewrite then_calls, List.filter_app, length_app.
  assert (Hreq : length (List.filter (fun c : nat * Req => is_friend_request c.2)
                   (calls (all (sendRequest user <$> rcs) t))) = length rcs).
  { rewrite all_calls. induction rcs as [|rc rcs IH]; [done|]. rewrite !fmap_cons. cbn beta.
    rewrite sendRequest_calls. simpl. by rewrite IH. }
  rewrite Hreq. case_match; simpl; [|lia..].
  rewrite filter_all_false; [simpl; lia|]. unfold acceptRequests. rewrite all_calls.
  apply Forall_concat, Forall_fmap, Forall_forall. intros p Hp. apply list_elem_of_fmap in Hp as (fr & -> & _). unfold compose.
  rewrite acceptRequest_calls. repeat case_match; repeat constructor.
Qed.

(** When every request and every accept
    of a user succeeds, the promise of that user resolves with one
    populated request [{user, recipient}] per sampled recipient, in
    order. *)
Lemma branch_resolves user rcs t :
  (forall rc, rc ∈ rcs -> reply_ok (respond (friend_request_req user rc)) = true /\
                          reply_ok (respond (friend_accept_req user rc)) = true) ->
  outcome (then_ (all (sendRequest user <$> rcs)) acceptRequests t) = Resolved (edge user <$> rcs).
Proof.
  intros Hok. unfold then_.
  destruct (all_fmap_resolved (sendRequest user) rcs t Datatypes.id (edge user)) as (reqs & Hreqs & Heq).
  { intros rc Hrc. exists (edge user rc). split; [|done].
    destruct (Hok rc Hrc) as [Hq _]. revert Hq. unfold sendRequest, request_post, cb_let, reply_ok.
    intros Hq. case_reply. }
  rewrite list_fmap_id in Heq. subst reqs. rewrite Hreqs. unfold acceptRequests.
  rewrite <- list_fmap_compose.
  destruct (all_fmap_resolved (acceptRequest ∘ edge user) rcs (stime (all (sendRequest user <$> rcs) t))
              Datatypes.id (edge user)) as (vs & Hvs & Hvs').
  { intros rc Hrc. exists (edge user rc). split; [|done].
    destruct (Hok rc Hrc) as [_ Ha]. revert Ha. unfold compose, acceptRequest, request_post, cb_let, reply_ok.
    simpl. intros Ha. case_reply. }
  rewrite list_fmap_id in Hvs'. subst vs. done.
Qed.

Lemma acceptRequest_no_request t : outcome (acceptRequest no_request t) = Resolved no_request.
Proof. done. Qed.

(** What a user's promise resolves with: for each recipient, [{}] or the
    edge to it. *)
Lemma branch_edges user rcs t v :
  outcome (then_ (all (sendRequest user <$> rcs)) acceptRequests t) = Resolved v ->
  Forall (fun fr => fr = no_request \/ exists rc, rc ∈ rcs /\ fr = edge user rc) v.
Proof.
  unfold then_. destruct (outcome (all _ t)) as [reqs| |] eqn:Hs; simpl; [|done|done].
  intros Hv. apply Forall_forall. intros fr Hfr.
  destruct (all_fmap_resolved_elem _ _ _ _ _ Hv Hfr) as (req & Hreq & Hacc).
  destruct (all_fmap_resolved_elem _ _ _ _ _ Hs Hreq) as (rc & Hrc & Hsend).
  destruct (sendRequest_resolved _ _ _ _ Hsend) as [->|[-> _]].
  - rewrite acceptRequest_no_request in Hacc. simplify_eq. by left.
  - apply acceptRequest_edge in Hacc. subst. right. eauto.
Qed.

Section Branches.
Variables (N : nat) (users : list User) (t : nat).
Hypothesis Hok : forall u rc, u ∈ users -> rc ∈ users ->
  reply_ok (respond (friend_request_req u rc)) = true /\
  reply_ok (respond (friend_accept_req u rc)) = true.

Lemma branches_resolve_aux todo bs :
  Forall (fun u => u ∈ users) todo ->
  Forall2 (fun user b => exists recipients,
             length recipients = 3 `min` N `min` length users /\
             Forall (fun rc => rc ∈ users) recipients /\
             b = then_ (all (sendRequest user <$> recipients)) acceptRequests) todo bs ->
  exists plan,
    Forall2 (fun _ rcs => length rcs = 3 `min` N `min` length users /\
                          Forall (fun rc => rc ∈ users) rcs) todo plan /\
    Forall2 (fun b v => outcome (b t) = Resolved v) bs (zip_with (fun u rcs => edge u <$> rcs) todo plan).
Proof.
  intros Htodo Hs. induction Hs as [|u b todo' bs' (rcs & Hlen & Hin & ->) _ IH]; [by exists []|].
  apply Forall_cons in Htodo as [Hu Htodo]. destruct (IH Htodo) as (plan & Hplan & Hres).
  exists (rcs :: plan). split; constructor; [done|done| |done].
  apply branch_resolves. intros rc Hrc. apply Hok; [done|]. by eapply Forall_forall in Hin.
Qed.

(** When every request and accept among [users] succeeds, every
    branch of the stage resolves, with the edges of its user. *)
Lemma branches_resolve r :
  exists plan,
    Forall2 (fun _ rcs => length rcs = 3 `min` N `min` length users /\
                          Forall (fun rc => rc ∈ users) rcs) users plan /\
    outcome (all (friend_branches N users users r).1 t) =
      Resolved (zip_with (fun u rcs => edge u <$> rcs) users plan).
Proof.
  setoid_rewrite all_resolved_iff. apply branches_resolve_aux; [by apply Forall_forall|].
  apply friend_branches_spec.
Qed.

End Branches.

End FriendFacts.

Section FriendInv.
Context `{Server} `{Sampler} {I : forall A, P A -> Prop} `{!PInv I}.

Lemma createFriends_inv N users r : I _ ((createFriends N users r).1).
Proof.
  unfold createFriends. pose proof (friend_branches_spec N users users r) as Hs.
  destruct (friend_branches N users users r) as [ps r']. simpl in *.
  apply inv_then; [|intros; apply inv_resolve]. apply inv_all.
  induction Hs as [|u b todo bs (rcs & _ & _ & ->) _ IH]; [constructor|].
  apply Forall_cons_2; [|done].
  unfold acceptRequests, sendRequest, acceptRequest. solve_inv.
Qed.

End FriendInv.

Section FriendTheorems.
Context `{Server} `{Sampler}.

(** C4: Every accept call of the friend stage
    names a requester and a recipient such that the stage sent the
    friend request from the one to the other, the reply to that request
    arrived before the accept was issued, and that reply was a success;
    the accept authenticates as the recipient and names the requester.
    In particular no accept follows a benign conflict or a failed
    request. *)
Theorem accept_follows_request N users r t s rq :
  (s, rq) ∈ calls ((createFriends N users r).1 t) -> is_friend_accept rq = true ->
  exists u rc s0,
    rq = HttpPost (API_ENDPOINT +:+ "/user/friends/accept") [("_user", token rc); ("acceptee", id u)] /\
    (s0, friend_request_req u rc) ∈ calls ((createFriends N users r).1 t) /\
    arrival (s0, friend_request_req u rc) <= s /\
    reply_ok (respond (friend_request_req u rc)) = true.
Proof.
  rewrite !createFriends_calls, all_calls_elem. intros (b & Hb & Hin) Hacc.
  destruct (friend_branches_elem _ _ _ _ Hb) as (u & rcs & _ & _ & ->).
  destruct (branch_accept_follows _ _ _ _ _ Hin Hacc) as (rc & s0 & -> & Hreq & Har & Hok).
  exists u, rc, s0. split_and!; [done| |done|done].
  apply all_calls_elem. eexists. split; [exact Hb|].
  rewrite then_calls. apply elem_of_app. by left.
Qed.

(** C5: A friend request answered with the
    error code [already_friends] or [already_requested] resolves to the
    empty request [{}], and accepting the empty request issues no call
    and resolves at once. *)
Theorem benign_conflict_no_accept u rc t t' v error :
  respond (friend_request_req u rc) = Body (Json v) -> getp v "error" = Some error ->
  benign_code error ->
  outcome (sendRequest u rc t) = Resolved no_request /\
  outcome (acceptRequest no_request t') = Resolved no_request /\
  calls (acceptRequest no_request t') = [].
Proof.
  intros Hr He Hb. unfold sendRequest, request_post, cb_let. rewrite Hr. simpl. rewrite He.
  destruct Hb as [-> | ->]; done.
Qed.

(** C6: A friend request answered with any
    other truthy error code rejects the promise of its user, with that
    code, and that user then issues no accept call at all. *)
Theorem fatal_request_aborts user rcs rc t v error :
  rc ∈ rcs -> respond (friend_request_req user rc) = Body (Json v) ->
  getp v "error" = Some error -> truthy error = true -> ~ benign_code error ->
  (exists e, outcome (then_ (all (sendRequest user <$> rcs)) acceptRequests t) = Rejected e) /\
  Forall (fun c => is_friend_accept c.2 = false)
    (calls (then_ (all (sendRequest user <$> rcs)) acceptRequests t)).
Proof.
  intros Hin Hr He Ht Hnb.
  assert (Hrej : outcome (sendRequest user rc t) = Rejected (RVal error)).
  { unfold sendRequest, request_post, cb_let. rewrite Hr. simpl.
    by rewrite He, Ht, benign_code_test, bool_decide_eq_false_2. }
  destruct (all_fmap_rejects _ _ _ _ _ Hin Hrej) as [e He'].
  unfold then_. rewrite He'. simpl. split; [eauto|].
  rewrite all_calls. apply Forall_concat, Forall_fmap, Forall_forall.
  intros p Hp. apply list_elem_of_fmap in Hp as (x & -> & _). unfold compose.
  rewrite sendRequest_calls. by repeat constructor.
Qed.

(** C22: When every friend request and every
    accept among [users] succeeds, the friend stage resolves with the
    populated requests [{user, recipient}] of every user in the order of
    [users], each user's recipients being [min(3, USER_COUNT, |users|)]
    members of [users] in the order sampled. *)
Theorem createFriends_result N users r t :
  (forall u rc, u ∈ users -> rc ∈ users ->
     reply_ok (respond (friend_request_req u rc)) = true /\
     reply_ok (respond (friend_accept_req u rc)) = true) ->
  exists plan,
    Forall2 (fun _ rcs => length rcs = 3 `min` N `min` length users /\
                          Forall (fun rc => rc ∈ users) rcs) users plan /\
    outcome ((createFriends N users r).1 t) =
      Resolved (concat (zip_with (fun u rcs => edge u <$> rcs) users plan)).
Proof.
  intros Hok. destruct (branches_resolve N users t Hok r) as (plan & Hplan & Hres).
  exists plan. split; [done|]. unfold createFriends.
  destruct (friend_branches N users users r) as [bs r']. simpl in *. by rewrite (then_resolved _ _ _ _ Hres).
Qed.

(** C23: Whatever the replies and the random
    draws, the friend stage issues exactly [min(3, USER_COUNT, |users|)]
    friend requests per user: [_.sample] never returns more elements than
    the list has, and no request is cancelled. *)
Theorem friend_request_count N users r t :
  length (List.filter (fun c => is_friend_request c.2) (calls ((createFriends N users r).1 t))) =
  length users * (3 `min` N `min` length users).
Proof.
  rewrite createFriends_calls, all_calls.
  generalize (friend_branches_spec N users users r).
  generalize (friend_branches N users users r).1 as bs. generalize users at 3 4 as todo.
  intros todo bs Hs.
  induction Hs as [|u b todo' bs' (rcs & Hlen & _ & ->) _ IH]; [done|].
  rewrite fmap_cons. cbn [concat]. rewrite List.filter_app, length_app, IH, branch_request_count, Hlen.
  simpl. lia.
Qed.

(** C13: Whatever the replies and the random
    draws, every request the friend stage resolves with is either empty
    ([{}], after a benign conflict) or fully populated, from a user to a
    recipient both among [users]: no edge is partially populated. *)
Theorem friend_edges_well_formed N users r t frs :
  outcome ((createFriends N users r).1 t) = Resolved frs ->
  Forall (fun fr => fr = no_request \/ exists u rc, u ∈ users /\ rc ∈ users /\ fr = edge u rc) frs.
Proof.
  unfold createFriends. pose proof (friend_branches_elem N users r) as Hel.
  destruct (friend_branches N users users r) as [bs r']. simpl in *.
  unfold then_. destruct (outcome (all bs t)) as [vs| |] eqn:Hall; simpl; [|done|done].
  intros [= <-]. apply Forall_concat, Forall_forall. intros v Hv.
  apply all_resolved_iff in Hall. apply list_elem_of_lookup in Hv as [i Hi].
  destruct (Forall2_lookup_r _ _ _ _ _ Hall Hi) as (b & Hb & Hres).
  destruct (Hel b (list_elem_of_lookup_2 _ _ _ Hb)) as (u & rcs & Hu & Hrcs & ->).
  eapply Forall_impl; [exact (branch_edges _ _ _ _ Hres)|].
  intros fr [->|(rc & Hrc & ->)]; [by left|right]. exists u, rc. split_and!; [done| |done].
  by eapply Forall_forall in Hrcs.
Qed.

End FriendTheorems.

Lemma accept_follows_request_witness :
  exists u rc s0,
    friend_accept_req alice bob =
      HttpPost (API_ENDPOINT +:+ "/user/friends/accept") [("_user", token rc); ("acceptee", id u)] /\
    (s0, friend_request_req u rc) ∈
      calls ((@createFriends ok_server lodash24_sampler 2 [alice; bob] [0; 0; 0; 0]).1 0) /\
    @arrival ok_server (s0, friend_request_req u rc) <= 2 /\
    reply_ok (@respond ok_server (friend_request_req u rc)) = true.
Proof.
  apply (@accept_follows_request ok_server lodash24_sampler 2 [alice; bob] [0; 0; 0; 0] 0 2).
  - apply list_elem_of_lookup_2 with 2. reflexivity.
  - reflexivity.
Defined.

Lemma benign_conflict_no_accept_witness :
  let srv := faulty_server is_friend_request
               (Body (Json (JObj [("error", JStr "already_friends")]))) in
  outcome (@sendRequest srv alice bob 0) = Resolved no_request /\
  outcome (@acceptRequest srv no_request 3) = Resolved no_request /\
  calls (@acceptRequest srv no_request 3) = [].
Proof.
  intros srv.
  apply (@benign_conflict_no_accept srv alice bob 0 3 (JObj [("error", JStr "already_friends")])
           (JStr "already_friends")); [reflexivity|reflexivity|left; reflexivity].
Defined.

Lemma fatal_request_aborts_witness :
  let srv := faulty_server is_friend_request (Body (Json (JObj [("error", JStr "bad_user")]))) in
  (exists e, outcome (@then_ _ _ (all (@sendRequest srv alice <$> [alice; bob]))
                        (@acceptRequests srv) 0) = Rejected e) /\
  Forall (fun c => is_friend_accept c.2 = false)
    (calls (@then_ _ _ (all (@sendRequest srv alice <$> [alice; bob])) (@acceptRequests srv) 0)).
Proof.
  intros srv.
  apply (@fatal_request_aborts srv alice [alice; bob] bob 0 (JObj [("error", JStr "bad_user")])
           (JStr "bad_user")).
  - apply list_elem_of_lookup_2 with 1. reflexivity.
  - reflexivity.
  - reflexivity.
  - reflexivity.
  - intros [He|He]; discriminate.
Defined.


Lemma createFriends_result_witness :
  exists plan,
    Forall2 (fun _ rcs => length rcs = 3 `min` 2 `min` length [alice; bob] /\
                          Forall (fun rc => rc ∈ [alice; bob]) rcs) [alice; bob] plan /\
    outcome ((@createFriends ok_server lodash24_sampler 2 [alice; bob] [0; 0; 0; 0]).1 0) =
      Resolved (concat (zip_with (fun u rcs => edge u <$> rcs) [alice; bob] plan)).
Proof.
  apply (@createFriends_result ok_server lodash24_sampler 2 [alice; bob] [0; 0; 0; 0] 0).
  intros u rc _ _. split; reflexivity.
Defined.

Lemma friend_edges_well_formed_witness :
  let srv := faulty_server is_friend_request (Body (Json (JObj [("error", JStr "already_requested")]))) in
  exists frs,
    outcome ((@createFriends srv lodash24_sampler 2 [alice; bob] [0; 0; 0; 0]).1 0) = Resolved frs /\
    Forall (fun fr => fr = no_request \/ exists u rc, u ∈ [alice; bob] /\ rc ∈ [alice; bob] /\ fr = edge u rc) frs.
Proof.
  intros srv. eexists. split; [vm_compute; reflexivity|].
  apply (@friend_edges_well_formed srv lodash24_sampler 2 [alice; bob] [0; 0; 0; 0] 0).
  vm_compute. reflexivity.
Defined.
