(* ===== verification/Purchases.v ===== *)
(** * Stage 2b: purchases ([purchaseGames] of db-prefill.js)

    For each session token, [_.sample(gameSlugs, 2)] draws up to two
    slugs and [newPurchase] records a purchase of each; every call of
    every user is issued at once and joined by one [Promise.all].

    The theorems: the purchases issued are, per user, at most two
    distinct slugs of the catalog (when the slugs are distinct); they
    are all issued at the instant the stage starts; one transport
    failure rejects the whole stage; and the stage resolves with one
    reply body per purchase when every call goes through. *)

From S2P Require Import Prelude JsValue Promise Lodash Users.
Local Open Scope galaxy_scope.

Section Purchases.
Context `{Server} `{Sampler}.

Definition purchase_req (user game : jsval) : Req :=
  HttpPost (API_ENDPOINT +:+ "/user/purchase") [("_user", user); ("game", game)].

Definition newPurchase (user game : jsval) : P body :=
  request_post (purchase_req user game) (fun r =>
    match r with
    | TransportError => reject RTransport
    | Body body => resolve body
    end).

(** [_.each(userSSAs, function(user) { _.each(_.sample(gameSlugs, 2),
    function(game) { promises.push(newPurchase(user, game)); }); })] *)
Fixpoint purchase_promises (userSSAs gameSlugs : list jsval) (r : rng) : list (P body) * rng :=
  match userSSAs with
  | [] => ([], r)
  | user :: userSSAs' =>
      let '(games, r1) := sample gameSlugs 2 r in
      let '(ps, r2) := purchase_promises userSSAs' gameSlugs r1 in
      ((newPurchase user <$> games) ++ ps, r2)
  end.

Definition purchaseGames (userSSAs gameSlugs : list jsval) (r : rng) : P (list body) * rng :=
  let '(promises, r') := purchase_promises userSSAs gameSlugs r in
  (all promises, r').

End Purchases.

Definition is_purchase (rq : Req) : bool :=
  bool_decide (req_url rq = Some (API_ENDPOINT +:+ "/user/purchase")).

(** The purchases one run draws: for each user, the slugs it buys. *)
Definition purchase_calls (t : nat) (userSSAs : list jsval) (plan : list (list jsval))
    : list (nat * Req) :=
  concat (zip_with (fun user games => (fun g => (t, purchase_req user g)) <$> games) userSSAs plan).

(** ** Facts *)

Section PurchaseFacts.
Context `{Server} `{Sampler}.

Lemma newPurchase_calls u g t : calls (newPurchase u g t) = [(t, purchase_req u g)].
Proof. unfold newPurchase, request_post. by case_match. Qed.

Lemma newPurchase_rejected u g t e :
  outcome (newPurchase u g t) = Rejected e -> e = RTransport.
Proof. unfold newPurchase, request_post. intros He. case_reply. Qed.

(** The promises pushed for the users, with the slugs each drew. *)
Lemma purchase_promises_spec userSSAs gameSlugs r :
  exists plan,
    Forall2 (fun _ games => exists rest, games ++ rest ≡ₚ gameSlugs /\
                                         length games = 2 `min` length gameSlugs)
      userSSAs plan /\
    (purchase_promises userSSAs gameSlugs r).1 =
      concat (zip_with (fun user games => newPurchase user <$> games) userSSAs plan).
Proof.
  revert r. induction userSSAs as [|u us IH]; intros r; simpl; [by exists []|].
  pose proof (sample_sub _ gameSlugs 2 r) as [rest Hrest].
  pose proof (sample_length _ gameSlugs 2 r) as Hlen.
  destruct (sample gameSlugs 2 r) as [games r1]. simpl in *.
  destruct (IH r1) as (plan & Hplan & Heq).
  destruct (purchase_promises us gameSlugs r1) as [ps r2]. simpl in *.
  exists (games :: plan). split; [constructor; eauto|]. by rewrite Heq.
Qed.

Lemma purchase_promise_elem us plan p :
  p ∈ concat (zip_with (fun user games => newPurchase user <$> games) us plan) ->
  exists u g, p = newPurchase u g.
Proof.
  revert plan. induction us as [|u us IH]; intros [|games plan]; simpl; try by rewrite elem_of_nil.
  rewrite elem_of_app. intros [Hp|Hp]; [|by eapply IH].
  apply list_elem_of_fmap in Hp as (g & -> & _). eauto.
Qed.

(** A promise of the stage buys a slug drawn for one of the sessions. *)
Lemma purchase_promise_elem_in us plan (gs : list jsval) p :
  Forall2 (fun _ games => Forall (fun g => g ∈ gs) games) us plan ->
  p ∈ concat (zip_with (fun user games => newPurchase user <$> games) us plan) ->
  exists u g, u ∈ us /\ g ∈ gs /\ p = newPurchase u g.
Proof.
  induction 1 as [|u games us plan Hg _ IH]; simpl; [by rewrite elem_of_nil|].
  rewrite elem_of_app. intros [Hp|Hp].
  - apply list_elem_of_fmap in Hp as (g & -> & Hin). exists u, g.
    split_and!; [by left|by eapply Forall_forall in Hg|done].
  - destruct (IH Hp) as (u' & g & ? & ? & ->). exists u', g. split_and!; [by right|done|done].
Qed.

Lemma purchase_plan_calls us plan t :
  calls (all (concat (zip_with (fun user games => newPurchase user <$> games) us plan)) t) =
  purchase_calls t us plan.
Proof.
  rewrite all_calls. unfold purchase_calls. revert plan.
  induction us as [|u us IH]; intros [|games plan]; simpl; try done.
  rewrite fmap_app, concat_app, IH. f_equal.
  induction games as [|g games IHg]; [done|]. rewrite !fmap_cons. cbn [concat fmap list_fmap].
  by rewrite newPurchase_calls, IHg.
Qed.


(** The purchase stage issues purchases only. *)
Lemma purchaseGames_calls_built userSSAs gameSlugs r t :
  Forall (fun c => exists u g, c.2 = purchase_req u g)
    (calls ((purchaseGames userSSAs gameSlugs r).1 t)).
Proof.
  unfold purchaseGames. destruct (purchase_promises_spec userSSAs gameSlugs r) as (plan & _ & Heq).
  destruct (purchase_promises userSSAs gameSlugs r) as [ps r']. simpl in *. subst ps.
  apply Forall_forall. intros c Hc. apply all_calls_elem in Hc as (p & Hp & Hc).
  destruct (purchase_promise_elem _ _ _ Hp) as (u & g & ->).
  rewrite newPurchase_calls, list_elem_of_singleton in Hc. subst c. eauto.
Qed.

Lemma purchaseGames_calls_kind userSSAs gameSlugs r t :
  Forall (fun c => is_purchase c.2 = true) (calls ((purchaseGames userSSAs gameSlugs r).1 t)).
Proof. eapply Forall_impl; [apply purchaseGames_calls_built|]. by intros c (? & ? & ->). Qed.

(** When no purchase fails at the transport level, the stage resolves
    with one reply body per purchase. *)
Lemma purchaseGames_resolves userSSAs gameSlugs r t :
  (forall u g, respond (purchase_req u g) <> TransportError) ->
  exists bodies, outcome ((purchaseGames userSSAs gameSlugs r).1 t) = Resolved bodies.
Proof.
  intros Hok. unfold purchaseGames. destruct (purchase_promises_spec userSSAs gameSlugs r) as (plan & _ & Heq).
  destruct (purchase_promises userSSAs gameSlugs r) as [ps r']. simpl in *. subst ps.
  apply all_resolves, Forall_forall. intros p Hp.
  destruct (purchase_promise_elem _ _ _ Hp) as (u & g & ->). specialize (Hok u g).
  unfold newPurchase, request_post. destruct (respond (purchase_req u g)); [done|eauto].
Qed.

(** If one purchase the stage issues
    fails at the transport level, the whole purchase stage rejects with
    the transport error, whatever the other purchases do. *)
Lemma purchase_transport_rejects userSSAs gameSlugs r t s u g :
  (s, purchase_req u g) ∈ calls ((purchaseGames userSSAs gameSlugs r).1 t) ->
  respond (purchase_req u g) = TransportError ->
  outcome ((purchaseGames userSSAs gameSlugs r).1 t) = Rejected RTransport.
Proof.
  unfold purchaseGames. destruct (purchase_promises_spec userSSAs gameSlugs r) as (plan & _ & Heq).
  destruct (purchase_promises userSSAs gameSlugs r) as [ps r']. simpl in *. subst ps.
  intros Hin Hr. apply all_calls_elem in Hin as (p & Hp & Hc).
  destruct (purchase_promise_elem _ _ _ Hp) as (u' & g' & ->).
  rewrite newPurchase_calls, list_elem_of_singleton in Hc. unfold purchase_req in Hc.
  injection Hc as -> <- <-.
  assert (Hrej : outcome (newPurchase u g t) = Rejected RTransport).
  { unfold newPurchase, request_post. by rewrite Hr. }
  destruct (all_rejects _ _ _ _ Hp Hrej) as [e He]. rewrite He.
  destruct (all_rejected _ _ _ He) as (p' & Hp' & Hr' & _).
  destruct (purchase_promise_elem _ _ _ Hp') as (u'' & g'' & ->).
  by rewrite (newPurchase_rejected _ _ _ _ Hr').
Qed.

(** Every call of the stage is a purchase, at the instant the stage
    starts, by one of the sessions of one of the slugs. *)
Lemma purchase_call_elem userSSAs gameSlugs r t c :
  c ∈ calls ((purchaseGames userSSAs gameSlugs r).1 t) ->
  exists u g, u ∈ userSSAs /\ g ∈ gameSlugs /\ c = (t, purchase_req u g).
Proof.
  unfold purchaseGames. destruct (purchase_promises_spec userSSAs gameSlugs r) as (plan & Hplan & Heq).
  destruct (purchase_promises userSSAs gameSlugs r) as [ps r']. simpl in *. subst ps.
  intros Hc. apply all_calls_elem in Hc as (p & Hp & Hc).
  destruct (purchase_promise_elem_in userSSAs plan gameSlugs p) as (u & g & Hu & Hg & ->); [|done|].
  - eapply Forall2_impl; [exact Hplan|]. intros _ games (rest & Hperm & _).
    apply Forall_forall. intros g Hg. rewrite <- Hperm. apply elem_of_app. by left.
  - rewrite newPurchase_calls, list_elem_of_singleton in Hc. eauto.
Qed.

End PurchaseFacts.

Section PurchaseInv.
Context `{Server} `{Sampler} {I : forall A, P A -> Prop} `{!PInv I}.

Lemma purchaseGames_inv userSSAs gameSlugs r : I _ ((purchaseGames userSSAs gameSlugs r).1).
Proof.
  unfold purchaseGames. destruct (purchase_promises_spec userSSAs gameSlugs r) as (plan & _ & Heq).
  destruct (purchase_promises userSSAs gameSlugs r) as [ps r']. simpl in *. subst ps.
  apply inv_all, Forall_forall. intros p Hp.
  destruct (purchase_promise_elem _ _ _ Hp) as (u & g & ->). unfold newPurchase. solve_inv.
Qed.

End PurchaseInv.

Section PurchaseTheorems.
Context `{Server} `{Sampler}.

(** C7: Whatever the replies and the random draws,
    the purchase stage issues, for each session in order, one purchase
    per slug of a list of exactly [min(2, |gameSlugs|)] slugs drawn from
    the catalog, all at the instant the stage starts; when the slugs are
    distinct, no session buys the same slug twice. *)
Theorem purchases_per_user userSSAs gameSlugs r t :
  NoDup gameSlugs ->
  exists plan,
    Forall2 (fun _ games => length games = 2 `min` length gameSlugs /\ NoDup games /\
                            Forall (fun g => g ∈ gameSlugs) games) userSSAs plan /\
    calls ((purchaseGames userSSAs gameSlugs r).1 t) = purchase_calls t userSSAs plan.
Proof.
  intros Hnd. destruct (purchase_promises_spec userSSAs gameSlugs r) as (plan & Hplan & Heq).
  exists plan. split.
  - eapply Forall2_impl; [exact Hplan|]. intros _ games (rest & Hp & Hlen).
    split_and!; [done| |].
    + rewrite <- Hp in Hnd. by apply NoDup_app in Hnd as [? _].
    + apply Forall_forall. intros g Hg. rewrite <- Hp. apply elem_of_app. by left.
  - unfold purchaseGames. destruct (purchase_promises userSSAs gameSlugs r) as [ps r'].
    simpl in *. subst ps. apply purchase_plan_calls.
Qed.

End PurchaseTheorems.

Lemma purchases_per_user_witness :
  NoDup [JStr "mario"; JStr "halo"; JStr "dead"] /\
  exists plan,
    Forall2 (fun _ games => length games = 2 `min` 3 /\ NoDup games /\
                            Forall (fun g => g ∈ [JStr "mario"; JStr "halo"; JStr "dead"]) games)
      [JStr "tok0"; JStr "tok1"] plan /\
    calls ((@purchaseGames ok_server lodash24_sampler [JStr "tok0"; JStr "tok1"]
              [JStr "mario"; JStr "halo"; JStr "dead"] [5; 7; 1; 2; 3; 4]).1 0) =
    purchase_calls 0 [JStr "tok0"; JStr "tok1"] plan.
Proof.
  assert (Hnd : NoDup [JStr "mario"; JStr "halo"; JStr "dead"]).
  { repeat constructor; rewrite ?elem_of_cons, ?elem_of_nil; intros ?; naive_solver. }
  split; [exact Hnd|].
  exact (@purchases_per_user ok_server lodash24_sampler _ _ [5; 7; 1; 2; 3; 4] 0 Hnd).
Defined.
