(* ===== verification/Prefill.v ===== *)
(** * The orchestration ([run] and the script's entry of db-prefill.js)

    [run] joins users and games with [utils.promiseMap] (stage 1); its
    reaction ([stage2]) reads the slugs of the games and the tokens of the
    users, starts the purchases, then the friend graph, and joins them
    (stage 2); a last reaction prints the summary.  The script first
    flushes the redis store when [settings_local.FLUSH_DB_ON_PREFILL] is
    set ([main]).  A rejection reaches [.catch], which prints the error
    and calls [process.exit(1)]; an exception in an I/O callback kills
    the process instead.  [exit_of] reads the process outcome off a run
    and [issued] the requests the process really sends before it ends.

    The theorems: the stages are ordered (no stage-2 request before every
    stage-1 reply arrived), a stage-1 failure aborts the run without any
    stage-2 request, the flush comes first, the summary reports the
    numbers of users and games really created, and end-to-end runs on
    concrete servers. *)

From S2P Require Import Prelude JsValue Promise Lodash Games Users Friends Purchases.
Local Open Scope galaxy_scope.

Definition USER_COUNT : nat := 100.

(** The values the script reads at its top: its constants and
    [settings_local.FLUSH_DB_ON_PREFILL]. *)
Record Config : Type := {
  cfg_user_count : nat;
  cfg_games : list jsobj;
  cfg_flush : bool
}.

Definition script_config (FLUSH_DB_ON_PREFILL : bool) : Config :=
  {| cfg_user_count := USER_COUNT; cfg_games := FAKE_GAMES; cfg_flush := FLUSH_DB_ON_PREFILL |}.

Section Prefill.
Context `{Server} `{Sampler}.

(** The reaction to stage 1: [gameSlugs = result.games.map(json => json.slug)],
    [userSSAs = result.users.map(user => user.token)], then the purchases
    and the friends (the random draws in that order), joined. *)
Definition stage2 (cfg : Config) (r : rng) (result : list User * list jsval)
    : P (list FriendRequest * list body) :=
  let '(users, games) := result in
  let? gameSlugs := mapM (fun json => getp json "slug") games or RTypeError in
  let userSSAs := token <$> users in
  let '(purchasePromise, r1) := purchaseGames userSSAs gameSlugs r in
  let '(friendsPromise, _) := createFriends (cfg_user_count cfg) users r1 in
  promiseMap2 friendsPromise purchasePromise.

(** [run()]: the summary line reports [USER_COUNT] and
    [Object.keys(FAKE_GAMES).length]. *)
Definition run (cfg : Config) (r : rng) : P (nat * nat) :=
  then_
    (then_ (promiseMap2 (createUsers (cfg_user_count cfg)) (createGames (cfg_games cfg)))
       (stage2 cfg r))
    (fun _ => resolve (cfg_user_count cfg, length (cfg_games cfg))).

(** The top of the script: [client.flushdb(function() { client.end(); run(); })]
    or [run()]. *)
Definition main (cfg : Config) (r : rng) : P (nat * nat) :=
  if cfg_flush cfg then request_post FlushDb (fun _ => run cfg r) else run cfg r.

End Prefill.

(** How the process ends. *)
Inductive exit_status : Type :=
| ExitDone (users games : nat)   (** the summary is printed; status 0 *)
| ExitAborted (e : reason)       (** [.catch]: [process.exit(1)] *)
| ExitCrashed                    (** an uncaught exception; status 1 *)
| ExitHung.                      (** nothing settles and nothing crashes *)

Definition exit_of (x : exec (nat * nat)) : exit_status :=
  match outcome x, crash x with
  | Resolved (u, g), _ => ExitDone u g
  | Rejected e, Some c => if stime x <? c then ExitAborted e else ExitCrashed
  | Rejected e, None => ExitAborted e
  | Pending, Some _ => ExitCrashed
  | Pending, None => ExitHung
  end.

Definition exit_code (s : exit_status) : option nat :=
  match s with
  | ExitDone _ _ => Some 0
  | ExitAborted _ | ExitCrashed => Some 1
  | ExitHung => None
  end.

(** The requests the process sends: none after the instant it ends. *)
Definition issued (x : exec (nat * nat)) : list (nat * Req) :=
  match exit_of x, crash x with
  | ExitAborted _, _ => List.filter (fun c => c.1 <? stime x) (calls x)
  | ExitCrashed, Some c => List.filter (fun c' => c'.1 <? c) (calls x)
  | _, _ => calls x
  end.

Definition stage1_req (rq : Req) : bool := is_generate rq || is_login rq || is_submit rq.
Definition stage2_req (rq : Req) : bool := is_friend_request rq || is_friend_accept rq || is_purchase rq.

(** The requests a run of the script can issue under [cfg], each with
    the [request.post] options of the call site that builds it. *)
Inductive built (cfg : Config) : Req -> Prop :=
| built_flush : cfg_flush cfg = true -> built cfg FlushDb
| built_generate i : i < cfg_user_count cfg -> built cfg (generate_req (test_email i))
| built_login a : built cfg (login_req a)
| built_submit g : g ∈ cfg_games cfg -> built cfg (game_submit_req (defaults g default_params))
| built_request u v : built cfg (friend_request_req u v)
| built_accept u v : built cfg (friend_accept_req u v)
| built_purchase u g : built cfg (purchase_req u g).

(** A server on which every call of the script succeeds: the generator
    hands out assertions, logins succeed, a submitted game comes back as
    JSON with a [slug], friend requests and accepts report no error and
    no purchase fails at the transport level. *)
Section Health.
Context `{Server}.

Record healthy : Prop := {
  healthy_generate : forall e, generate_ok (respond (generate_req e)) = true;
  healthy_login : forall a, login_ok (respond (login_req a)) = true;
  healthy_submit : forall form, exists v s,
    respond (game_submit_req form) = Body (Json v) /\ getp v "slug" = Some s;
  healthy_friends : forall u rc,
    reply_ok (respond (friend_request_req u rc)) = true /\
    reply_ok (respond (friend_accept_req u rc)) = true;
  healthy_purchase : forall u g, respond (purchase_req u g) <> TransportError
}.

End Health.

(** ** Facts *)

(** The URL tests of the stages are exclusive: each goal of the form
    [kind rq = true -> stage1_req rq = b1 /\ stage2_req rq = b2] is closed by
    unfolding the tests and comparing the URLs. *)
Ltac req_kind :=
  intros [? ?];
  unfold stage1_req, stage2_req, is_generate, is_login, is_submit, is_friend_request,
    is_friend_accept, is_purchase; simpl; repeat case_bool_decide; simpl; naive_solver.

Section PrefillFacts.
Context `{Server} `{Sampler}.

Section PrefillInv.
Context {I : forall A, P A -> Prop} `{!PInv I}.

Lemma stage2_inv cfg r res : I _ (stage2 cfg r res).
Proof.
  destruct res as [users games]. unfold stage2. apply inv_then_let. intros slugs.
  pose proof (createFriends_inv (cfg_user_count cfg) users (purchaseGames (token <$> users) slugs r).2)
    as Hf.
  pose proof (purchaseGames_inv (token <$> users) slugs r) as Hp.
  destruct (purchaseGames _ slugs r) as [pp r1]. simpl in Hf, Hp.
  destruct (createFriends _ users r1) as [fp r2]. by apply inv_promiseMap2.
Qed.

Lemma run_inv cfg r : I _ (run cfg r).
Proof. unfold run. solve_inv. apply stage2_inv. Qed.

Lemma main_inv cfg r : I _ (main cfg r).
Proof. unfold main. solve_inv; apply run_inv. Qed.

End PrefillInv.

Lemma stage2_timely cfg r res : timely (stage2 cfg r res).
Proof. apply stage2_inv. Qed.

Lemma run_timely cfg r : timely (run cfg r).
Proof. apply run_inv. Qed.

Lemma run_calls cfg r t :
  calls (run cfg r t) =
  calls (promiseMap2 (createUsers (cfg_user_count cfg)) (createGames (cfg_games cfg)) t) ++
  match outcome (promiseMap2 (createUsers (cfg_user_count cfg)) (createGames (cfg_games cfg)) t) with
  | Resolved res =>
      calls (stage2 cfg r res
               (stime (promiseMap2 (createUsers (cfg_user_count cfg)) (createGames (cfg_games cfg)) t)))
  | _ => []
  end.
Proof.
  unfold run. rewrite then_calls, then_calls.
  match goal with
  | |- context [match outcome (then_ ?p ?f ?t) with _ => _ end] => destruct (outcome (then_ p f t))
  end; simpl; by rewrite app_nil_r.
Qed.

(** Stage 1 issues stage-1 requests only, stage 2 stage-2 requests only. *)
Lemma stage1_calls_kind cfg t :
  Forall (fun c => stage1_req c.2 = true /\ stage2_req c.2 = false)
    (calls (promiseMap2 (createUsers (cfg_user_count cfg)) (createGames (cfg_games cfg)) t)).
Proof.
  rewrite promiseMap2_calls. apply Forall_app. split.
  - eapply Forall_impl; [apply createUsers_calls_kind|]. req_kind.
  - eapply Forall_impl; [apply createGames_calls_kind|]. req_kind.
Qed.

Lemma stage1_calls_built cfg t :
  Forall (fun c => built cfg c.2)
    (calls (promiseMap2 (createUsers (cfg_user_count cfg)) (createGames (cfg_games cfg)) t)).
Proof.
  rewrite promiseMap2_calls. apply Forall_app. split.
  - eapply Forall_impl; [apply createUsers_calls_built|].
    intros c [(i & Hi & ->)|(a & ->)]; by constructor.
  - eapply Forall_impl; [apply createGames_calls_built|]. intros c (g & Hg & ->). by constructor.
Qed.

(** Stage 2 issues friend requests, accepts and purchases only. *)
Lemma stage2_calls_built cfg r res t :
  Forall (fun c => (exists u v, c.2 = friend_request_req u v \/ c.2 = friend_accept_req u v) \/
                   (exists u g, c.2 = purchase_req u g))
    (calls (stage2 cfg r res t)).
Proof.
  destruct res as [users games]. unfold stage2, then_let.
  destruct (mapM _ games) as [slugs|]; [|constructor].
  destruct (purchaseGames _ slugs r) as [pp r1] eqn:Hp.
  destruct (createFriends _ users r1) as [fp r2] eqn:Hf.
  rewrite promiseMap2_calls. apply Forall_app. split.
  - pose proof (createFriends_calls_built (cfg_user_count cfg) users r1 t) as Hk. rewrite Hf in Hk.
    eapply Forall_impl; [exact Hk|]. naive_solver.
  - pose proof (purchaseGames_calls_built (token <$> users) slugs r t) as Hk. rewrite Hp in Hk.
    eapply Forall_impl; [exact Hk|]. naive_solver.
Qed.

Lemma stage2_calls_kind cfg r res t :
  Forall (fun c => stage2_req c.2 = true /\ stage1_req c.2 = false) (calls (stage2 cfg r res t)).
Proof.
  eapply Forall_impl; [apply stage2_calls_built|]. by intros c [(u & v & [-> | ->])|(u & g & ->)].
Qed.

(** Every request of the script comes from one of its call sites. *)
Lemma main_calls_built cfg r t : Forall (fun c => built cfg c.2) (calls (main cfg r t)).
Proof.
  assert (Hrun : forall t', Forall (fun c => built cfg c.2) (calls (run cfg r t'))).
  { intros t'. rewrite run_calls. apply Forall_app. split; [apply stage1_calls_built|].
    case_match; [|constructor..]. eapply Forall_impl; [apply stage2_calls_built|].
    intros c [(u & v & [-> | ->])|(u & g & ->)]; constructor. }
  unfold main, request_post. destruct (cfg_flush cfg) eqn:Hf; [|apply Hrun].
  simpl. constructor; [by constructor|apply Hrun].
Qed.

(** A rejected run that did not crash ends in [process.exit(1)]. *)
(** A rejection exits through the [.catch] unless an uncaught exception
    crashed the process at or before the instant it settled. *)
Lemma exit_of_rejected (x : exec (nat * nat)) e :
  outcome x = Rejected e -> (forall c, crash x = Some c -> stime x < c) ->
  exit_of x = ExitAborted e.
Proof.
  unfold exit_of. intros -> Hc. destruct (crash x) as [c|]; [|done].
  specialize (Hc c eq_refl). by rewrite (proj2 (Nat.ltb_lt _ _) Hc).
Qed.

Lemma main_outcome cfg r t :
  outcome (main cfg r t) =
  outcome (run cfg r (if cfg_flush cfg then t + S (latency FlushDb) else t)).
Proof. unfold main. by destruct (cfg_flush cfg). Qed.

(** A purchase of stage 2 that fails at the transport level rejects
    stage 2. *)
Lemma stage2_purchase_rejects cfg r res s s' u g :
  (s', purchase_req u g) ∈ calls (stage2 cfg r res s) -> respond (purchase_req u g) = TransportError ->
  exists e, outcome (stage2 cfg r res s) = Rejected e.
Proof.
  destruct res as [users games]. unfold stage2, then_let.
  destruct (mapM _ games) as [slugs|]; [|by rewrite elem_of_nil].
  intros Hin Hr. pose proof (purchase_transport_rejects (token <$> users) slugs r s s' u g) as Hp.
  pose proof (createFriends_calls_kind (cfg_user_count cfg) users (purchaseGames (token <$> users) slugs r).2 s)
    as Hk.
  destruct (purchaseGames _ slugs r) as [pp r1]. simpl in Hp, Hk.
  destruct (createFriends _ users r1) as [fp r2]. simpl in Hk.
  rewrite promiseMap2_calls, elem_of_app in Hin. destruct Hin as [Hin|Hin].
  - rewrite Forall_forall in Hk. by specialize (Hk _ Hin).
  - eapply promiseMap2_rejects_r. by apply Hp.
Qed.

(** A purchase is neither a friend request nor an accept. *)
Lemma purchase_not_friend rq :
  is_purchase rq = true -> is_friend_request rq || is_friend_accept rq = false.
Proof.
  destruct rq; unfold is_purchase, is_friend_request, is_friend_accept; simpl; [|done].
  repeat case_bool_decide; naive_solver.
Qed.

(** A purchase of stage 2 is made by a session of the users with the
    slug of one of the games. *)
Lemma stage2_purchase_elem cfg r users games s c :
  c ∈ calls (stage2 cfg r (users, games) s) -> is_purchase c.2 = true ->
  exists u g json, u ∈ users /\ json ∈ games /\ getp json "slug" = Some g /\
                   c.2 = purchase_req (token u) g.
Proof.
  unfold stage2, then_let. destruct (mapM _ games) as [slugs|] eqn:Hm; [|by rewrite elem_of_nil].
  intros Hin Hp. pose proof (purchase_call_elem (token <$> users) slugs r s) as Hpe.
  pose proof (createFriends_calls_kind (cfg_user_count cfg) users (purchaseGames (token <$> users) slugs r).2 s)
    as Hk.
  destruct (purchaseGames _ slugs r) as [pp r1]. simpl in Hpe, Hk.
  destruct (createFriends _ users r1) as [fp r2]. simpl in Hk.
  rewrite promiseMap2_calls, elem_of_app in Hin. destruct Hin as [Hin|Hin].
  - rewrite Forall_forall in Hk. specialize (Hk _ Hin). by rewrite purchase_not_friend in Hk.
  - destruct (Hpe c Hin) as (u & g & Hu & Hg & ->).
    apply list_elem_of_fmap in Hu as (user & -> & Huser).
    apply mapM_Some_1 in Hm. apply list_elem_of_lookup in Hg as [i Hi].
    destruct (Forall2_lookup_r _ _ _ _ _ Hm Hi) as (json & Hj & Hget).
    exists user, g, json. split_and!; [done|by eapply list_elem_of_lookup_2|done|done].
Qed.

Section Healthy.
Hypothesis Hh : healthy.

Lemma stage1_resolves cfg t :
  exists users games,
    outcome (promiseMap2 (createUsers (cfg_user_count cfg)) (createGames (cfg_games cfg)) t) =
      Resolved (users, games) /\
    Forall (fun v => is_Some (getp v "slug")) games.
Proof.
  destruct (all_resolves ((fun i => then_ (createUser (test_email i)) login) <$> seq 0 (cfg_user_count cfg)) t)
    as [users Hu].
  { apply Forall_fmap, Forall_forall. intros i _. unfold compose.
    destruct (user_resolves (test_email i) t) as (u & Hres & _);
      [apply healthy_generate, Hh|apply healthy_login, Hh|eauto]. }
  destruct (all_resolves (submitGame <$> cfg_games cfg) t) as [games Hg].
  { apply Forall_fmap, Forall_forall. intros g _. unfold compose.
    destruct (healthy_submit Hh (defaults g default_params)) as (v & s & Hv & _).
    exists v. by apply submitGame_json. }
  exists users, games. split; [by apply promiseMap2_resolved|].
  apply Forall_forall. intros v Hv.
  destruct (all_fmap_resolved_elem _ _ _ _ _ Hg Hv) as (g & _ & Hres).
  destruct (healthy_submit Hh (defaults g default_params)) as (v' & s & Hv' & Hs).
  rewrite (submitGame_json _ _ _ Hv') in Hres. simplify_eq. eauto.
Qed.

Lemma stage2_resolves cfg r users games s :
  Forall (fun v => is_Some (getp v "slug")) games ->
  exists x, outcome (stage2 cfg r (users, games) s) = Resolved x.
Proof.
  intros Hslug. unfold stage2.
  destruct (mapM (fun json => getp json "slug") games) as [slugs|] eqn:Hm;
    [|apply mapM_is_Some_2 in Hslug as [? Hm']; congruence].
  simpl. destruct (purchaseGames_resolves (token <$> users) slugs r s (healthy_purchase Hh))
    as [bodies Hp].
  destruct (purchaseGames _ slugs r) as [pp r1]. simpl in Hp.
  destruct (branches_resolve (cfg_user_count cfg) users s
              (fun u rc _ _ => healthy_friends Hh u rc) r1) as (plan & _ & Hf).
  pose proof (then_resolved _ (fun results => resolve (concat results)) _ _ Hf) as Hf'.
  unfold createFriends. destruct (friend_branches _ users users r1) as [bs r2]. simpl in *.
  eexists. apply promiseMap2_resolved. split; [exact Hf'|exact Hp].
Qed.

Lemma run_resolves cfg r t :
  outcome (run cfg r t) = Resolved (cfg_user_count cfg, length (cfg_games cfg)).
Proof.
  destruct (stage1_resolves cfg t) as (users & games & H1 & Hslug).
  destruct (stage2_resolves cfg r users games
              (stime (promiseMap2 (createUsers (cfg_user_count cfg)) (createGames (cfg_games cfg)) t))
              Hslug) as [x Hx].
  rewrite <- (then_resolved _ (stage2 cfg r) _ _ H1) in Hx.
  unfold run. by rewrite (then_resolved _ _ _ _ Hx).
Qed.

End Healthy.

End PrefillFacts.

Section PrefillTheorems.
Context `{Server} `{Sampler}.

(** C1: Stage 2 starts only after stage 1 has fully
    settled: every friend or purchase request of a run is issued no
    earlier than the arrival of the reply to every generate, login and
    game-submission request of the run. *)
Theorem stage_order cfg r t c1 c2 :
  c1 ∈ calls (run cfg r t) -> stage1_req c1.2 = true ->
  c2 ∈ calls (run cfg r t) -> stage2_req c2.2 = true ->
  arrival c1 <= c2.1.
Proof.
  rewrite !run_calls, !elem_of_app.
  pose proof (stage1_calls_kind cfg t) as Hk1. rewrite Forall_forall in Hk1.
  set (pm := promiseMap2 _ _). intros Hc1 Hs1 Hc2 Hs2.
  destruct (outcome (pm t)) as [res| |] eqn:Hpm;
    [|destruct Hc2 as [Hc2|Hc2]; [destruct (Hk1 c2 Hc2); congruence|by rewrite elem_of_nil in Hc2]..].
  pose proof (stage2_calls_kind cfg r res (stime (pm t))) as Hk2. rewrite Forall_forall in Hk2.
  destruct Hc2 as [Hc2|Hc2]; [destruct (Hk1 c2 Hc2); congruence|].
  destruct Hc1 as [Hc1|Hc1]; [|destruct (Hk2 c1 Hc1); congruence].
  assert (Ht : timely pm) by (apply timely_promiseMap2; eauto with galaxy).
  destruct (Ht t) as (_ & _ & Hres). destruct (Hres res Hpm) as [_ Har].
  destruct (stage2_timely cfg r res (stime (pm t))) as (_ & Hge & _).
  rewrite Forall_forall in Har, Hge. specialize (Har c1 Hc1). specialize (Hge c2 Hc2). lia.
Qed.

(** C2: If the users or the games of stage 1
    reject, the run rejects and issues no friend and no purchase request
    at all; unless an uncaught exception crashed the process at or
    before the instant the run settled, the process ends in
    [process.exit(1)] with the run's rejection. *)
Theorem stage1_failure_aborts cfg r t e :
  outcome (createUsers (cfg_user_count cfg) t) = Rejected e \/
  outcome (createGames (cfg_games cfg) t) = Rejected e ->
  Forall (fun c => stage2_req c.2 = false) (calls (run cfg r t)) /\
  exists e', outcome (run cfg r t) = Rejected e' /\
    ((forall c, crash (run cfg r t) = Some c -> stime (run cfg r t) < c) ->
     exit_of (run cfg r t) = ExitAborted e').
Proof.
  intros He.
  assert (Hpm : exists e', outcome (promiseMap2 (createUsers (cfg_user_count cfg))
                                   (createGames (cfg_games cfg)) t) = Rejected e').
  { destruct He as [He|He]; [eapply promiseMap2_rejects_l|eapply promiseMap2_rejects_r]; eauto. }
  destruct Hpm as [e' Hpm]. split.
  - rewrite run_calls, Hpm, app_nil_r. eapply Forall_impl; [apply stage1_calls_kind|]. naive_solver.
  - exists e'. assert (Hrun : outcome (run cfg r t) = Rejected e').
    { unfold run, then_. by rewrite Hpm. }
    split; [done|]. by apply exit_of_rejected.
Qed.

(** C28: With [FLUSH_DB_ON_PREFILL] set, the flush of the
    store is the first request of the script and every other request is
    issued after its reply arrived. *)
Theorem flush_first cfg r t :
  cfg_flush cfg = true ->
  exists rest, calls (main cfg r t) = (t, FlushDb) :: rest /\
    Forall (fun c => arrival (t, FlushDb) <= c.1) rest.
Proof.
  intros Hf. unfold main. rewrite Hf. unfold request_post. simpl.
  eexists. split; [done|].
  destruct (run_timely cfg r (t + S (latency FlushDb))) as (_ & Hge & _).
  eapply Forall_impl; [exact Hge|]. unfold arrival. simpl. lia.
Qed.

(** C27: When a run resolves, the summary it prints
    ([USER_COUNT] and the number of catalog entries) is the number of
    users and of games stage 1 really created. *)
Theorem summary_counts cfg r t u g :
  outcome (run cfg r t) = Resolved (u, g) ->
  exists users games,
    outcome (createUsers (cfg_user_count cfg) t) = Resolved users /\ length users = u /\
    outcome (createGames (cfg_games cfg) t) = Resolved games /\ length games = g.
Proof.
  unfold run, then_.
  destruct (outcome (promiseMap2 _ _ t)) as [[users games]| |] eqn:Hpm; simpl; [|done..].
  case_match; simpl; intros Hr; simplify_eq.
  apply promiseMap2_resolved in Hpm as [Hu Hg]. exists users, games.
  split_and!; [done| |done|].
  - apply all_resolved_iff, Forall2_length in Hu. by rewrite <- Hu, length_fmap, length_seq.
  - apply all_resolved_iff, Forall2_length in Hg. by rewrite <- Hg, length_fmap.
Qed.

(** C9: On a server where every call succeeds, the
    script (with or without the flush) prints its summary with the
    numbers of users and games, exits with status 0, and every request
    it would issue is really sent: the run terminates for every choice
    of the random draws. *)
Theorem run_succeeds cfg r t :
  healthy ->
  exit_of (main cfg r t) = ExitDone (cfg_user_count cfg) (length (cfg_games cfg)) /\
  exit_code (exit_of (main cfg r t)) = Some 0 /\
  issued (main cfg r t) = calls (main cfg r t).
Proof.
  intros Hh.
  assert (Hx : exit_of (main cfg r t) = ExitDone (cfg_user_count cfg) (length (cfg_games cfg))).
  { unfold exit_of. by rewrite main_outcome, run_resolves. }
  split_and!; [done|by rewrite Hx|]. unfold issued. rewrite Hx. by destruct (crash (main cfg r t)).
Qed.

(** C8: A purchase of the run that fails at
    the transport level rejects the whole run, whatever the other calls
    do; unless an uncaught exception crashed the process at or before
    the instant the run settled, the process ends in [process.exit(1)]
    with the rejection that settled first. *)
Theorem purchase_failure_aborts cfg r t s u g :
  (s, purchase_req u g) ∈ calls (run cfg r t) -> respond (purchase_req u g) = TransportError ->
  exists e, outcome (run cfg r t) = Rejected e /\
    ((forall c, crash (run cfg r t) = Some c -> stime (run cfg r t) < c) ->
     exit_of (run cfg r t) = ExitAborted e).
Proof.
  intros Hin Hr.
  enough (exists e, outcome (run cfg r t) = Rejected e) as [e He]
    by (exists e; split; [done|by apply exit_of_rejected]).
  rewrite run_calls, elem_of_app in Hin. pose proof (stage1_calls_kind cfg t) as Hk.
  rewrite Forall_forall in Hk. unfold run.
  destruct (outcome (promiseMap2 _ _ t)) as [res| |] eqn:Hpm;
    (destruct Hin as [Hin|Hin]; [by destruct (Hk _ Hin)|]); [|by rewrite elem_of_nil in Hin..].
  destruct (stage2_purchase_rejects _ _ _ _ _ _ _ Hin Hr) as [e He].
  rewrite <- (then_resolved _ (stage2 cfg r) _ _ Hpm) in He.
  exists e. by rewrite (then_rejected _ _ _ _ He).
Qed.

(** C14: Every purchase a run issues is made
    with the session token of a user that stage 1 created and the slug
    read from a game reply that stage 1 received: purchases depend on
    both factories having completed. *)
Theorem purchase_uses_stage1 cfg r t s rq :
  (s, rq) ∈ calls (run cfg r t) -> is_purchase rq = true ->
  exists users games u g json,
    outcome (promiseMap2 (createUsers (cfg_user_count cfg)) (createGames (cfg_games cfg)) t) =
      Resolved (users, games) /\
    u ∈ users /\ json ∈ games /\ getp json "slug" = Some g /\ rq = purchase_req (token u) g.
Proof.
  rewrite run_calls, elem_of_app. intros Hc Hp.
  pose proof (stage1_calls_kind cfg t) as Hk. rewrite Forall_forall in Hk.
  assert (Hs2 : stage2_req rq = true) by (unfold stage2_req; by rewrite Hp, orb_true_r).
  destruct (outcome (promiseMap2 _ _ t)) as [[users games]| |] eqn:Hpm;
    (destruct Hc as [Hc|Hc]; [destruct (Hk _ Hc) as [_ Hn]; simpl in Hn; congruence|]);
    [|by rewrite elem_of_nil in Hc..].
  destruct (stage2_purchase_elem _ _ _ _ _ _ Hc Hp) as (u & g & json & ? & ? & ? & ?).
  exists users, games, u, g, json. done.
Qed.

(** C10: Whatever the servers reply and whatever
    the random draws, the script never hangs: a promise of the script
    stays pending only after an uncaught exception, so the process
    prints the summary, calls [process.exit(1)], or is killed by the
    exception, and always ends with a status. *)
Theorem main_never_hangs cfg r t :
  exit_of (main cfg r t) <> ExitHung /\ is_Some (exit_code (exit_of (main cfg r t))).
Proof.
  pose proof (main_inv (I := @settles) cfg r t) as Hs.
  unfold exit_of. destruct (outcome (main cfg r t)) as [[u g]|e|]; [done| |].
  - destruct (crash (main cfg r t)); [case_match|]; done.
  - destruct (Hs eq_refl) as [c ->]. done.
Qed.

End PrefillTheorems.

(** ** End-to-end runs *)

(** Two users and one game, every call succeeding. *)
Definition cfg_two_one : Config :=
  {| cfg_user_count := 2;
     cfg_games := [[("name", JStr "Mario Broskis"); ("app_url", JStr "http://mario.broskis")]];
     cfg_flush := false |}.

(** A server where the generate call of [test0@test.com] fails at once
    and every other call takes 5 instants. *)
Definition slow_server : Server :=
  {| respond := fun rq => if is_generate_for (test_email 0) rq then TransportError else ok_reply rq;
     latency := fun rq => if is_generate_for (test_email 0) rq then 0 else 5 |}.

(** With two users, one game and every
    call succeeding, the run ends with the summary (2 users, 1 game),
    after each user sent [min(3, 2)] = 2 friend requests (itself included
    by the draws below) and bought [min(2, 1)] = 1 game. *)
Example e2e_two_users_one_game :
  let x := @main ok_server lodash24_sampler cfg_two_one [0; 0; 0; 0; 0; 0] 0 in
  exit_of x = ExitDone 2 1 /\ exit_code (exit_of x) = Some 0 /\
  length (List.filter (fun c => is_friend_request c.2) (issued x)) = 4 /\
  length (List.filter (fun c => is_purchase c.2) (issued x)) = 2.
Proof. vm_compute. auto. Qed.

(** [process.exit(1)] ends the process as
    soon as the first rejection reaches [.catch]: a login the full run
    would issue later (for the user whose assertion is still in flight)
    is never sent. *)
Example abort_stops_inflight :
  let x := @main slow_server lodash24_sampler cfg_two_one [] 0 in
  exit_of x = ExitAborted (RVal (JStr "Connection to assertion generator failed")) /\
  (6, login_req (JStr "assert:test1@test.com")) ∈ calls x /\
  Forall (fun c => is_login c.2 = false) (issued x).
Proof.
  vm_compute. split; [done|]. split; [|repeat constructor].
  apply list_elem_of_lookup_2 with 2. reflexivity.
Qed.

Lemma stage_order_witness :
  exists c1 c2,
    calls (@run ok_server lodash24_sampler cfg_two_one [0; 0; 0; 0; 0; 0] 0) !! 0 = Some c1 /\
    calls (@run ok_server lodash24_sampler cfg_two_one [0; 0; 0; 0; 0; 0] 0) !! 5 = Some c2 /\
    @arrival ok_server c1 <= c2.1.
Proof.
  do 2 eexists. split; [vm_compute; reflexivity|]. split; [vm_compute; reflexivity|].
  apply (@stage_order ok_server lodash24_sampler cfg_two_one [0; 0; 0; 0; 0; 0] 0).
  - apply list_elem_of_lookup_2 with 0. vm_compute. reflexivity.
  - vm_compute. reflexivity.
  - apply list_elem_of_lookup_2 with 5. vm_compute. reflexivity.
  - vm_compute. reflexivity.
Defined.

Lemma stage1_failure_aborts_witness :
  let srv := faulty_server (is_login_for "assert:test4@test.com") TransportError in
  Forall (fun c => stage2_req c.2 = false) (calls (@run srv lodash24_sampler (script_config false) [] 0)) /\
  exists e', outcome (@run srv lodash24_sampler (script_config false) [] 0) = Rejected e' /\
    ((forall c, crash (@run srv lodash24_sampler (script_config false) [] 0) = Some c -> stime (@run srv lodash24_sampler (script_config false) [] 0) < c) ->
     exit_of (@run srv lodash24_sampler (script_config false) [] 0) = ExitAborted e').
Proof.
  intros srv.
  apply (@stage1_failure_aborts srv lodash24_sampler (script_config false) [] 0
           (RVal (JStr "Galaxy login failed."))).
  left. vm_compute. reflexivity.
Defined.

Lemma flush_first_witness :
  let cfg := {| cfg_user_count := 2; cfg_games := cfg_games cfg_two_one; cfg_flush := true |} in
  exists rest, calls (@main ok_server lodash24_sampler cfg [0; 0] 0) = (0, FlushDb) :: rest /\
    Forall (fun c => @arrival ok_server (0, FlushDb) <= c.1) rest.
Proof. intros cfg. apply (@flush_first ok_server lodash24_sampler cfg [0; 0] 0). reflexivity. Defined.

Lemma summary_counts_witness :
  exists users games,
    outcome (@createUsers ok_server 2 0) = Resolved users /\ length users = 2 /\
    outcome (@createGames ok_server (cfg_games cfg_two_one) 0) = Resolved games /\ length games = 1.
Proof.
  apply (@summary_counts ok_server lodash24_sampler cfg_two_one [0; 0; 0; 0; 0; 0] 0 2 1).
  vm_compute. reflexivity.
Defined.

(** Every call of the script succeeds on [ok_server]. *)
Lemma ok_server_healthy : @healthy ok_server.
Proof.
  split.
  - intros e. reflexivity.
  - intros a. reflexivity.
  - intros form. do 2 eexists. split; reflexivity.
  - intros u rc. split; reflexivity.
  - intros u g. discriminate.
Qed.

Lemma run_succeeds_witness :
  exit_of (@main ok_server lodash24_sampler (script_config true) [] 0) = ExitDone 100 3 /\
  exit_code (exit_of (@main ok_server lodash24_sampler (script_config true) [] 0)) = Some 0 /\
  issued (@main ok_server lodash24_sampler (script_config true) [] 0) =
    calls (@main ok_server lodash24_sampler (script_config true) [] 0).
Proof. apply (@run_succeeds ok_server lodash24_sampler (script_config true) [] 0 ok_server_healthy). Defined.

Lemma purchase_failure_aborts_witness :
  let srv := faulty_server is_purchase TransportError in
  exists e, outcome (@run srv lodash24_sampler cfg_two_one [0; 0; 0; 0; 0; 0] 0) = Rejected e /\
    ((forall c, crash (@run srv lodash24_sampler cfg_two_one [0; 0; 0; 0; 0; 0] 0) = Some c -> stime (@run srv lodash24_sampler cfg_two_one [0; 0; 0; 0; 0; 0] 0) < c) ->
     exit_of (@run srv lodash24_sampler cfg_two_one [0; 0; 0; 0; 0; 0] 0) = ExitAborted e).
Proof.
  intros srv.
  apply (@purchase_failure_aborts srv lodash24_sampler cfg_two_one [0; 0; 0; 0; 0; 0] 0 4
           (JStr "tok:assert:test0@test.com") (JStr "slug:Mario Broskis")).
  - apply list_elem_of_lookup_2 with 13. vm_compute. reflexivity.
  - reflexivity.
Defined.

Lemma purchase_uses_stage1_witness :
  exists users games u g json,
    outcome (promiseMap2 (@createUsers ok_server (cfg_user_count cfg_two_one))
               (@createGames ok_server (cfg_games cfg_two_one)) 0) = Resolved (users, games) /\
    u ∈ users /\ json ∈ games /\ getp json "slug" = Some g /\
    purchase_req (JStr "tok:assert:test0@test.com") (JStr "slug:Mario Broskis") = purchase_req (token u) g.
Proof.
  apply (@purchase_uses_stage1 ok_server lodash24_sampler cfg_two_one [0; 0; 0; 0; 0; 0] 0 4).
  - apply list_elem_of_lookup_2 with 13. vm_compute. reflexivity.
  - reflexivity.
Defined.
