(* ===== verification/Handlers.v ===== *)
(** * The route handlers of the API ([src/views/user/purchase.js] and
      [src/views/game/detail.js])

    Both handlers are callbacks of the restify server: they read the
    request parameters, answer with [res.json] and use a redis client.
    The model runs a handler in a state monad [H] of its own over
    [HState]: the redis store (the sets written by [SADD]), the list of
    responses the handler sends, in order, and the number of redis
    clients opened and closed.  What the handlers call outside [src/]
    is a parameter of their Section: [auth.confirmSSA], the outcome of
    the [SADD] command, and [gamelib.getGameFromSlug].

    The theorems: a valid purchase sends one response and records the
    game; an invalid user or game does not stop the handler, which sends
    a second response and records the purchase under a key built from
    the missing e-mail; a failed [SADD] leaks the client; the script's
    purchase form (which names the token [_user]) is never recorded
    under the buyer; [SADD] makes a purchase idempotent on the store;
    the detail handler answers exactly once and releases its client on
    every path. *)

From S2P Require Import Prelude JsValue Promise Purchases.
From stdpp Require Import gmap.
Local Open Scope galaxy_scope.

(** ** The handler monad *)

(** [res.json(code, body)]; [res.json(body)] answers 200. *)
Record response : Type := Response {
  status : nat;
  payload : jsval
}.

#[export] Instance response_eq_dec : EqDecision response.
Proof. solve_decision. Defined.

(** The redis keys the handlers write hold sets of strings. *)
Abbreviation store := (gmap string (gset string)).

Record HState : Type := HS {
  db : store;
  sent : list response;
  opened : nat;
  closed : nat
}.

Definition H (A : Type) : Type := HState -> A * HState.

#[export] Instance H_ret : MRet H := fun A a s => (a, s).
#[export] Instance H_bind : MBind H := fun A B f m s => let '(a, s') := m s in f a s'.

Definition json (code : nat) (v : jsval) : H unit := fun s =>
  (tt, HS (db s) (sent s ++ [Response code v]) (opened s) (closed s)).

(** [db.redis()] *)
Definition redis_open : H unit := fun s => (tt, HS (db s) (sent s) (S (opened s)) (closed s)).

(** [redisClient.end()], or the [done()] of [db.redisView] *)
Definition redis_end : H unit := fun s => (tt, HS (db s) (sent s) (opened s) (S (closed s))).

(** [SADD key member] when the command succeeds. *)
Definition sadd (key member : string) : H unit := fun s =>
  (tt, HS (<[key := {[member]} ∪ default ∅ (db s !! key)]> (db s)) (sent s) (opened s) (closed s)).

Definition error_body (code : string) : jsval := JObj [("error", JStr code)].

Definition success_body : jsval := JObj [("success", JBool true)].

(** ** POST /user/purchase *)

Section Purchase.
(** [auth.confirmSSA(user)]: the e-mail of a session token, or a falsy
    value. *)
Variable confirmSSA : jsval -> jsval.

(** [if (!user || !(email = auth.confirmSSA(user)))]: [email] keeps
    [undefined] when [user] is falsy. *)
Definition purchase_email (user : jsval) : jsval :=
  if truthy user then confirmSSA user else JUndef.

(** The handler; [sadd_err] is the [err] its [SADD] callback receives.
    Neither guard returns after its 403. *)
Definition purchase (POST : jsobj) (sadd_err : bool) : H unit :=
  let user := field "user" POST in
  let email := purchase_email user in
  (if truthy user && truthy email then mret tt else json 403 (error_body "bad_user")) ;;
  let game := field "game" POST in
  (if truthy game then mret tt else json 403 (error_body "bad_game")) ;;
  redis_open ;;
  if sadd_err then json 500 (error_body "internal_db_error")
  else
    sadd ("gamesPurchased:" +:+ js_to_string email) (js_to_string game) ;;
    redis_end ;;
    json 200 success_body.

End Purchase.

(** ** GET /game/:slug/detail *)

Section Detail.
(** [gamelib.getGameFromSlug(client, slug, callback)]: the [err] and
    [game] its callback receives. *)
Variable getGameFromSlug : jsval -> jsval * jsval.

(** The view [db.redisView] wraps; [redis_end] is its [done()]. *)
Definition detail (GET : jsobj) : H unit :=
  let slug := field "slug" GET in
  if negb (truthy slug) then json 400 (error_body "bad_game") ;; redis_end
  else
    let '(_, game) := getGameFromSlug slug in
    (if truthy game then json 200 game else json 500 (error_body "db_error")) ;;
    redis_end.

End Detail.

(** The parameters a restify server reads from a form POST. *)
Definition req_form (rq : Req) : jsobj :=
  match rq with
  | HttpPost _ form => form
  | FlushDb => []
  end.


(** ** Facts *)

Section PurchaseFacts.
Variable confirmSSA : jsval -> jsval.

(** The state a purchase leaves: the 403s of the failed guards, then the
    answer of the [SADD] callback; the client is closed only on
    success. *)
Lemma purchase_spec POST err s :
  let email := purchase_email confirmSSA (field "user" POST) in
  let game := field "game" POST in
  purchase confirmSSA POST err s =
  (tt, HS (if err then db s
           else <[("gamesPurchased:" +:+ js_to_string email) :=
                    {[js_to_string game]} ∪
                    default ∅ (db s !! ("gamesPurchased:" +:+ js_to_string email))]> (db s))
          (sent s ++ (if truthy (field "user" POST) && truthy email then []
                      else [Response 403 (error_body "bad_user")]) ++
                     (if truthy game then [] else [Response 403 (error_body "bad_game")]) ++
                     [if err then Response 500 (error_body "internal_db_error")
                      else Response 200 success_body])
          (S (opened s)) (if err then closed s else S (closed s))).
Proof.
  unfold purchase, mbind, H_bind, mret, H_ret, json, redis_open, redis_end, sadd. simpl.
  destruct (truthy _ && truthy _), (truthy (field "game" POST)), err; simpl;
    by rewrite ?app_nil_r, <- ?app_assoc.
Qed.

End PurchaseFacts.

Section DetailFacts.
Variable getGameFromSlug : jsval -> jsval * jsval.

Lemma detail_spec GET s :
  detail getGameFromSlug GET s =
  (tt, HS (db s)
          (sent s ++ [if truthy (field "slug" GET) then
                        if truthy (getGameFromSlug (field "slug" GET)).2
                        then Response 200 (getGameFromSlug (field "slug" GET)).2
                        else Response 500 (error_body "db_error")
                      else Response 400 (error_body "bad_game")])
          (opened s) (S (closed s))).
Proof.
  unfold detail, mbind, H_bind, json, redis_end. simpl.
  destruct (truthy (field "slug" GET)); simpl; [|done].
  destruct (getGameFromSlug _) as [err game]. simpl. by destruct (truthy game).
Qed.

End DetailFacts.

(** ** Theorems *)

Section PurchaseTheorems.
Variable confirmSSA : jsval -> jsval.

(** A purchase with a valid session token and a
    game, whose [SADD] succeeds, sends exactly one response
    ([{success: true}]), adds the game to the set
    [gamesPurchased:<email>] of the token's e-mail, leaves every other
    key of the store alone, and closes the client it opened. *)
Lemma purchase_records POST s :
  truthy (field "user" POST) = true -> truthy (confirmSSA (field "user" POST)) = true ->
  truthy (field "game" POST) = true ->
  let s' := (purchase confirmSSA POST false s).2 in
  let key := "gamesPurchased:" +:+ js_to_string (confirmSSA (field "user" POST)) in
  sent s' = sent s ++ [Response 200 success_body] /\
  db s' !! key = Some ({[js_to_string (field "game" POST)]} ∪ default ∅ (db s !! key)) /\
  (forall k, k <> key -> db s' !! k = db s !! k) /\
  opened s' = S (opened s) /\ closed s' = S (closed s).
Proof.
  intros Hu He Hg. rewrite purchase_spec. unfold purchase_email. rewrite Hu, He, Hg. simpl.
  split_and!; [done|by rewrite lookup_insert_eq| |done|done].
  intros k Hk. by rewrite lookup_insert_ne.
Qed.

(** C32: A purchase whose token
    [auth.confirmSSA] rejects is answered 403 [bad_user], but the
    handler does not return: it goes on to record the game under the
    key [gamesPurchased:] followed by the falsy value it got, and sends
    a second response. *)
Theorem purchase_bad_user_continues POST s :
  truthy (field "user" POST) = true -> truthy (confirmSSA (field "user" POST)) = false ->
  truthy (field "game" POST) = true ->
  let s' := (purchase confirmSSA POST false s).2 in
  let key := "gamesPurchased:" +:+ js_to_string (confirmSSA (field "user" POST)) in
  sent s' = sent s ++ [Response 403 (error_body "bad_user"); Response 200 success_body] /\
  js_to_string (field "game" POST) ∈ default ∅ (db s' !! key).
Proof.
  intros Hu He Hg. rewrite purchase_spec. unfold purchase_email. rewrite Hu, He, Hg. simpl.
  split; [done|]. rewrite lookup_insert_eq. simpl. set_solver.
Qed.

(** Every run of the purchase handler
    sends one response per failed guard (user, game) plus the answer of
    the [SADD] callback: exactly one response when both guards pass,
    two or three otherwise. *)
Lemma purchase_response_count POST err s :
  length (sent ((purchase confirmSSA POST err s).2)) =
  length (sent s) + 1 +
  (if truthy (field "user" POST) && truthy (purchase_email confirmSSA (field "user" POST)) then 0 else 1) +
  (if truthy (field "game" POST) then 0 else 1).
Proof.
  rewrite purchase_spec. simpl. rewrite !length_app.
  destruct (truthy _ && truthy _), (truthy (field "game" POST)); simpl; lia.
Qed.

(** C33: When [SADD] fails the handler answers
    500 [internal_db_error] last, the store is unchanged, and the client
    it opened is never closed ([redisClient.end()] runs only on
    success). *)
Theorem purchase_db_error_leaks POST s :
  let s' := (purchase confirmSSA POST true s).2 in
  last (sent s') = Some (Response 500 (error_body "internal_db_error")) /\
  db s' = db s /\ opened s' = S (opened s) /\ closed s' = closed s.
Proof. rewrite purchase_spec. simpl. split_and!; [|done..]. by rewrite !app_assoc, last_snoc. Qed.

(** [SADD] keeps a set: repeating a
    successful purchase leaves the store as the first one did. *)
Lemma purchase_idempotent POST s :
  let s1 := (purchase confirmSSA POST false s).2 in
  db ((purchase confirmSSA POST false s1).2) = db s1.
Proof.
  simpl. rewrite !purchase_spec. simpl. rewrite lookup_insert_eq. simpl.
  rewrite insert_insert_eq. f_equal. set_solver.
Qed.

(** The purchase form the prefill
    script sends names the token [_user], which the handler does not
    read: whatever the token, the handler answers 403 [bad_user] first
    and records the game only under [gamesPurchased:undefined]; no other
    key of the store changes. *)
Lemma script_purchase_unrecorded u g err s :
  let s' := (purchase confirmSSA (req_form (purchase_req u g)) err s).2 in
  head (drop (length (sent s)) (sent s')) = Some (Response 403 (error_body "bad_user")) /\
  forall k, k <> "gamesPurchased:undefined" -> db s' !! k = db s !! k.
Proof.
  rewrite purchase_spec. simpl. split.
  - by rewrite drop_app_length.
  - intros k Hk. destruct err; [done|]. by rewrite lookup_insert_ne.
Qed.

End PurchaseTheorems.

Section DetailTheorems.
Variable getGameFromSlug : jsval -> jsval * jsval.

(** C34: On every path the detail handler sends
    exactly one response and calls [done()] exactly once, without
    touching the store: the game (200) when the slug is set and the
    library finds a game, 400 [bad_game] without a slug, and 500
    [db_error] when no game comes back, whatever [err] says. *)
Theorem detail_answers_once GET s :
  let s' := (detail getGameFromSlug GET s).2 in
  (exists r, sent s' = sent s ++ [r] /\
     (status r = 200 <-> truthy (field "slug" GET) = true /\
                         truthy (getGameFromSlug (field "slug" GET)).2 = true)) /\
  db s' = db s /\ opened s' = opened s /\ closed s' = S (closed s).
Proof.
  rewrite detail_spec. simpl. split_and!; [|done..]. eexists. split; [done|].
  destruct (truthy (field "slug" GET)), (truthy (getGameFromSlug _).2); simpl; naive_solver.
Qed.

End DetailTheorems.

(** A session service knowing one token. *)
Definition demo_auth (user : jsval) : jsval :=
  if js_eq_str user "ssa-alice" then JStr "alice@test.com" else JBool false.

Definition empty_state : HState := HS ∅ [] 0 0.

Lemma purchase_bad_user_continues_witness :
  let s' := (purchase demo_auth [("user", JStr "ssa-mallory"); ("game", JStr "mario")] false empty_state).2 in
  let key := "gamesPurchased:" +:+ js_to_string (demo_auth (JStr "ssa-mallory")) in
  sent s' = sent empty_state ++ [Response 403 (error_body "bad_user"); Response 200 success_body] /\
  js_to_string (JStr "mario") ∈ default ∅ (db s' !! key).
Proof.
  apply (purchase_bad_user_continues demo_auth [("user", JStr "ssa-mallory"); ("game", JStr "mario")]
           empty_state); reflexivity.
Defined.
