(* ===== verification/Orchestrator.v ===== *)
(** * The orchestrator's state machine and its refinement by the script

    The specification describes the orchestrator as the state machine
    [Init -> (Flush) -> Stage1 -> Stage2 -> Done | Aborted]: the flush is
    awaited when configured, stage 1 aborts on the first rejection of
    users or games, stage 2 aborts on the first rejection of friends or
    purchases, and [Done] carries the counts of users and games.  This
    file states that machine as a step relation [ostep] and relates it
    to the script of [Prefill]: [main_trace] reads off a run of [main]
    the states it passes through, each with the instant it is entered.

    The theorems: the trace is a path of [ostep] from [Init] with
    non-decreasing instants; every request the process really sends
    ([issued]) is sent while the machine is in the state of its kind
    (the flush in [Flush], users and games in [Stage1], friends and
    purchases in [Stage2]), between the instant the state is entered and
    the instant it is left.  The machine has no state for a process
    killed by an uncaught exception: such a run stops the trace in a
    non-final state, or overtakes an abort. *)

From S2P Require Import Prelude JsValue Promise Lodash Games Users Friends Purchases Prefill.
From stdpp Require Import relations.
Local Open Scope galaxy_scope.

(** ** The specification's machine *)

Inductive ostate : Type :=
| OInit
| OFlush
| OStage1
| OStage2
| ODone (users games : nat)
| OAborted (e : reason).

#[export] Instance ostate_eq_dec : EqDecision ostate.
Proof. solve_decision. Defined.

Inductive ostep (flush : bool) : relation ostate :=
| step_flush : flush = true -> ostep flush OInit OFlush
| step_skip_flush : flush = false -> ostep flush OInit OStage1
| step_flushed : ostep flush OFlush OStage1
| step_stage1_done : ostep flush OStage1 OStage2
| step_stage1_abort e : ostep flush OStage1 (OAborted e)
| step_stage2_done u g : ostep flush OStage2 (ODone u g)
| step_stage2_abort e : ostep flush OStage2 (OAborted e).

Definition final (s : ostate) : bool :=
  match s with ODone _ _ | OAborted _ => true | _ => false end.

(** A time-stamped sequence of states is a path of [R] with instants that
    never decrease. *)
Fixpoint path {A} (R : relation A) (tr : list (nat * A)) : Prop :=
  match tr with
  | (t1, s1) :: ((t2, s2) :: _) as tr' => R s1 s2 /\ t1 <= t2 /\ path R tr'
  | _ => True
  end.

(** The state in which the specification issues a request. *)
Definition phase (rq : Req) : ostate :=
  match rq with
  | FlushDb => OFlush
  | HttpPost _ _ => if stage1_req rq then OStage1 else OStage2
  end.

(** Request [c] is sent while the trace is in the state of its kind: after
    the instant that state is entered and before the next one. *)
Definition in_phase (tr : list (nat * ostate)) (c : nat * Req) : Prop :=
  exists i ti, tr !! i = Some (ti, phase c.2) /\ ti <= c.1 /\
    forall tj s', tr !! S i = Some (tj, s') -> c.1 < tj.

(** ** The states a run of the script passes through *)

Section Trace.
Context `{Server} `{Sampler}.

(** [utils.promiseMap({users: createUsers(), games: createGames()})] *)
Definition stage1 (cfg : Config) : P (list User * list jsval) :=
  promiseMap2 (createUsers (cfg_user_count cfg)) (createGames (cfg_games cfg)).

Definition run_trace (cfg : Config) (r : rng) (t : nat) : list (nat * ostate) :=
  let x1 := stage1 cfg t in
  (t, OStage1) ::
  match outcome x1 with
  | Resolved res =>
      let x2 := stage2 cfg r res (stime x1) in
      (stime x1, OStage2) ::
      match outcome x2 with
      | Resolved _ => [(stime x2, ODone (cfg_user_count cfg) (length (cfg_games cfg)))]
      | Rejected e => [(stime x2, OAborted e)]
      | Pending => []
      end
  | Rejected e => [(stime x1, OAborted e)]
  | Pending => []
  end.

Definition main_trace (cfg : Config) (r : rng) (t : nat) : list (nat * ostate) :=
  (t, OInit) ::
  if cfg_flush cfg then (t, OFlush) :: run_trace cfg r (t + S (latency FlushDb))
  else run_trace cfg r t.

End Trace.

(** ** Facts *)

(** A request the process sends is in the log and, if the run rejects,
    issued before the rejection ends the process. *)
Lemma issued_sub (x : exec (nat * nat)) c :
  c ∈ issued x -> c ∈ calls x /\ (forall e, outcome x = Rejected e -> c.1 < stime x).
Proof.
  unfold issued, exit_of. rewrite !list_elem_of_In.
  destruct (outcome x) as [[u g]|e|], (crash x) as [cr|]; simpl;
    try (intros Hc; split; [done|by intros ? ?]);
    try (destruct (stime x <? cr) eqn:Hlt);
    rewrite ?filter_In; intros [Hc Hb]; (split; [done|]); intros e' [= <-];
    apply Nat.ltb_lt in Hb; try apply Nat.ltb_ge in Hlt; lia.
Qed.

Lemma in_phase_cons tr e c : in_phase tr c -> in_phase (e :: tr) c.
Proof. intros (i & ti & Hi & Hle & Hnext). by exists (S i), ti. Qed.

Lemma path_cons2 {A} (R : relation A) t1 s1 t2 s2 tr :
  R s1 s2 -> t1 <= t2 -> path R ((t2, s2) :: tr) -> path R ((t1, s1) :: (t2, s2) :: tr).
Proof. done. Qed.

Lemma phase_stage1 rq : stage1_req rq = true -> phase rq = OStage1.
Proof. destruct rq; simpl; [by intros ->|done]. Qed.

Lemma phase_stage2 rq : stage1_req rq = false -> stage2_req rq = true -> phase rq = OStage2.
Proof. destruct rq; simpl; [by intros ->|done]. Qed.

#[export] Hint Resolve in_phase_cons path_cons2 : galaxy.

Section TraceFacts.
Context `{Server} `{Sampler}.

Lemma stage1_timely cfg : timely (stage1 cfg).
Proof. apply timely_promiseMap2; eauto with galaxy. Qed.

Lemma run_stage1 cfg r :
  run cfg r = then_ (then_ (stage1 cfg) (stage2 cfg r))
                (fun _ => resolve (cfg_user_count cfg, length (cfg_games cfg))).
Proof. reflexivity. Qed.

(** How [run] settles, by the outcomes of its two stages. *)
Lemma run_cases cfg r t :
  let x1 := stage1 cfg t in
  match outcome x1 with
  | Resolved res =>
      let x2 := stage2 cfg r res (stime x1) in
      match outcome x2 with
      | Resolved _ => outcome (run cfg r t) = Resolved (cfg_user_count cfg, length (cfg_games cfg)) /\
                      stime (run cfg r t) = stime x2
      | Rejected e => outcome (run cfg r t) = Rejected e /\ stime (run cfg r t) = stime x2
      | Pending => outcome (run cfg r t) = Pending
      end
  | Rejected e => outcome (run cfg r t) = Rejected e /\ stime (run cfg r t) = stime x1
  | Pending => outcome (run cfg r t) = Pending
  end.
Proof.
  rewrite run_stage1. cbv zeta. destruct (outcome (stage1 cfg t)) as [res|e|] eqn:H1.
  - pose proof (then_resolved _ (stage2 cfg r) _ _ H1) as Ho.
    pose proof (then_stime_resolved _ (stage2 cfg r) _ _ H1) as Hs.
    destruct (outcome (stage2 cfg r res _)) as [v|e|] eqn:H2; try rewrite H2 in Ho.
    + by rewrite (then_resolved _ _ _ _ Ho), (then_stime_resolved _ _ _ _ Ho), Hs.
    + by rewrite (then_rejected _ _ _ _ Ho), (then_stime_rejected _ _ _ _ Ho), Hs.
    + by rewrite (then_pending _ _ _ Ho).
  - pose proof (then_rejected _ (stage2 cfg r) _ _ H1) as Ho.
    by rewrite (then_rejected _ _ _ _ Ho), (then_stime_rejected _ _ _ _ Ho),
      (then_stime_rejected _ _ _ _ H1).
  - by rewrite (then_pending _ _ _ (then_pending _ (stage2 cfg r) _ H1)).
Qed.

(** [main] is [run], started after the flush's reply when it flushes. *)
Lemma main_exec cfg r t :
  let t' := if cfg_flush cfg then t + S (latency FlushDb) else t in
  outcome (main cfg r t) = outcome (run cfg r t') /\ stime (main cfg r t) = stime (run cfg r t') /\
  crash (main cfg r t) = crash (run cfg r t') /\
  calls (main cfg r t) = (if cfg_flush cfg then [(t, FlushDb)] else []) ++ calls (run cfg r t').
Proof. unfold main, request_post. by destruct (cfg_flush cfg). Qed.

End TraceFacts.

Section TraceLemmas.
Context `{Server} `{Sampler}.

Lemma run_trace_path f cfg r t : path (ostep f) (run_trace cfg r t).
Proof.
  unfold run_trace. cbv zeta.
  destruct (stage1_timely cfg t) as (Hge1 & _ & _).
  destruct (outcome (stage1 cfg t)) as [res|e|];
    [|apply path_cons2; [constructor|done|done]|done].
  destruct (stage2_timely cfg r res (stime (stage1 cfg t))) as (Hge2 & _ & _).
  apply path_cons2; [constructor|done|].
  destruct (outcome (stage2 cfg r res _)); [apply path_cons2; [constructor|done|done]..|done].
Qed.

Lemma path_run_trace f cfg r t t0 s0 :
  ostep f s0 OStage1 -> t0 <= t -> path (ostep f) ((t0, s0) :: run_trace cfg r t).
Proof.
  intros Hs Ht. pose proof (run_trace_path f cfg r t) as Hp.
  unfold run_trace in *. cbv zeta in *. cbn [path] in *. auto.
Qed.

(** Every request of [run] issued before the run ends is issued in the
    state of its kind. *)
Lemma run_trace_phases cfg r t c :
  c ∈ calls (run cfg r t) ->
  (forall e, outcome (run cfg r t) = Rejected e -> c.1 < stime (run cfg r t)) ->
  in_phase (run_trace cfg r t) c.
Proof.
  intros Hc Hrej. pose proof (run_cases cfg r t) as Hcases. cbv zeta in Hcases.
  rewrite run_calls in Hc. fold (stage1 cfg) in Hc.
  pose proof (stage1_calls_kind cfg t) as Hk1. fold (stage1 cfg) in Hk1. rewrite Forall_forall in Hk1.
  destruct (stage1_timely cfg t) as (_ & Hge1 & Hres1). rewrite Forall_forall in Hge1.
  unfold run_trace. cbv zeta.
  pose proof (stage2_calls_kind cfg r) as Hk2. pose proof (stage2_timely cfg r) as Ht2.
  set (x1 := stage1 cfg t) in *. clearbody x1.
  destruct (outcome x1) as [res|e|] eqn:H1.
  - apply elem_of_app in Hc as [Hc|Hc].
    + exists 0, t. rewrite (phase_stage1 _ (proj1 (Hk1 c Hc))). split_and!; [done|by apply Hge1|].
      intros tj s' [= <- _]. destruct (Hres1 res eq_refl) as [_ Har].
      eapply Forall_forall in Har; [|exact Hc]. unfold arrival in Har. lia.
    + specialize (Hk2 res (stime x1)). destruct (Ht2 res (stime x1)) as (_ & Hge2 & Hres2).
      set (x2 := stage2 cfg r res (stime x1)) in *. clearbody x2.
      rewrite Forall_forall in Hk2, Hge2. destruct (Hk2 c Hc) as [Hs2 Hs1].
      exists 1, (stime x1). rewrite (phase_stage2 _ Hs1 Hs2).
      split_and!; [done|by apply Hge2|].
      destruct (outcome x2) as [v|e|] eqn:H2; simpl; intros tj s' Hj; simplify_eq.
      * destruct (Hres2 v eq_refl) as [_ Har]. eapply Forall_forall in Har; [|exact Hc].
        unfold arrival in Har. lia.
      * destruct Hcases as [Ho Hs]. rewrite <- Hs. by apply (Hrej e).
  - rewrite app_nil_r in Hc. exists 0, t. rewrite (phase_stage1 _ (proj1 (Hk1 c Hc))).
    split_and!; [done|by apply Hge1|]. intros tj s' [= <- _].
    destruct Hcases as [Ho Hs]. rewrite <- Hs. by apply (Hrej e).
  - rewrite app_nil_r in Hc. exists 0, t. rewrite (phase_stage1 _ (proj1 (Hk1 c Hc))).
    split_and!; [done|by apply Hge1|done].
Qed.

End TraceLemmas.

(** ** Theorems *)

Section Refinement.
Context `{Server} `{Sampler}.

(** C12: Every run of the script is a run of the
    specification's machine: the states it passes through form a path
    of [ostep] from [Init] whose instants never decrease, and every
    request the process sends is sent while the machine is in the state
    of its kind (the flush in [Flush], users and games in [Stage1],
    friends and purchases in [Stage2]), at or after the instant that
    state is entered and before the instant it is left. *)
Theorem main_refines cfg r t :
  path (ostep (cfg_flush cfg)) (main_trace cfg r t) /\
  Forall (in_phase (main_trace cfg r t)) (issued (main cfg r t)).
Proof.
  destruct (main_exec cfg r t) as (Ho & Hs & _ & Hcalls). split.
  - unfold main_trace. destruct (cfg_flush cfg) eqn:Hf.
    + apply path_cons2; [by constructor|done|]. apply path_run_trace; [constructor|lia].
    + apply path_run_trace; [by constructor|done].
  - apply Forall_forall. intros c Hc. apply issued_sub in Hc as [Hc Hrej].
    rewrite Hcalls in Hc. rewrite Ho, Hs in Hrej. unfold main_trace.
    destruct (cfg_flush cfg); simpl in Hc.
    + apply elem_of_cons in Hc as [->|Hc].
      * exists 1, t. split_and!; [done|done|]. unfold run_trace. simpl. intros tj s' [= <- _]. lia.
      * by apply in_phase_cons, in_phase_cons, run_trace_phases.
    + by apply in_phase_cons, run_trace_phases.
Qed.

End Refinement.

(** ** The traces of the end-to-end runs of [Prefill] *)

(** Two users and one game, every call succeeding: stage 1 settles when
    the logins' replies arrive at 4, stage 2 when the accepts' replies
    arrive at 8. *)
Example e2e_trace :
  @main_trace ok_server lodash24_sampler cfg_two_one [0; 0; 0; 0; 0; 0] 0 =
  [(0, OInit); (0, OStage1); (4, OStage2); (8, ODone 2 1)].
Proof. vm_compute. reflexivity. Qed.

(** The generate call of [test0@test.com] fails at once: the machine
    aborts at 1, in stage 1. *)
Example abort_trace :
  @main_trace slow_server lodash24_sampler cfg_two_one [] 0 =
  [(0, OInit); (0, OStage1); (1, OAborted (RVal (JStr "Connection to assertion generator failed")))].
Proof. vm_compute. reflexivity. Qed.
