(* ===== verification/Wire.v ===== *)
(** * The wire contracts of the script's calls

    The specification's table of external interfaces (section 6) lists,
    for each call the script makes, the fields of its form-encoded
    request body.  [wire_call] names the calls, [classify] recognises a
    request by its URL, and [wire_ok] checks that the form carries
    exactly the fields of its call, each once.  The theorem
    [main_wire_ok] shows that every request a run of [main] issues meets
    the table, for every server and every random draw, provided each
    catalog entry names a [name] and an [app_url] and no field outside
    the table; the defaults supply [icons] and [screenshots].  The form
    encoding itself (the [request] library) is not modelled: a field
    whose value is [undefined] counts as present. *)

From S2P Require Import Prelude JsValue Promise Lodash Games Users Friends Purchases Prefill.
Local Open Scope galaxy_scope.

(** ** The table *)

Inductive wire_call : Type :=
| IssueAssertion | Login | FriendRequestCall | FriendAccept | GameSubmission | Purchase
| StoreFlush.

#[export] Instance wire_call_eq_dec : EqDecision wire_call.
Proof. solve_decision. Defined.

Definition wire_url (c : wire_call) : option string :=
  match c with
  | IssueAssertion => Some (PERSONA_ENDPOINT +:+ "/generate")
  | Login => Some (API_ENDPOINT +:+ "/user/login")
  | FriendRequestCall => Some (API_ENDPOINT +:+ "/user/friends/request")
  | FriendAccept => Some (API_ENDPOINT +:+ "/user/friends/accept")
  | GameSubmission => Some (API_ENDPOINT +:+ "/game/submit")
  | Purchase => Some (API_ENDPOINT +:+ "/user/purchase")
  | StoreFlush => None
  end.

Definition wire_fields (c : wire_call) : list string :=
  match c with
  | IssueAssertion => ["email"]
  | Login => ["assertion"; "audience"]
  | FriendRequestCall => ["_user"; "recipient"]
  | FriendAccept => ["_user"; "acceptee"]
  | GameSubmission => ["name"; "app_url"; "icons"; "screenshots"]
  | Purchase => ["_user"; "game"]
  | StoreFlush => []
  end.

Definition wire_calls : list wire_call :=
  [IssueAssertion; Login; FriendRequestCall; FriendAccept; GameSubmission; Purchase; StoreFlush].

(** The call a request is an instance of, by its URL. *)
Definition classify (rq : Req) : option wire_call :=
  head (List.filter (fun c => bool_decide (wire_url c = req_url rq)) wire_calls).

Definition form_keys (rq : Req) : list string :=
  match rq with HttpPost _ form => form.*1 | FlushDb => [] end.

(** The request is a call of the table and its form has exactly the
    fields of that call, each once. *)
Definition wire_ok (rq : Req) : bool :=
  match classify rq with
  | Some c => bool_decide (form_keys rq ≡ₚ wire_fields c)
  | None => false
  end.

(** A catalog entry names the game and its URL, each field once, and
    only fields of the submission call. *)
Definition catalog_entry_ok (g : jsobj) : bool :=
  bool_decide (NoDup g.*1 /\ "name" ∈ g.*1 /\ "app_url" ∈ g.*1 /\
               Forall (fun k => k ∈ wire_fields GameSubmission) g.*1).

(** ** Facts *)

(** A well-formed catalog entry merged with the defaults has exactly the
    fields of the submission call. *)
Lemma submit_keys_perm g :
  catalog_entry_ok g = true -> (defaults g default_params).*1 ≡ₚ wire_fields GameSubmission.
Proof.
  intros (Hnd & Hn & Ha & Hsub)%bool_decide_eq_true. rewrite Forall_forall in Hsub.
  apply NoDup_Permutation; [by apply defaults_NoDup|by apply (bool_decide_unpack _)|].
  intros k. rewrite defaults_keys. unfold default_params. simpl.
  rewrite !elem_of_cons, elem_of_nil. split; [|naive_solver].
  intros [Hk|Hk]; [|naive_solver]. specialize (Hsub k Hk). simpl in Hsub. rewrite !elem_of_cons, elem_of_nil in Hsub.
  naive_solver.
Qed.

Section WireTheorems.
Context `{Server} `{Sampler}.

(** C15: Every request a run of the script issues is a call of
    the specification's wire table whose form carries exactly the fields
    the table lists for it, each once; the flush carries none.  This
    holds on every server and for every random draw, as soon as every
    catalog entry names a [name] and an [app_url] and no field outside
    the submission call. *)
Theorem main_wire_ok cfg r t :
  Forall (fun g => catalog_entry_ok g = true) (cfg_games cfg) ->
  Forall (fun c => wire_ok c.2 = true) (calls (main cfg r t)).
Proof.
  intros Hcat. eapply Forall_impl; [apply main_calls_built|]. intros c Hb.
  destruct Hb as [| | |g Hg| | |]; try reflexivity.
  unfold wire_ok. simpl. apply bool_decide_eq_true, submit_keys_perm.
  rewrite Forall_forall in Hcat. by apply Hcat.
Qed.

End WireTheorems.

(** ** Witnesses *)

Lemma main_wire_ok_witness :
  Forall (fun g => catalog_entry_ok g = true) FAKE_GAMES /\
  Forall (fun c => wire_ok c.2 = true) (calls (@main ok_server lodash24_sampler (script_config true) [] 0)).
Proof.
  split; [repeat constructor|]. apply (@main_wire_ok ok_server lodash24_sampler). repeat constructor.
Defined.
