(* ===== verification/Timing.v ===== *)
(** * How long a run of the script lasts

    [within d p] says that [p], started at any instant [t], is over by
    [t + d]: it has settled, every exception it throws has been thrown,
    and the reply to every request it issued has arrived.  On a server
    whose latency is at most [L], the combinators compose the bound:
    a request adds one round trip [S L], a [.then] adds the bounds of
    its two halves, and [Promise.all] (or [utils.promiseMap]) takes the
    bound of its slowest branch, since every branch starts at once.  The
    theorem [main_time_bound] follows: a run is over within four round
    trips (generate, login, friend request, accept), plus one for the
    flush, whatever the number of users, the catalog, the replies and
    the random draws; the fan-out of each stage costs no time. *)

From S2P Require Import Prelude JsValue Promise Lodash Games Users Friends Purchases Prefill.
Local Open Scope galaxy_scope.

Definition within `{Server} {A} (d : nat) (p : P A) : Prop :=
  forall t,
    stime (p t) <= t + d /\
    (forall c, crash (p t) = Some c -> c <= t + d) /\
    Forall (fun c => arrival c <= t + d) (calls (p t)).

(** ** The combinators *)

Section WithinLaws.
Context `{Server}.

Lemma within_mono {A} d d' (p : P A) : d <= d' -> within d p -> within d' p.
Proof.
  intros Hd Hp t. destruct (Hp t) as (H1 & H2 & H3). split_and!; [lia| |].
  - intros c Hc. specialize (H2 c Hc). lia.
  - eapply Forall_impl; [exact H3|]. simpl; intros; lia.
Qed.

Lemma within_resolve {A} d (a : A) : within d (resolve a).
Proof. intros t. simpl. split_and!; [lia|done|constructor]. Qed.

Lemma within_reject {A} d e : within d (@reject A e).
Proof. intros t. simpl. split_and!; [lia|done|constructor]. Qed.

Lemma within_uncaught {A} d : within d (@uncaught A).
Proof. intros t. simpl. split_and!; [lia| |constructor]. intros c [= <-]. lia. Qed.

Lemma within_cb_let {A B} d (o : option A) (k : A -> P B) :
  (forall a, within d (k a)) -> within d (cb_let o k).
Proof. intros Hk. destruct o; [apply Hk|apply within_uncaught]. Qed.

Lemma within_then_let {A B} d (o : option A) e (k : A -> P B) :
  (forall a, within d (k a)) -> within d (then_let o e k).
Proof. intros Hk. destruct o; [apply Hk|apply within_reject]. Qed.

Lemma within_then {A B} d1 d2 (p : P A) (f : A -> P B) :
  within d1 p -> (forall a, within d2 (f a)) -> within (d1 + d2) (then_ p f).
Proof.
  intros Hp Hf t. unfold then_. destruct (Hp t) as (Hp1 & Hp2 & Hp3).
  destruct (outcome (p t)) as [a|e|] eqn:Ho; simpl;
    [|apply (within_mono d1); [lia|intros t'; apply Hp]..].
  destruct (Hf a (stime (p t))) as (Hf1 & Hf2 & Hf3). split_and!; [lia| |].
  - intros c [Hc|Hc]%omin_lower; [specialize (Hp2 c Hc)|specialize (Hf2 c Hc)]; lia.
  - apply Forall_app. split; eapply Forall_impl; [exact Hp3| |exact Hf3|]; simpl; intros; lia.
Qed.

Lemma within_settle_all {A} t d (rs : list (exec A)) :
  Forall (fun r => stime r <= t + d /\ (forall c, crash r = Some c -> c <= t + d) /\
                   Forall (fun c => arrival c <= t + d) (calls r)) rs ->
  let s := settle_all t rs in
  stime s <= t + d /\ (forall c, crash s = Some c -> c <= t + d) /\
  Forall (fun c => arrival c <= t + d) (calls s).
Proof.
  intros Hrs s. rewrite Forall_forall in Hrs.
  assert (Hcr : forall c, omin_list (crash <$> rs) = Some c -> c <= t + d).
  { intros c Hc%omin_list_elem. apply list_elem_of_fmap in Hc as (r & Hr & Hin).
    by apply (Hrs r Hin). }
  assert (Hcs : Forall (fun c => arrival c <= t + d) (concat (calls <$> rs))).
  { apply Forall_concat, Forall_fmap, Forall_forall. intros r Hin. apply Hrs, Hin. }
  assert (Hmax : list_max (t :: (stime <$> rs)) <= t + d).
  { apply Nat.max_lub; [lia|]. apply list_max_le, Forall_fmap, Forall_forall.
    intros r Hin. apply Hrs, Hin. }
  subst s. unfold settle_all. destruct (first_rejection rs) as [[e te]|] eqn:Hf.
  - destruct (first_rejection_sound _ _ _ Hf) as (r & Hin & _ & <-). simpl.
    split_and!; [apply Hrs, Hin|done|done].
  - destruct (all_resolved rs); simpl; split_and!; done.
Qed.

Lemma within_all {A} d (ps : list (P A)) : Forall (within d) ps -> within d (all ps).
Proof.
  intros Hps t. apply within_settle_all, Forall_fmap.
  eapply Forall_impl; [exact Hps|]. intros p Hp. apply Hp.
Qed.

Lemma within_all_fmap {A B} d (f : A -> P B) (l : list A) :
  (forall x, within d (f x)) -> within d (all (f <$> l)).
Proof. intros Hf. apply within_all, Forall_fmap, Forall_forall. intros; apply Hf. Qed.

Lemma within_promiseMap2 {A B} d (p : P A) (q : P B) :
  within d p -> within d q -> within d (promiseMap2 p q).
Proof.
  intros Hp Hq t. unfold promiseMap2. simpl.
  destruct (Hp t) as (Hp1 & Hp2 & Hp3), (Hq t) as (Hq1 & Hq2 & Hq3).
  apply within_settle_all. repeat apply Forall_cons_2; [..|apply Forall_nil_2]; by unfold erase.
Qed.

(** A request whose reply comes within [L] costs one round trip. *)
Lemma within_request_post {A} L d rq (k : resp -> P A) :
  latency rq <= L -> (forall r, within d (k r)) -> within (S L + d) (request_post rq k).
Proof.
  intros HL Hk t. unfold request_post. simpl.
  destruct (Hk (respond rq) (t + S (latency rq))) as (H1 & H2 & H3). split_and!; [lia| |].
  - intros c Hc. specialize (H2 c Hc). lia.
  - constructor; [unfold arrival; simpl; lia|]. eapply Forall_impl; [exact H3|]. simpl; intros; lia.
Qed.

End WithinLaws.

(** [solve_within] proves [within d c] for a callback or reaction [c]
    that issues no request, splitting on its tests. *)
Ltac solve_within :=
  repeat match goal with
  | |- forall _, _ => intros
  | |- within _ (cb_let _ _) => apply within_cb_let
  | |- within _ (then_let _ _ _) => apply within_then_let
  | |- within _ (resolve _) => apply within_resolve
  | |- within _ (reject _) => apply within_reject
  | |- within _ uncaught => apply within_uncaught
  | |- within _ (if ?b then _ else _) => destruct b
  | |- within _ (match ?x with _ => _ end) => destruct x
  end.

(** ** The stages *)

Section ScriptBounds.
Context `{Server} `{Sampler}.
(** The latency of every request is at most [L]: a round trip takes at
    most [S L]. *)
Variable L : nat.
Hypothesis HL : forall rq, latency rq <= L.

Lemma request_within {A} rq (k : resp -> P A) :
  (forall r, within 0 (k r)) -> within (S L) (request_post rq k).
Proof. intros Hk. rewrite <- (Nat.add_0_r (S L)). by apply within_request_post. Qed.

(** [createUser(email).then(login)]: two round trips. *)
Lemma user_within e : within (2 * S L) (then_ (createUser e) login).
Proof.
  replace (2 * S L) with (S L + S L) by lia.
  apply within_then; [|intros]; apply request_within; solve_within.
Qed.

Lemma createUsers_within n : within (2 * S L) (createUsers n).
Proof. apply within_all_fmap. intros i. apply user_within. Qed.

Lemma submitGame_within g : within (S L) (submitGame g).
Proof.
  rewrite <- (Nat.add_0_r (S L)). apply within_then; [apply request_within|]; solve_within.
Qed.

Lemma createGames_within games : within (S L) (createGames games).
Proof. apply within_all_fmap, submitGame_within. Qed.

(** Stage 1 is over within two round trips. *)
Lemma stage1_within cfg :
  within (2 * S L) (promiseMap2 (createUsers (cfg_user_count cfg)) (createGames (cfg_games cfg))).
Proof.
  apply within_promiseMap2; [apply createUsers_within|].
  apply (within_mono (S L)); [lia|apply createGames_within].
Qed.

Lemma acceptRequest_within fr : within (S L) (acceptRequest fr).
Proof.
  unfold acceptRequest. destruct (fr_user fr), (fr_recipient fr); try apply within_resolve.
  apply request_within. solve_within.
Qed.

(** A user's batch: its requests, then the accepts. *)
Lemma branch_within user rcs :
  within (2 * S L) (then_ (all (sendRequest user <$> rcs)) acceptRequests).
Proof.
  replace (2 * S L) with (S L + S L) by lia. apply within_then.
  - apply within_all_fmap. intros rc. apply request_within. solve_within.
  - intros frs. apply within_all_fmap, acceptRequest_within.
Qed.

Lemma createFriends_within N users r : within (2 * S L) ((createFriends N users r).1).
Proof.
  unfold createFriends. pose proof (friend_branches_spec N users users r) as Hs.
  destruct (friend_branches N users users r) as [ps r']. simpl in Hs. cbn [fst].
  rewrite <- (Nat.add_0_r (2 * S L)). apply within_then; [|intros; apply within_resolve].
  apply within_all. induction Hs as [|u b todo bs (rcs & _ & _ & ->) _ IH]; constructor; [|done].
  apply branch_within.
Qed.

Lemma purchaseGames_within userSSAs gameSlugs r :
  within (S L) ((purchaseGames userSSAs gameSlugs r).1).
Proof.
  unfold purchaseGames. destruct (purchase_promises_spec userSSAs gameSlugs r) as (plan & _ & Heq).
  destruct (purchase_promises userSSAs gameSlugs r) as [ps r']. simpl in Heq. subst ps. cbn [fst].
  apply within_all, Forall_forall. intros p Hp.
  destruct (purchase_promise_elem _ _ _ Hp) as (u & g & ->). apply request_within. solve_within.
Qed.

(** Stage 2 is over within two round trips. *)
Lemma stage2_within cfg r res : within (2 * S L) (stage2 cfg r res).
Proof.
  destruct res as [users games]. unfold stage2. apply within_then_let. intros slugs.
  pose proof (createFriends_within (cfg_user_count cfg) users
                (purchaseGames (token <$> users) slugs r).2) as Hf.
  pose proof (purchaseGames_within (token <$> users) slugs r) as Hp.
  destruct (purchaseGames _ slugs r) as [pp r1]. simpl in Hf, Hp.
  destruct (createFriends _ users r1) as [fp r2]. apply within_promiseMap2; [done|].
  apply (within_mono (S L)); [lia|done].
Qed.

Lemma run_within cfg r : within (4 * S L) (run cfg r).
Proof.
  unfold run. replace (4 * S L) with ((2 * S L + 2 * S L) + 0) by lia.
  apply within_then; [apply within_then|intros; apply within_resolve].
  - apply stage1_within.
  - intros; apply stage2_within.
Qed.

End ScriptBounds.

(** ** The bound on a run *)

Section TimeBound.
Context `{Server} `{Sampler}.

(** C11: On a server that answers every request within
    [L] time units, a run of the script started at [t] is over by
    [t + D], with [D] four round trips [4 * S L], plus one for the flush
    when [FLUSH_DB_ON_PREFILL] is set: by then it has settled, any
    uncaught exception has been thrown, and the reply to every request
    it issued has arrived.  [D] depends neither on [USER_COUNT] nor on
    the catalog, the replies or the random draws: every stage fans its
    requests out at once, and only generate, login, friend request and
    accept follow one another. *)
Theorem main_time_bound L cfg r t :
  (forall rq, latency rq <= L) ->
  let D := (if cfg_flush cfg then S L else 0) + 4 * S L in
  stime (main cfg r t) <= t + D /\
  (forall c, crash (main cfg r t) = Some c -> c <= t + D) /\
  Forall (fun c => arrival c <= t + D) (calls (main cfg r t)).
Proof.
  intros HL D. subst D. unfold main. destruct (cfg_flush cfg).
  - apply within_request_post; [apply HL|]. intros _. by apply run_within.
  - by apply (run_within L HL).
Qed.

End TimeBound.

(** ** Witness *)

(** On the test server (latency 1) the bound, 8, is reached: the run
    with two users and one game ends exactly at instant 8. *)
Lemma main_time_bound_witness :
  stime (@main ok_server lodash24_sampler cfg_two_one [0; 0] 0) = 8 /\
  stime (@main ok_server lodash24_sampler cfg_two_one [0; 0] 0) <= 0 + (0 + 4 * S 1).
Proof.
  split; [reflexivity|].
  destruct (@main_time_bound ok_server lodash24_sampler 1 cfg_two_one [0; 0] 0) as [Hs _];
    [intros rq; reflexivity|exact Hs].
Defined.
