(* ===== verification/Loops.v ===== *)
(** * The loops of db-prefill.js, as the script writes them

    The stage files model each loop of the script by the list it builds
    ([seq], [fmap] and structural recursion).  This file models the
    loops literally, with the array [promises] the script pushes into:
    - [for_loop]: [for (var i = i0; i < n; i++) body], by well-founded
      recursion on [n - i] (Equations), with its small-step relation
      [for_step]; [createUsers_loop] is the loop of [createUsers];
    - [each]: lodash's [_.each(collection, callback)], the callback
      threading the state it shares with the others (the [promises]
      array, and the random draws that [_.sample] consumes);
      [games_loop], [purchase_loop] and [friends_loop] are the loops of
      [createGames], [purchaseGames] and [createFriends];
    - [games_loop_heap]: the loop of [createGames] over a heap of
      objects, where [_.defaults(game, default_params)] mutates the
      catalog entry in place and the catalog may list one object twice.
    Lemmas relate each literal loop to the stage's definition (the same
    promises in the same order, with the same draws) and count the
    iterations of the [for] loop; they justify reading the stages'
    definitions as the script's loops.  The theorem of the file shows
    that the in-place merge submits the same forms as the pure one
    whatever the aliasing of the catalog, and that afterwards exactly the
    catalog entries it visited are changed. *)

From stdpp Require Import gmap.
From Equations Require Import Equations.
From S2P Require Import Prelude JsValue Promise Lodash Games Users Friends Purchases.
Local Open Scope galaxy_scope.

(** ** The [for] loop *)

(** [promises.push(x)]. *)
Definition push {A} (x : A) (promises : list A) : list A := promises ++ [x].

(** [for (var i = i0; i < n; i++) { body }], the body changing the state [s]. *)
Equations? for_loop {St} (n : nat) (body : nat -> St -> St) (i : nat) (s : St) : St
  by wf (n - i) lt :=
  for_loop n body i s with lt_dec i n => {
    | left _ => for_loop n body (S i) (body i s);
    | right _ => s }.
Proof. lia. Qed.

(** One iteration of the loop: the test [i < n] holds, the body runs,
    then [i++]. *)
Inductive for_step {St} (n : nat) (body : nat -> St -> St) : nat * St -> nat * St -> Prop :=
| for_iter i s : i < n -> for_step n body (i, s) (S i, body i s).

(** [var promises = [];
     for (var i = 0; i < USER_COUNT; i++)
       promises.push(createUser('test' + i + '@test.com').then(login));
     return Promise.all(promises);] *)
Definition createUsers_loop `{Server} (USER_COUNT : nat) : P (list User) :=
  all (for_loop USER_COUNT
         (fun i promises => push (then_ (createUser (test_email i)) login) promises) 0 []).

(** ** [_.each] *)

(** [_.each(collection, callback)] (lodash 2.4): the callback runs on the
    elements in order; [s] is the state the callbacks share. *)
Fixpoint each {A St} (collection : list A) (callback : A -> St -> St) (s : St) : St :=
  match collection with
  | [] => s
  | x :: collection' => each collection' callback (callback x s)
  end.

Section EachLoops.
Context `{Server} `{Sampler}.

(** [var promises = [];
     _.each(FAKE_GAMES, function(game) { promises.push(new Promise(...).then(JSON.parse)); });
     return Promise.all(promises);] *)
Definition games_loop (FAKE_GAMES : list jsobj) : P (list jsval) :=
  all (each FAKE_GAMES (fun game promises => push (submitGame game) promises) []).

(** [var promises = [];
     _.each(userSSAs, function(user) {
       _.each(_.sample(gameSlugs, 2), function(game) { promises.push(newPurchase(user, game)); });
     });] *)
Definition purchase_loop (userSSAs gameSlugs : list jsval) (r : rng) : list (P body) * rng :=
  each userSSAs (fun user '(promises, r) =>
    let '(games, r') := sample gameSlugs 2 r in
    (each games (fun game promises => push (newPurchase user game) promises) promises, r'))
    ([], r).

(** [var promises = [];
     _.each(users, function(user) {
       promises.push(sendRequests(user).then(function(requests) { ... }));
     });] *)
Definition friends_loop (USER_COUNT : nat) (users : list User) (r : rng)
    : list (P (list FriendRequest)) * rng :=
  each users (fun user '(promises, r) =>
    let '(p, r') := sendRequests USER_COUNT users user r in
    (push (then_ p acceptRequests) promises, r')) ([], r).

End EachLoops.

(** ** The catalog on a heap *)

(** The objects of the script live at locations of a heap; the array
    [FAKE_GAMES] holds references to them, possibly twice the same. *)


(** [_.defaults(game, default_params)] with [game] the object at [l]:
    the merge is written back into the object, which is returned. *)
Definition defaults_at (l : nat) (h : gmap nat jsobj) : jsobj * gmap nat jsobj :=
  let o := defaults (h !!! l) default_params in (o, <[l := o]> h).

(** The loop of [createGames] on the heap: each object is merged in
    place and the merged object is the form of its submission. *)
Definition games_loop_heap `{Server} (FAKE_GAMES : list nat) (h : gmap nat jsobj) : P (list jsval) * gmap nat jsobj :=
  let '(promises, h') :=
    each FAKE_GAMES (fun game '(promises, h) =>
      let '(form, h') := defaults_at game h in (push (submitForm form) promises, h')) ([], h) in
  (all promises, h').

(** ** Facts on [for_loop] *)

(** The loop runs the body on [i0], ..., [n - 1], in order. *)
Lemma for_loop_fold {St} n (body : nat -> St -> St) i s :
  for_loop n body i s = foldl (fun s j => body j s) s (seq i (n - i)).
Proof.
  funelim (for_loop n body i s).
  - rewrite H. by replace (n - i) with (S (n - S i)) by lia.
  - by replace (n - i) with 0 by lia.
Qed.

Lemma foldl_push {A B} (f : B -> A) (l : list B) promises :
  foldl (fun s x => push (f x) s) promises l = promises ++ (f <$> l).
Proof.
  revert promises. induction l as [|x l IH]; intros promises; simpl; [by rewrite app_nil_r|].
  rewrite IH. unfold push. by rewrite <- app_assoc.
Qed.

(** ** Facts on [_.each] *)

Lemma each_foldl {A St} (l : list A) (callback : A -> St -> St) s :
  each l callback s = foldl (fun s x => callback x s) s l.
Proof. revert s. induction l; simpl; auto. Qed.

Lemma each_push {A B} (f : A -> B) l promises :
  each l (fun x promises => push (f x) promises) promises = promises ++ (f <$> l).
Proof. rewrite each_foldl. apply (foldl_push f). Qed.

Section EachFacts.
Context `{Server} `{Sampler}.

Lemma purchase_loop_acc userSSAs gameSlugs promises r :
  each userSSAs (fun user '(promises, r) =>
    let '(games, r') := sample gameSlugs 2 r in
    (each games (fun game promises => push (newPurchase user game) promises) promises, r'))
    (promises, r) =
  let '(ps, r') := purchase_promises userSSAs gameSlugs r in (promises ++ ps, r').
Proof.
  revert promises r. induction userSSAs as [|u us IH]; intros promises r; simpl.
  - by rewrite app_nil_r.
  - destruct (sample gameSlugs 2 r) as [games r1]. rewrite each_push, IH.
    destruct (purchase_promises us gameSlugs r1). by rewrite app_assoc.
Qed.

Lemma friends_loop_acc N users todo promises r :
  each todo (fun user '(promises, r) =>
    let '(p, r') := sendRequests N users user r in
    (push (then_ p acceptRequests) promises, r')) (promises, r) =
  let '(ps, r') := friend_branches N users todo r in (promises ++ ps, r').
Proof.
  revert promises r. induction todo as [|u todo IH]; intros promises r; simpl.
  - by rewrite app_nil_r.
  - destruct (sendRequests N users u r) as [p r1]. rewrite IH.
    destruct (friend_branches N users todo r1). unfold push. by rewrite <- app_assoc.
Qed.

Lemma default_params_NoDup : NoDup default_params.*1.
Proof. by apply (bool_decide_unpack _). Qed.

Lemma defaults_at_lookup l h l' :
  (defaults_at l h).2 !!! l' = if decide (l = l') then defaults (h !!! l) default_params else h !!! l'.
Proof.
  unfold defaults_at; cbn [snd]. destruct (decide (l = l')) as [<-|Hne].
  - rewrite lookup_total_insert. by rewrite decide_True.
  - rewrite lookup_total_insert_ne by done. by rewrite ?decide_False.
Qed.

(** Merging the object at [l] in place does not change the submission
    of any object: the one at [l] is merged again without effect. *)
Lemma submitGame_defaults_at l h l' :
  submitGame ((defaults_at l h).2 !!! l') = submitGame (h !!! l').
Proof.
  rewrite defaults_at_lookup. unfold submitGame. case_decide; subst; [|done].
  by rewrite defaults_idem by apply default_params_NoDup.
Qed.

Lemma games_loop_heap_acc ls promises h :
  each ls (fun game '(promises, h) =>
    let '(form, h') := defaults_at game h in (push (submitForm form) promises, h')) (promises, h) =
  (promises ++ ((fun l => submitGame (h !!! l)) <$> ls),
   foldl (fun h l => (defaults_at l h).2) h ls).
Proof.
  revert promises h. induction ls as [|l ls IH]; intros promises h; simpl.
  - by rewrite app_nil_r.
  - rewrite IH. f_equal. unfold push. rewrite <- app_assoc. f_equal. f_equal.
    apply list_fmap_ext. intros _ l' _. apply submitGame_defaults_at.
Qed.

Lemma foldl_defaults_at ls h l :
  foldl (fun h l => (defaults_at l h).2) h ls !!! l =
  if decide (l ∈ ls) then defaults (h !!! l) default_params else h !!! l.
Proof.
  revert h. induction ls as [|l0 ls IH]; intros h; cbn [foldl].
  - rewrite decide_False; [done|apply not_elem_of_nil].
  - rewrite IH, !defaults_at_lookup. pose proof default_params_NoDup.
    repeat case_decide; subst; rewrite ?elem_of_cons in *;
      first [by rewrite defaults_idem | naive_solver].
Qed.

End EachFacts.

(** ** The [for] loop of [createUsers] *)

(** The [for] loop terminates: from [i = i0] it takes
    exactly [n - i0] iterations of its small-step relation and stops in
    the state [for_loop] computes, where the test [i < n] fails, so no
    further iteration is possible. *)
Lemma for_loop_terminates {St} n (body : nat -> St -> St) i s :
  nsteps (for_step n body) (n - i) (i, s) (i `max` n, for_loop n body i s) /\
  forall st, ~ for_step n body (i `max` n, for_loop n body i s) st.
Proof.
  funelim (for_loop n body i s).
  - destruct H as [Hn Hstop]. replace (S i `max` n) with (i `max` n) in * by lia.
    split; [|done]. replace (n - i) with (S (n - S i)) by lia.
    eapply nsteps_l; [by constructor|exact Hn].
  - replace (n - i) with 0 by lia. replace (i `max` n) with i by lia.
    split; [constructor|]. intros st Hst. inversion Hst. lia.
Qed.

(** The literal loop of [createUsers], which pushes
    [createUser('test' + i + '@test.com').then(login)] into [promises] for
    [i = 0 .. USER_COUNT - 1] and joins them, is the computation
    [createUsers] of the stage: the same promises in the same order, so
    the same requests at the same instants and the same outcome. *)
Lemma createUsers_loop_equiv `{Server} n : createUsers_loop n = createUsers n.
Proof.
  unfold createUsers_loop, createUsers. rewrite for_loop_fold, Nat.sub_0_r.
  by rewrite (foldl_push (fun i => then_ (createUser (test_email i)) login)).
Qed.

(** ** The [_.each] loops *)

Section EachTheorems.
Context `{Server} `{Sampler}.

(** The literal [_.each] loops of [createGames],
    [purchaseGames] and [createFriends], which push into the shared array
    [promises] and draw from [Math.random] in the order the callbacks
    run, build exactly the promises of the stage definitions, in the same
    order, and leave the same random draws to the code that follows. *)
Lemma each_loops_equiv games userSSAs gameSlugs N users r :
  games_loop games = createGames games /\
  purchase_loop userSSAs gameSlugs r = purchase_promises userSSAs gameSlugs r /\
  friends_loop N users r = friend_branches N users users r.
Proof.
  split; [|split].
  - unfold games_loop, createGames. by rewrite each_push.
  - unfold purchase_loop. rewrite purchase_loop_acc. by destruct (purchase_promises _ _ _).
  - unfold friends_loop. rewrite friends_loop_acc. by destruct (friend_branches _ _ _ _).
Qed.

(** C24: [_.defaults(game, default_params)] merges the
    defaults into the catalog entry itself.  Run on a heap where the
    array [FAKE_GAMES] holds references, possibly the same object twice,
    the loop of [createGames] submits the same forms as the merge on
    fresh values (the stage's definition), and afterwards every object
    the array references holds its merged form while every other object
    is untouched. *)
Theorem createGames_in_place ls h :
  (games_loop_heap ls h).1 = createGames ((h !!!.) <$> ls) /\
  forall l, (games_loop_heap ls h).2 !!! l =
            if decide (l ∈ ls) then defaults (h !!! l) default_params else h !!! l.
Proof.
  unfold games_loop_heap. rewrite games_loop_heap_acc. simpl. split.
  - unfold createGames. by rewrite <- list_fmap_compose.
  - apply foldl_defaults_at.
Qed.

End EachTheorems.
