(* ===== verification/Routes.v ===== *)
(** * The routes of the API and how a request reaches a handler

    [src/views/user/purchase.js] and [src/views/game/detail.js] export a
    function of the restify server that registers one route each: the
    method, the URL pattern, the swagger documentation and, for the
    purchase, the validation of its parameters ([purchase_route],
    [detail_route], [purchase_module], [detail_module]).  What restify
    and its validation plugin do with a route is not code of the
    repository; it is modelled after their documented behaviour:
    - a URL pattern is split at ['/'] into segments, a segment [:name]
      binds the request's segment at its place to the parameter [name]
      ([match_path]), and [req.params] holds the bound parameters, then
      the fields of the form ([dispatch]);
    - a route whose validation is enforced answers a request that lacks
      a parameter marked [isRequired] with the plugin's error response
      (a Section parameter), before the handler runs;
    - a request that matches no route is answered 404.
    [serve] runs the API on a sequence of requests.  The theorems: the
    route table is exactly [POST /user/purchase] and
    [GET /game/<slug>/detail] (with [slug] bound), every other request
    matching no route; every purchase the prefill script issues is
    rejected by the validation of the route, which leaves the store
    unchanged, and without the validation the script's purchases, in any
    number, write only [gamesPurchased:undefined]; and every store a run of the API leaves holds only
    non-empty sets under keys [gamesPurchased:<email>] (an invariant of
    [serve]). *)

From S2P Require Import Prelude JsValue Promise Lodash Users Purchases Prefill Handlers.
From stdpp Require Import gmap.
From Stdlib Require Import Ascii.
Local Open Scope galaxy_scope.

(** ** Routes *)

Inductive method : Type := GET | POST.

#[export] Instance method_eq_dec : EqDecision method.
Proof. solve_decision. Defined.

(** An entry of the [validation] object of a route. *)
Record param_rule : Type := ParamRule {
  description : string;
  isRequired : bool
}.

(** The handler a route runs. *)
Inductive view : Type := PurchaseView | DetailView.

Record route : Type := Route {
  route_method : method;
  url : string;
  nickname : string;
  notes : string;
  summary : string;
  validation : list (string * param_rule);
  route_view : view
}.

(** [server.post({url: '/user/purchase', swagger: {...}, validation: {...}}, ...)] *)
Definition purchase_route : route := {|
  route_method := POST;
  url := "/user/purchase";
  nickname := "purchase";
  notes := "Record that a user has purchased this game";
  summary := "Purchase game";
  validation := [("user", ParamRule "User (ID or username slug)" true);
                 ("game", ParamRule "Game (ID or slug)" true)];
  route_view := PurchaseView
|}.

(** [server.get({url: '/game/:slug/detail', swagger: {...}}, db.redisView(...))] *)
Definition detail_route : route := {|
  route_method := GET;
  url := "/game/:slug/detail";
  nickname := "detail";
  notes := "Specific details and metadata about a game";
  summary := "Game Details";
  validation := [];
  route_view := DetailView
|}.

(** [module.exports = function(server) { server.post(...); }]: the
    server is its table of routes. *)
Definition purchase_module (server : list route) : list route := server ++ [purchase_route].
Definition detail_module (server : list route) : list route := server ++ [detail_route].

(** ** Paths *)

Definition slash : Ascii.ascii := "/"%char.
Definition colon : Ascii.ascii := ":"%char.

(** The first segment of a path and the segments after it. *)
Fixpoint split_path (s : string) : string * list string :=
  match s with
  | EmptyString => ("", [])
  | String c s' =>
      let '(seg, rest) := split_path s' in
      if Ascii.eqb c slash then ("", seg :: rest) else (String c seg, rest)
  end.

Definition segments (s : string) : list string :=
  let '(seg, rest) := split_path s in seg :: rest.

(** The inverse: the segments joined by ['/']. *)
Fixpoint join_path (seg : string) (rest : list string) : string :=
  match rest with
  | [] => seg
  | seg' :: rest' => seg +:+ String slash (join_path seg' rest')
  end.

(** A pattern segment [:name] names a parameter. *)
Definition param_name (seg : string) : option string :=
  match seg with
  | String c name => if Ascii.eqb c colon then Some name else None
  | EmptyString => None
  end.

Fixpoint match_segments (pat path : list string) : option jsobj :=
  match pat, path with
  | [], [] => Some []
  | p :: pat', s :: path' =>
      match param_name p with
      | Some name => (fun ps => (name, JStr s) :: ps) <$> match_segments pat' path'
      | None => if String.eqb p s then match_segments pat' path' else None
      end
  | _, _ => None
  end.

(** The parameters a path binds when it matches a pattern. *)
Definition match_path (pattern path : string) : option jsobj :=
  match_segments (segments pattern) (segments path).

(** The parameter names of a pattern, in order. *)
Definition param_names (pattern : string) : list string := omap param_name (segments pattern).

(** The path a pattern gives with its parameters filled in order. *)
Fixpoint fill_segments (pat : list string) (vals : list string) : list string :=
  match pat with
  | [] => []
  | p :: pat' =>
      match param_name p, vals with
      | Some _, v :: vals' => v :: fill_segments pat' vals'
      | Some _, [] => p :: fill_segments pat' []
      | None, _ => p :: fill_segments pat' vals
      end
  end.

Definition fill_path (pattern : string) (vals : list string) : string :=
  match fill_segments (segments pattern) vals with
  | [] => ""
  | seg :: rest => join_path seg rest
  end.

(** A segment of a request path holds no ['/']. *)
Fixpoint no_slash (s : string) : bool :=
  match s with
  | EmptyString => true
  | String c s' => negb (Ascii.eqb c slash) && no_slash s'
  end.

(** ** Requests and dispatch *)

Record request : Type := Request {
  req_method : method;
  req_path : string;
  req_params : jsobj
}.

(** The first route of the table whose method and pattern the request
    matches, with the parameters its path binds. *)
Fixpoint find_route (rs : list route) (m : method) (path : string) : option (route * jsobj) :=
  match rs with
  | [] => None
  | r :: rs' =>
      match (if decide (route_method r = m) then match_path (url r) path else None) with
      | Some ps => Some (r, ps)
      | None => find_route rs' m path
      end
  end.

(** The first parameter marked [isRequired] that [req.params] lacks. *)
Definition missing_param (rules : list (string * param_rule)) (params : jsobj) : option string :=
  head (omap (fun kr : string * param_rule =>
                if isRequired kr.2 && is_undef (field kr.1 params) then Some kr.1 else None) rules).

(** The request a call of the prefill script makes to the API: its URL
    less [API_ENDPOINT], its form as the parameters. *)
Fixpoint strip_prefix (p s : string) : option string :=
  match p, s with
  | EmptyString, _ => Some s
  | String c p', String d s' => if Ascii.eqb c d then strip_prefix p' s' else None
  | String _ _, EmptyString => None
  end.

Definition of_script (rq : Req) : option request :=
  match rq with
  | HttpPost u form => (fun path => Request POST path form) <$> strip_prefix API_ENDPOINT u
  | FlushDb => None
  end.

(** The route table of the API: the two views registered on the server. *)
Definition api_routes : list route := detail_module (purchase_module []).

Section Api.
(** What the handlers call outside [src/] (see [Handlers]). *)
Variable confirmSSA : jsval -> jsval.
Variable getGameFromSlug : jsval -> jsval * jsval.
(** The [err] the [SADD] callback of a purchase receives. *)
Variable sadd_err : jsobj -> bool.
(** Whether the validation plugin checks the [validation] of the
    routes, and its answer to a missing parameter. *)
Variable enforce : bool.
Variable validation_error : string -> response.

Definition run_view (v : view) (params : jsobj) : H unit :=
  match v with
  | PurchaseView => purchase confirmSSA params (sadd_err params)
  | DetailView => detail getGameFromSlug params
  end.

Definition dispatch (rs : list route) (rq : request) : H unit :=
  match find_route rs (req_method rq) (req_path rq) with
  | None => json 404 (error_body "ResourceNotFound")
  | Some (r, path_params) =>
      let params := path_params ++ req_params rq in
      match (if enforce then missing_param (validation r) params else None) with
      | Some k => json (status (validation_error k)) (payload (validation_error k))
      | None => run_view (route_view r) params
      end
  end.

(** The API serving requests one after the other. *)
Fixpoint serve (rs : list route) (rqs : list request) : H unit :=
  match rqs with
  | [] => mret tt
  | rq :: rqs' => dispatch rs rq ;; serve rs rqs'
  end.

End Api.

(** The store the handlers keep: non-empty sets under the keys
    [gamesPurchased:<email>]. *)
Definition store_wf (st : store) : Prop :=
  map_Forall (fun k X => String.prefix "gamesPurchased:" k = true /\ X <> ∅) st.

(** ** Facts on paths *)

Lemma split_path_app s t :
  no_slash s = true -> split_path (s +:+ t) = (s +:+ (split_path t).1, (split_path t).2).
Proof.
  induction s as [|c s IH]; rewrite ?string_app_nil_l, ?string_app_cons; simpl;
    [by destruct (split_path t)|].
  intros [Hc%negb_true_iff Hs]%andb_prop. rewrite IH by done. by rewrite Hc.
Qed.

Lemma segments_join seg rest :
  Forall (fun x => no_slash x = true) (seg :: rest) -> segments (join_path seg rest) = seg :: rest.
Proof.
  revert seg. induction rest as [|seg' rest IH]; intros seg Hns;
    apply Forall_cons in Hns as [Hseg Hrest]; unfold segments; simpl.
  - pose proof (split_path_app seg "" Hseg) as Hs. simpl in Hs. rewrite string_app_nil_r in Hs.
    by rewrite Hs.
  - rewrite split_path_app by done. simpl. specialize (IH seg' Hrest). unfold segments in IH.
    destruct (split_path (join_path seg' rest)). simplify_eq. by rewrite string_app_nil_r.
Qed.

Lemma segments_no_slash s : Forall (fun x => no_slash x = true) (segments s).
Proof.
  unfold segments. induction s as [|c s IH]; simpl; [by repeat constructor|].
  destruct (split_path s) as [seg rest]. apply Forall_cons in IH as [Hseg Hrest].
  destruct (Ascii.eqb c slash) eqn:Hc; repeat constructor; try done. simpl. by rewrite Hc.
Qed.

Lemma fill_segments_no_slash pat vals :
  Forall (fun x => no_slash x = true) pat -> Forall (fun x => no_slash x = true) vals ->
  Forall (fun x => no_slash x = true) (fill_segments pat vals).
Proof.
  revert vals. induction pat as [|p pat IH]; intros vals Hp Hv; simpl; [done|].
  apply Forall_cons in Hp as [Hp0 Hp]. destruct (param_name p), vals as [|v vals];
    try apply Forall_cons in Hv as [Hv0 Hv]; constructor; auto.
Qed.

Lemma match_fill_segments pat vals :
  length vals = length (omap param_name pat) ->
  match_segments pat (fill_segments pat vals) =
  Some (zip_with (fun n v => (n, JStr v)) (omap param_name pat) vals).
Proof.
  revert vals. induction pat as [|p pat IH]; intros vals Hl; simpl in *.
  - by destruct vals.
  - destruct (param_name p) as [n|] eqn:Hp; simpl in *.
    + destruct vals as [|v vals]; simpl in *; [lia|]. rewrite IH; [done|by injection Hl].
    + rewrite String.eqb_refl. by apply IH.
Qed.

(** ** Facts on dispatch and the store *)

(** The script's purchase reaches the purchase route, where its form
    lacks the required parameter [user]. *)
Lemma of_script_purchase u g :
  of_script (purchase_req u g) = Some (Request POST "/user/purchase" [("_user", u); ("game", g)]).
Proof. reflexivity. Qed.

Lemma find_route_purchase :
  find_route api_routes POST "/user/purchase" = Some (purchase_route, []).
Proof. reflexivity. Qed.

Lemma purchase_missing_user u g :
  missing_param (validation purchase_route) ([] ++ [("_user", u); ("game", g)]) = Some "user".
Proof. reflexivity. Qed.

Lemma json_db code v s : db (json code v s).2 = db s.
Proof. done. Qed.

Lemma purchase_key_prefix e : String.prefix "gamesPurchased:" ("gamesPurchased:" +:+ e) = true.
Proof. by destruct e. Qed.

Section StoreFacts.
Variables (confirmSSA : jsval -> jsval) (getGameFromSlug : jsval -> jsval * jsval)
  (sadd_err : jsobj -> bool) (enforce : bool) (validation_error : string -> response).

Lemma purchase_store_wf POST err s : store_wf (db s) -> store_wf (db (purchase confirmSSA POST err s).2).
Proof.
  rewrite purchase_spec. simpl. destruct err; [done|]. intros Hwf.
  apply map_Forall_insert_2; [|done]. split; [apply purchase_key_prefix|set_solver].
Qed.

Lemma dispatch_store_wf rs rq s :
  store_wf (db s) ->
  store_wf (db (dispatch confirmSSA getGameFromSlug sadd_err enforce validation_error rs rq s).2).
Proof.
  intros Hwf. unfold dispatch. destruct (find_route _ _ _) as [[r ps]|]; [|done].
  destruct (if enforce then _ else None); [done|]. destruct (route_view r); simpl.
  - by apply purchase_store_wf.
  - by rewrite detail_spec.
Qed.

(** The script's purchase form, dispatched: refused by the validation
    when it is enforced, otherwise handed to the purchase view. *)
Lemma dispatch_script_purchase u g s :
  dispatch confirmSSA getGameFromSlug sadd_err enforce validation_error api_routes
    (Request POST "/user/purchase" [("_user", u); ("game", g)]) s =
  if enforce then (tt, HS (db s) (sent s ++ [validation_error "user"]) (opened s) (closed s))
  else purchase confirmSSA [("_user", u); ("game", g)] (sadd_err [("_user", u); ("game", g)]) s.
Proof.
  unfold dispatch. cbn [req_method req_path req_params]. rewrite find_route_purchase.
  destruct enforce; [|done]. rewrite purchase_missing_user. unfold json.
  by destruct (validation_error "user").
Qed.

(** Without a [user] parameter the purchase view writes the key
    [gamesPurchased:undefined] and nothing else. *)
Lemma purchase_no_user_db POST err s :
  field "user" POST = JUndef ->
  db (purchase confirmSSA POST err s).2 =
  if err then db s
  else <["gamesPurchased:undefined" := {[js_to_string (field "game" POST)]} ∪
           default ∅ (db s !! "gamesPurchased:undefined")]> (db s).
Proof. intros Hu. rewrite purchase_spec. unfold purchase_email. by rewrite Hu. Qed.

(** Serving any sequence of the script's purchase forms. *)
Lemma serve_script_purchases_aux rqs s :
  Forall (fun rq => exists u g, rq = Request POST "/user/purchase" [("_user", u); ("game", g)]) rqs ->
  let s' := (serve confirmSSA getGameFromSlug sadd_err enforce validation_error api_routes rqs s).2 in
  (forall k, k <> "gamesPurchased:undefined" -> db s' !! k = db s !! k) /\
  (enforce = true -> db s' = db s) /\
  default ∅ (db s !! "gamesPurchased:undefined") ⊆ default ∅ (db s' !! "gamesPurchased:undefined") /\
  (enforce = false -> Forall (fun rq => sadd_err (req_params rq) = false ->
     js_to_string (field "game" (req_params rq)) ∈ default ∅ (db s' !! "gamesPurchased:undefined")) rqs).
Proof.
  revert s. induction rqs as [|rq rqs IH]; intros s Hf; [done|].
  apply Forall_cons in Hf as [(u & g & ->) Hf]. simpl. unfold mbind, H_bind.
  rewrite dispatch_script_purchase.
  destruct enforce eqn:He.
  - destruct (IH (HS (db s) (sent s ++ [validation_error "user"]) (opened s) (closed s)) Hf)
      as (H1 & H2 & H3 & _). naive_solver.
  - destruct (purchase confirmSSA _ _ s) as [[] s1] eqn:Hp.
    assert (Hdb := purchase_no_user_db [("_user", u); ("game", g)]
                     (sadd_err [("_user", u); ("game", g)]) s eq_refl).
    rewrite Hp in Hdb. simpl in Hdb.
    destruct (IH s1 Hf) as (H1 & _ & H3 & H4). split_and!; [|done| |].
    + intros k Hk. rewrite H1 by done. rewrite Hdb.
      case_match; [done|by rewrite lookup_insert_ne].
    + etrans; [|exact H3]. rewrite Hdb. case_match; [done|].
      rewrite lookup_insert_eq. simpl. set_solver.
    + intros _. constructor; [|by apply H4]. simpl. intros Herr.
      apply H3. rewrite Hdb, Herr, lookup_insert_eq. simpl. set_solver.
Qed.

End StoreFacts.

(** ** Theorems *)

(** A path built from a pattern matches it with the values it was built
    from, one per parameter, if they contain no ['/']. *)
Lemma match_fill_path pattern vals :
  Forall (fun v => no_slash v = true) vals -> length vals = length (param_names pattern) ->
  match_path pattern (fill_path pattern vals) =
  Some (zip_with (fun n v => (n, JStr v)) (param_names pattern) vals).
Proof.
  intros Hv Hl. unfold match_path, fill_path, param_names in *.
  pose proof (segments_no_slash pattern) as Hp.
  assert (Hne : fill_segments (segments pattern) vals <> []).
  { unfold segments. destruct (split_path pattern) as [p pat]. simpl. by destruct (param_name p), vals. }
  destruct (fill_segments (segments pattern) vals) as [|seg rest] eqn:Hf; [done|].
  rewrite segments_join, <- Hf; [by apply match_fill_segments|].
  rewrite <- Hf. by apply fill_segments_no_slash.
Qed.

(** Joining the segments of a path gives the path back. *)
Lemma join_path_cons c seg rest : join_path (String c seg) rest = String c (join_path seg rest).
Proof. destruct rest; simpl; [done|by rewrite string_app_cons]. Qed.

Lemma join_segments p seg rest : segments p = seg :: rest -> join_path seg rest = p.
Proof.
  unfold segments. revert seg rest. induction p as [|c p IH]; intros seg rest; simpl.
  - by intros [= <- <-].
  - destruct (split_path p) as [seg' rest']. specialize (IH seg' rest' eq_refl).
    destruct (Ascii.eqb c slash) eqn:Hc; intros [= <- <-].
    + apply Ascii.eqb_eq in Hc as ->. simpl. by rewrite string_app_nil_l, IH.
    + by rewrite join_path_cons, IH.
Qed.

(** A literal segment of a pattern matches that segment only. *)
Lemma match_segments_lit x pat path ps :
  param_name x = None -> match_segments (x :: pat) path = Some ps ->
  exists path', path = x :: path' /\ match_segments pat path' = Some ps.
Proof.
  intros Hx. destruct path as [|y path']; simpl; [done|]. rewrite Hx.
  destruct (String.eqb_spec x y) as [<-|]; [eauto|done].
Qed.

(** A segment [:name] binds [name] to whatever segment it meets. *)
Lemma match_segments_param x n pat path ps :
  param_name x = Some n -> match_segments (x :: pat) path = Some ps ->
  exists y path' ps', path = y :: path' /\ match_segments pat path' = Some ps' /\ ps = (n, JStr y) :: ps'.
Proof.
  intros Hx. destruct path as [|y path']; simpl; [done|]. rewrite Hx.
  destruct (match_segments pat path') as [ps'|] eqn:Hm; [|done]. intros [= <-]. by exists y, path', ps'.
Qed.

(** A pattern without parameters matches itself only, binding nothing. *)
Lemma match_segments_literal pat path ps :
  Forall (fun x => param_name x = None) pat -> match_segments pat path = Some ps ->
  path = pat /\ ps = [].
Proof.
  revert path. induction pat as [|x pat IH]; intros path Hp Hm.
  - destruct path; [by injection Hm as <-|done].
  - apply Forall_cons in Hp as [Hx Hp]. destruct (match_segments_lit _ _ _ _ Hx Hm) as (path' & -> & Hm').
    destruct (IH path' Hp Hm') as [-> ->]. done.
Qed.

(** The paths the purchase pattern matches. *)
Lemma match_purchase_path p ps :
  match_path "/user/purchase" p = Some ps -> p = "/user/purchase" /\ ps = [].
Proof.
  unfold match_path. change (segments "/user/purchase") with [""; "user"; "purchase"].
  intros Hm. apply match_segments_literal in Hm as [Hs ->]; [|by repeat constructor].
  split; [|done]. by rewrite <- (join_segments p _ _ Hs).
Qed.

(** The paths the detail pattern matches: one segment without ['/']
    between [/game/] and [/detail], bound to [slug]. *)
Lemma match_detail_path p ps :
  match_path "/game/:slug/detail" p = Some ps ->
  exists slug, no_slash slug = true /\ p = "/game/" +:+ slug +:+ "/detail" /\ ps = [("slug", JStr slug)].
Proof.
  unfold match_path. change (segments "/game/:slug/detail") with [""; "game"; ":slug"; "detail"].
  intros Hm. pose proof (segments_no_slash p) as Hns.
  apply match_segments_lit in Hm as (l1 & Hs & Hm); [|done].
  apply match_segments_lit in Hm as (l2 & -> & Hm); [|done].
  apply match_segments_param with (n := "slug") in Hm as (slug & l3 & ps' & -> & Hm & ->); [|done].
  apply match_segments_literal in Hm as [-> ->]; [|by repeat constructor].
  rewrite Hs in Hns. exists slug. split_and!; [|by rewrite <- (join_segments p _ _ Hs)|done].
  by apply (Forall_lookup_1 _ _ 2 slug Hns).
Qed.

(** The detail request of a slug without ['/'] reaches the detail view
    with that slug. *)
Lemma find_route_detail slug :
  no_slash slug = true ->
  find_route api_routes GET (fill_path (url detail_route) [slug]) = Some (detail_route, [("slug", JStr slug)]).
Proof.
  intros Hs. unfold api_routes, detail_module, purchase_module. simpl app. unfold find_route.
  rewrite decide_False by discriminate. rewrite decide_True by done.
  rewrite match_fill_path; [done|by repeat constructor|done].
Qed.

(** C26: The route table the two views register is exactly this:
    a request reaches the purchase view, with no path parameter, when
    and only when it is [POST /user/purchase], and the detail view, with
    [req.params.slug] bound, when and only when it is
    [GET /game/<slug>/detail] for a segment [slug] without ['/']; every
    other method and path matches no route (and is answered 404). *)
Theorem api_routing m p r ps :
  find_route api_routes m p = Some (r, ps) <->
  (r = purchase_route /\ m = POST /\ p = "/user/purchase" /\ ps = []) \/
  (exists slug, r = detail_route /\ m = GET /\ no_slash slug = true /\
     p = "/game/" +:+ slug +:+ "/detail" /\ ps = [("slug", JStr slug)]).
Proof.
  split.
  - unfold api_routes, detail_module, purchase_module. simpl app. unfold find_route.
    destruct (decide (route_method purchase_route = m)) as [<-|];
      [destruct (match_path (url purchase_route) p) as [ps'|] eqn:Hm|].
    + intros [= <- <-]. left. by destruct (match_purchase_path _ _ Hm) as [-> ->].
    + destruct (decide (route_method detail_route = POST)); [discriminate|done].
    + destruct (decide (route_method detail_route = m)) as [<-|]; [|done].
      destruct (match_path (url detail_route) p) as [ps'|] eqn:Hm; [|done].
      intros [= <- <-]. right. destruct (match_detail_path _ _ Hm) as (slug & ? & -> & ->). eauto 10.
  - intros [(-> & -> & -> & ->)|(slug & -> & -> & Hs & -> & ->)]; [done|].
    by apply find_route_detail.
Qed.

Section ApiTheorems.
Context `{Server} `{Sampler}.
Variables (confirmSSA : jsval -> jsval) (getGameFromSlug : jsval -> jsval * jsval)
  (sadd_err : jsobj -> bool) (validation_error : string -> response).

(** The purchases among the script's calls are its purchase forms. *)
Lemma script_purchase_shape cfg r t c :
  c ∈ calls (main cfg r t) -> is_purchase c.2 = true -> exists u g, c.2 = purchase_req u g.
Proof.
  intros Hc Hp. pose proof (main_calls_built cfg r t) as Hb. rewrite Forall_forall in Hb.
  destruct (Hb c Hc) as [| | | | | |u g]; try discriminate Hp. eauto.
Qed.

(** C16: Every purchase the prefill script issues reaches
    the route [POST /user/purchase], whose validation marks [user] as
    required; the script's form names the token [_user], so once the
    validation is enforced the request is answered with the plugin's
    error for [user] alone, before the handler runs: no redis client is
    opened and the store is unchanged.  The script still counts the call
    as a success, since any reply body resolves [newPurchase]. *)
Theorem script_purchases_rejected cfg r t c s :
  c ∈ calls (main cfg r t) -> is_purchase c.2 = true ->
  exists rq, of_script c.2 = Some rq /\
    dispatch confirmSSA getGameFromSlug sadd_err true validation_error api_routes rq s =
    (tt, HS (db s) (sent s ++ [validation_error "user"]) (opened s) (closed s)).
Proof.
  intros Hc Hp. destruct (script_purchase_shape cfg r t c Hc Hp) as (u & g & ->).
  eexists. split; [apply of_script_purchase|].
  apply (dispatch_script_purchase confirmSSA getGameFromSlug sadd_err true validation_error).
Qed.

(** C17: With the validation of the purchase route enforced or not,
    the purchases the prefill script issues, served in any number and
    order, change no user's set of purchased games: the only key they can
    write is [gamesPurchased:undefined], since the form names the token
    [_user] and the view reads [POST.user].  Enforced, they leave the
    store as it was; not enforced, every game whose [SADD] succeeds is
    credited to that key, the account of a user named [undefined]. *)
Theorem script_purchases_served enforce cfg r t rqs s :
  Forall (fun rq => exists c, c ∈ calls (main cfg r t) /\ is_purchase c.2 = true /\
                              of_script c.2 = Some rq) rqs ->
  let s' := (serve confirmSSA getGameFromSlug sadd_err enforce validation_error api_routes rqs s).2 in
  (forall k, k <> "gamesPurchased:undefined" -> db s' !! k = db s !! k) /\
  (enforce = true -> db s' = db s) /\
  (enforce = false -> Forall (fun rq => sadd_err (req_params rq) = false ->
     js_to_string (field "game" (req_params rq)) ∈ default ∅ (db s' !! "gamesPurchased:undefined")) rqs).
Proof.
  intros Hf.
  assert (Hsh : Forall (fun rq => exists u g,
                  rq = Request POST "/user/purchase" [("_user", u); ("game", g)]) rqs).
  { eapply Forall_impl; [exact Hf|]. intros rq (c & Hc & Hp & Ho).
    destruct (script_purchase_shape cfg r t c Hc Hp) as (u & g & Hq). rewrite Hq in Ho.
    injection Ho as <-. eauto. }
  destruct (serve_script_purchases_aux confirmSSA getGameFromSlug sadd_err enforce validation_error
              rqs s Hsh) as (Hk & He & _ & Hg).
  done.
Qed.

(** C25: Whatever the requests, their order, the answers of
    [auth.confirmSSA], [SADD] and [getGameFromSlug], and whether the
    validation is enforced, serving them keeps the store well formed:
    every key the API writes is [gamesPurchased:<email>] and holds a
    non-empty set. *)
Theorem serve_store_wf enforce rs rqs s :
  store_wf (db s) ->
  store_wf (db (serve confirmSSA getGameFromSlug sadd_err enforce validation_error rs rqs s).2).
Proof.
  revert s. induction rqs as [|rq rqs IH]; intros s Hwf; [done|]. simpl.
  unfold mbind, H_bind. destruct (dispatch _ _ _ _ _ rs rq s) as [[] s'] eqn:Hd.
  apply IH. change s' with (tt, s').2. rewrite <- Hd. by apply dispatch_store_wf.
Qed.

End ApiTheorems.

(** ** Witnesses *)

Definition missing_parameter (k : string) : response :=
  Response 409 (JObj [("code", JStr "MissingParameter"); ("message", JStr k)]).

Definition script_purchase_call : nat * Req :=
  (4, purchase_req (JStr "tok:assert:test0@test.com") (JStr "slug:Mario Broskis")).

Lemma script_purchases_rejected_witness :
  script_purchase_call ∈ calls (@main ok_server lodash24_sampler cfg_two_one [0; 0] 0) /\
  exists rq, of_script script_purchase_call.2 = Some rq /\
    dispatch demo_auth (fun _ => (JUndef, JUndef)) (fun _ => false) true missing_parameter
      api_routes rq empty_state =
    (tt, HS ∅ [missing_parameter "user"] 0 0).
Proof.
  assert (Hc : script_purchase_call ∈ calls (@main ok_server lodash24_sampler cfg_two_one [0; 0] 0))
    by (apply (bool_decide_unpack _); vm_compute; exact I).
  split; [exact Hc|].
  apply (@script_purchases_rejected ok_server lodash24_sampler demo_auth (fun _ => (JUndef, JUndef))
           (fun _ => false) missing_parameter cfg_two_one [0; 0] 0 script_purchase_call empty_state Hc).
  reflexivity.
Defined.

Lemma serve_store_wf_witness :
  store_wf (db empty_state) /\
  store_wf (db (serve demo_auth (fun _ => (JUndef, JUndef)) (fun _ => false) false missing_parameter
                  api_routes
                  [Request POST "/user/purchase" [("user", JStr "ssa-alice"); ("game", JStr "9")];
                   Request GET "/game/mario-bros/detail" []] empty_state).2).
Proof.
  assert (H0 : store_wf (db empty_state)) by (apply (bool_decide_unpack _); vm_compute; exact I).
  split; [exact H0|]. by apply serve_store_wf.
Defined.

Definition script_purchase_request : request :=
  Request POST "/user/purchase"
    [("_user", JStr "tok:assert:test0@test.com"); ("game", JStr "slug:Mario Broskis")].

Lemma script_purchases_served_witness :
  Forall (fun rq => exists c, c ∈ calls (@main ok_server lodash24_sampler cfg_two_one [0; 0] 0) /\
            is_purchase c.2 = true /\ of_script c.2 = Some rq) [script_purchase_request] /\
  let s' := (serve demo_auth (fun _ => (JUndef, JUndef)) (fun _ => false) false missing_parameter
               api_routes [script_purchase_request] empty_state).2 in
  (forall k, k <> "gamesPurchased:undefined" -> db s' !! k = db empty_state !! k) /\
  (false = true -> db s' = db empty_state) /\
  (false = false -> Forall (fun rq => (fun _ => false) (req_params rq) = false ->
     js_to_string (field "game" (req_params rq)) ∈
       default ∅ (db s' !! "gamesPurchased:undefined")) [script_purchase_request]).
Proof.
  assert (Hc : script_purchase_call ∈ calls (@main ok_server lodash24_sampler cfg_two_one [0; 0] 0))
    by (apply (bool_decide_unpack _); vm_compute; exact I).
  assert (Hf : Forall (fun rq => exists c, c ∈ calls (@main ok_server lodash24_sampler cfg_two_one [0; 0] 0) /\
            is_purchase c.2 = true /\ of_script c.2 = Some rq) [script_purchase_request]).
  { constructor; [|constructor]. exists script_purchase_call. split; [exact Hc|split; reflexivity]. }
  split; [exact Hf|].
  apply (@script_purchases_served ok_server lodash24_sampler demo_auth (fun _ => (JUndef, JUndef))
           (fun _ => false) missing_parameter false cfg_two_one [0; 0] 0 [script_purchase_request]
           empty_state Hf).
Defined.
