(* ===== verification/Store.v ===== *)
(** * What the API promises its clients: an abstract specification

    The two views together implement a small service: a purchase of a
    game by a session token records that the token's user owns the game
    and answers [{success: true}]; a detail request answers the game
    stored under the slug.  [spec_step] states this on an abstract state,
    the set of pairs (e-mail, game) purchased and the answers sent,
    without redis, restify or the handlers' guards.  [store_refines]
    relates a redis store to a set of purchases: the pair (e, g) is
    purchased exactly when the set [gamesPurchased:e] holds [g].

    [serve_refines] shows that [serve], run on the requests a client
    builds from valid operations (a token [auth.confirmSSA] accepts, a
    non-empty game, a slug without ['/'], a [SADD] that succeeds), keeps
    the store related to the abstract purchases and sends exactly the
    abstract answers, whether or not the validation is enforced.  Outside
    these hypotheses the handler departs from the specification: see
    [Handlers.purchase_bad_user_continues] and
    [Handlers.purchase_db_error_leaks]. *)

From S2P Require Import Prelude JsValue Promise Handlers Routes.
From stdpp Require Import gmap.
Local Open Scope galaxy_scope.

(** ** The specification *)

(** An operation of a client of the API. *)
Inductive api_op : Type :=
| OpPurchase (user game : string)
| OpDetail (slug : string).

Record spec_state : Type := SpecState {
  purchases : gset (string * string);
  answers : list response
}.

Section Spec.
Variable confirmSSA : jsval -> jsval.
Variable getGameFromSlug : jsval -> jsval * jsval.

(** The abstract effect of one operation. *)
Definition spec_step (op : api_op) (S : spec_state) : spec_state :=
  match op with
  | OpPurchase user game =>
      SpecState ({[(js_to_string (confirmSSA (JStr user)), game)]} ∪ purchases S)
                (answers S ++ [Response 200 success_body])
  | OpDetail slug =>
      let game := (getGameFromSlug (JStr slug)).2 in
      SpecState (purchases S)
                (answers S ++ [if truthy game then Response 200 game
                               else Response 500 (error_body "db_error")])
  end.

Definition spec_run (ops : list api_op) (S : spec_state) : spec_state :=
  foldl (fun S op => spec_step op S) S ops.

(** The operations the specification covers. *)
Definition valid_op (sadd_err : jsobj -> bool) (op : api_op) : bool :=
  match op with
  | OpPurchase user game =>
      bool_decide (user <> "") && truthy (confirmSSA (JStr user)) && bool_decide (game <> "") &&
      negb (sadd_err [("user", JStr user); ("game", JStr game)])
  | OpDetail slug => bool_decide (slug <> "") && no_slash slug
  end.

End Spec.

(** The request a client sends for an operation. *)
Definition op_request (op : api_op) : request :=
  match op with
  | OpPurchase user game => Request POST (url purchase_route) [("user", JStr user); ("game", JStr game)]
  | OpDetail slug => Request GET (fill_path (url detail_route) [slug]) []
  end.

(** The store holds the set [gamesPurchased:e] with [g] exactly when
    the pair (e, g) is purchased. *)
Definition store_refines (st : store) (A : gset (string * string)) : Prop :=
  forall e g, (e, g) ∈ A <-> exists X, st !! ("gamesPurchased:" +:+ e) = Some X /\ g ∈ X.

(** ** Facts *)

Lemma store_refines_empty : store_refines ∅ ∅.
Proof.
  intros e g. split; [by rewrite elem_of_empty|]. intros (X & HX & _). by rewrite lookup_empty in HX.
Qed.

(** [SADD gamesPurchased:e g] refines adding the pair (e, g). *)
Lemma store_refines_sadd st A e g :
  store_refines st A ->
  store_refines (<[("gamesPurchased:" +:+ e) :=
                   {[g]} ∪ default ∅ (st !! ("gamesPurchased:" +:+ e))]> st) ({[(e, g)]} ∪ A).
Proof.
  intros HR e' g'. rewrite elem_of_union, elem_of_singleton, (HR e' g').
  destruct (decide (e = e')) as [<-|Hne].
  - rewrite lookup_insert_eq.
    transitivity (g' ∈ {[g]} ∪ default ∅ (st !! ("gamesPurchased:" +:+ e))); [|naive_solver].
    rewrite elem_of_union, elem_of_singleton.
    destruct (st !! _) as [X|]; simpl; [|rewrite elem_of_empty]; split.
    + intros [[= ->]|(Y & [= <-] & Hg)]; auto.
    + intros [->|Hg]; [by left|right; eauto].
    + intros [[= ->]|(Y & [=] & _)]. auto.
    + intros [->|[]]. by left.
  - rewrite lookup_insert_ne; [naive_solver|]. intros Heq. by apply Hne, (inj (String.append "gamesPurchased:")).
Qed.

Section Refinement.
Variables (confirmSSA : jsval -> jsval) (getGameFromSlug : jsval -> jsval * jsval)
  (sadd_err : jsobj -> bool) (enforce : bool) (validation_error : string -> response).

(** One valid operation: the request it becomes is dispatched as the
    specification says. *)
Lemma dispatch_refines op s A :
  valid_op confirmSSA sadd_err op = true -> store_refines (db s) A ->
  let s' := (dispatch confirmSSA getGameFromSlug sadd_err enforce validation_error api_routes
               (op_request op) s).2 in
  let S' := spec_step confirmSSA getGameFromSlug op (SpecState A (sent s)) in
  store_refines (db s') (purchases S') /\ sent s' = answers S'.
Proof.
  intros Hv HR. destruct op as [user game|slug]; simpl in Hv; unfold dispatch; cbn [req_method req_path req_params op_request].
  - apply andb_prop in Hv as [[[Hu Hc]%andb_prop Hg]%andb_prop He%negb_true_iff].
    apply bool_decide_eq_true in Hu, Hg. change (url purchase_route) with "/user/purchase".
    rewrite find_route_purchase.
    replace (if enforce then _ else None) with (@None string) by (by destruct enforce).
    simpl run_view. rewrite He, purchase_spec. unfold purchase_email.
    assert (Hfu : field "user" [("user", JStr user); ("game", JStr game)] = JStr user) by done.
    assert (Hfg : field "game" [("user", JStr user); ("game", JStr game)] = JStr game) by done.
    rewrite Hfu, Hfg.
    assert (Htu : truthy (JStr user) = true) by (by apply truthy_str).
    assert (Htg : truthy (JStr game) = true) by (by apply truthy_str).
    rewrite Htu, Hc, Htg. simpl. split; [by apply store_refines_sadd|done].
  - apply andb_prop in Hv as [Hne%bool_decide_eq_true Hs]. rewrite find_route_detail by done.
    replace (if enforce then _ else None) with (@None string) by (by destruct enforce).
    simpl run_view. rewrite detail_spec.
    assert (Hf : field "slug" [("slug", JStr slug)] = JStr slug) by done. rewrite Hf.
    assert (Hts : truthy (JStr slug) = true) by (by apply truthy_str). rewrite Hts. done.
Qed.

End Refinement.

(** ** Theorem *)

Section RefinementTheorem.
Variables (confirmSSA : jsval -> jsval) (getGameFromSlug : jsval -> jsval * jsval)
  (sadd_err : jsobj -> bool) (validation_error : string -> response).

(** C18: The API implements its specification: served the
    requests a client builds from valid operations (tokens that
    [auth.confirmSSA] accepts, non-empty games, slugs without ['/'],
    successful [SADD]s), in any number and order, and whether or not the
    validation is enforced, the redis store stays related to the
    abstract set of purchases (the set [gamesPurchased:e] holds [g]
    exactly when the user of e-mail [e] purchased [g]) and the responses
    sent are exactly the answers of the specification, in order. *)
Theorem serve_refines enforce ops s A :
  Forall (fun op => valid_op confirmSSA sadd_err op = true) ops -> store_refines (db s) A ->
  let s' := (serve confirmSSA getGameFromSlug sadd_err enforce validation_error api_routes
               (op_request <$> ops) s).2 in
  let S' := spec_run confirmSSA getGameFromSlug ops (SpecState A (sent s)) in
  store_refines (db s') (purchases S') /\ sent s' = answers S'.
Proof.
  revert s A. induction ops as [|op ops IH]; intros s A Hv HR; [done|].
  apply Forall_cons in Hv as [Hop Hv]. simpl. unfold mbind, H_bind.
  pose proof (dispatch_refines confirmSSA getGameFromSlug sadd_err enforce validation_error
                op s A Hop HR) as [HR' Hs'].
  destruct (dispatch _ _ _ _ _ _ _ s) as [[] s1]. simpl in HR', Hs'.
  unfold spec_run in IH |- *. simpl.
  destruct (spec_step _ _ op _) as [A1 ans1] eqn:Hst. simpl in HR', Hs'. rewrite <- Hs'.
  by apply IH.
Qed.

End RefinementTheorem.

(** ** Witness *)

Definition demo_games (slug : jsval) : jsval * jsval := (JUndef, JObj [("slug", slug)]).

Definition demo_ops : list api_op :=
  [OpPurchase "ssa-alice" "halo-718"; OpDetail "halo-718"; OpPurchase "ssa-alice" "halo-718"].

Lemma serve_refines_witness :
  Forall (fun op => valid_op demo_auth (fun _ => false) op = true) demo_ops /\
  let s' := (serve demo_auth demo_games (fun _ => false) true missing_parameter api_routes
               (op_request <$> demo_ops) empty_state).2 in
  let S' := spec_run demo_auth demo_games demo_ops (SpecState ∅ (sent empty_state)) in
  store_refines (db s') (purchases S') /\ sent s' = answers S'.
Proof.
  assert (Hv : Forall (fun op => valid_op demo_auth (fun _ => false) op = true) demo_ops)
    by repeat constructor.
  split; [exact Hv|].
  apply (serve_refines demo_auth demo_games (fun _ => false) missing_parameter true demo_ops
           empty_state ∅ Hv store_refines_empty).
Defined.
